(** * Knowledge inbox: the retrieval core of the RAG backend

  A shallow embedding of [backend/ingestion.py], [backend/vector_store.py],
  [backend/rag_pipeline.py] and the part of [backend/database.py] they call,
  with the properties the design document states about them.

  Conventions.
  - A Python [str] is a list of Unicode code points; [len] counts them.
  - A Python [int] is a [Z]; a Python [float] is a binary64 [float].
  - A [while] loop is a function with fuel: [None] means that the loop is
    still running when the fuel is spent.
  - A method that may raise returns a [result]; the state it leaves behind is
    returned next to it, because what was mutated before the exception stays
    mutated. *)

From Stdlib Require Import ZArith Lia Floats Ascii String Sorted.
From Stdlib Require Import FloatAxioms SpecFloat.
From stdpp Require Import base list strings gmap sorting.

(** ** Python strings and lists *)

Module Py.

Definition char := N.
Definition str := list char.

Definition len {A} (l : list A) : Z := Z.of_nat (length l).

(** [Py_UNICODE_ISSPACE]: what [str.split()] separates on and [str.strip()]
    removes. *)
Definition isspace (c : char) : bool :=
  ((9 <=? c) && (c <=? 13) || (28 <=? c) && (c <=? 32)
   || (c =? 133) || (c =? 160) || (c =? 5760)
   || (8192 <=? c) && (c <=? 8202)
   || (c =? 8232) || (c =? 8233) || (c =? 8239) || (c =? 8287)
   || (c =? 12288))%N.

(** [s.split()]: the maximal runs of non-space characters, left to right.
    [word] holds the current run, last character first. *)
Fixpoint split_from (word : str) (s : str) : list str :=
  match s with
  | [] => match word with [] => [] | _ => [rev word] end
  | c :: s' =>
      if isspace c
      then match word with
           | [] => split_from [] s'
           | _ => rev word :: split_from [] s'
           end
      else split_from (c :: word) s'
  end.

Definition split (s : str) : list str := split_from [] s.

(** [sep.join(words)]. *)
Fixpoint join (sep : str) (words : list str) : str :=
  match words with
  | [] => []
  | [w] => w
  | w :: ws => w ++ sep ++ join sep ws
  end.

Fixpoint lstrip (s : str) : str :=
  match s with
  | c :: s' => if isspace c then lstrip s' else s
  | [] => []
  end.

(** [s.strip()]. *)
Definition strip (s : str) : str := rev (lstrip (rev (lstrip s))).

(** A slice bound as [PySlice_AdjustIndices] clamps it against length [n]. *)
Definition slice_index (n i : Z) : Z :=
  if (i <? 0)%Z then Z.max 0 (i + n) else Z.min i n.

(** [l[start:stop]]. *)
Definition slice {A} (l : list A) (start stop : Z) : list A :=
  let lo := slice_index (len l) start in
  let hi := slice_index (len l) stop in
  take (Z.to_nat (hi - lo)) (drop (Z.to_nat lo) l).

(** [l[:stop]]. *)
Definition slice_to {A} (l : list A) (stop : Z) : list A := slice l 0 stop.

(** A string literal of the source. *)
Definition lit (s : string) : str :=
  map (fun a => N.of_nat (nat_of_ascii a)) (list_ascii_of_string s).

Definition space : str := lit " ".

(** Exceptions, by class; a [ValueError] carries its message. *)
Inductive exn :=
| ValueError (msg : string)
| ServiceError
| KeyError (key : string)
| IndexError
| ZeroDivisionError
| IntegrityError.

Inductive result (A : Type) :=
| Ok (a : A)
| Raise (e : exn).
Arguments Ok {A} a.
Arguments Raise {A} e.

(** A method over an object of type [S]: the outcome and the object as the
    call leaves it. *)
Definition M (S A : Type) : Type := S -> result A * S.

Definition ret {S A} (a : A) : M S A := fun s => (Ok a, s).
Definition raise {S A} (e : exn) : M S A := fun s => (Raise e, s).
Definition bind {S A B} (m : M S A) (k : A -> M S B) : M S B :=
  fun s => match m s with
           | (Ok a, s') => k a s'
           | (Raise e, s') => (Raise e, s')
           end.
Definition get {S} : M S S := fun s => (Ok s, s).
Definition put {S} (s : S) : M S unit := fun _ => (Ok tt, s).
Definition lift {S A} (r : result A) : M S A := fun s => (r, s).

(** [for x in xs: body(x)], left at the first exception. *)
Fixpoint for_each {S X} (xs : list X) (body : X -> M S unit) : M S unit :=
  match xs with
  | [] => ret tt
  | x :: xs' => bind (body x) (fun _ => for_each xs' body)
  end.

(** [enumerate(xs)]. *)
Definition enumerate {X} (xs : list X) : list (nat * X) :=
  combine (seq 0 (length xs)) xs.

(** [list.sort], a stable sort that compares with [<] only. Each element in
    turn is inserted behind every element that is not greater, which is where
    the binary insertion of [listsort] puts it; on keys that [<] orders
    totally the result of a stable sort is unique. *)
Section Sort.
Context {A : Type} (lt : A -> A -> bool).

Fixpoint insert (x : A) (sorted : list A) : list A :=
  match sorted with
  | [] => [x]
  | y :: rest => if lt x y then x :: y :: rest else y :: insert x rest
  end.

Definition sort (l : list A) : list A :=
  fold_left (fun sorted x => insert x sorted) l [].

(** [l.sort(reverse=True)]: the list is reversed, sorted and reversed
    again, so that equal elements keep their order. *)
Definition sort_reverse (l : list A) : list A := rev (sort (rev l)).
End Sort.

(** The comparisons of a sort by an integer key. *)
Definition key_lt {A} (key : A -> Z) (a b : A) : bool := (key a <? key b)%Z.
Definition key_le {A} (key : A -> Z) (a b : A) : Prop := (key a <= key b)%Z.

End Py.

Declare Scope py_scope.
Delimit Scope py_scope with py.
Notation "'let*' x ':=' m 'in' k" := (Py.bind m (fun x => k))
(at level 10, x name, m at level 100, k at level 200) : py_scope.
Notation "m ';;;' k" := (Py.bind m (fun _ => k))
(at level 100, k at level 200, right associativity) : py_scope.

(** ** Binary64 numbers, as the specification of the primitive floats has them *)

Module Binary64.
Local Open Scope Z_scope.

Definition is_zero (x : spec_float) : bool :=
  match x with S754_zero _ => true | _ => false end.

(** What a square root that is not zero can be: NaN, plus infinity, or a
    positive number of at least [2 ** -537], the root of the least positive
    float. *)
Definition root_sized (x : spec_float) : Prop :=
  match x with
  | S754_nan => True
  | S754_infinity false => True
  | S754_finite false m e => -537 <= Z.log2 (Zpos m) + e
  | _ => False
  end.

End Binary64.

(** ** [config.py]: the settings the chunker of the pipeline reads *)

Module Config.
Local Open Scope Z_scope.

Record t := { CHUNK_SIZE : Z; CHUNK_OVERLAP : Z }.

(** The values when the environment sets none. *)
Definition default : t := {| CHUNK_SIZE := 500; CHUNK_OVERLAP := 50 |}.

End Config.

(** ** [ingestion.py]: the class [ContentIngestion] *)

Module ContentIngestion.
Import Py.
Local Open Scope Z_scope.

(** The [while start < len(words)] loop of [chunk_text]; one unit of fuel per
    evaluation of the loop condition. *)
Fixpoint chunk_loop (fuel : nat) (words : list str) (chunk_size overlap : Z)
    (start : Z) (chunks : list str) : option (list str) :=
  match fuel with
  | O => None
  | S fuel' =>
      if start <? len words then
        let end_ := start + chunk_size in
        let chunk_words := slice words start end_ in
        let chunk := join space chunk_words in
        let chunks := chunks ++ [chunk] in
        let start := end_ - overlap in
        if start >=? len words then Some chunks
        else chunk_loop fuel' words chunk_size overlap start chunks
      else Some chunks
  end.

(** [ContentIngestion.chunk_text(text, chunk_size, overlap)]. *)
Definition chunk_text (fuel : nat) (text : str) (chunk_size overlap : Z)
    : option (list str) :=
  let words := split text in
  if len words <=? chunk_size then Some [text]
  else chunk_loop fuel words chunk_size overlap 0 [].

(** [ContentIngestion.validate_note(content)] *)
Definition validate_note (content : str) : bool * option string :=
  if bool_decide (content = []) || bool_decide (strip content = []) then
    (false, Some "Note content cannot be empty"%string)
  else if len content >? 50000 then
    (false, Some "Note content too long (max 50,000 characters)"%string)
  else (true, None).

(** The word window that starts at [start]. *)
Definition window (words : list str) (chunk_size : Z) (start : Z) : str :=
  join space (slice words start (start + chunk_size)).

(** The first [m] window starts: 0, step, 2 step, ... *)
Definition starts (step : Z) (m : nat) : list Z :=
  map (fun k => Z.of_nat k * step) (seq 0 m).

(** The number of window starts below [n]. *)
Definition count_starts (n step : Z) : nat := Z.to_nat ((n + step - 1) / step).

(** A word of [split]: not empty, and without white space. *)
Definition is_word (w : str) : Prop :=
  w <> [] /\ Forall (fun c => isspace c = false) w.

(** The words of the chunks, those of the overlap left out. *)
Definition words_of (overlap : Z) (chunks : list str) : list str :=
  match chunks with
  | [] => []
  | first :: rest =>
      split first ++ concat (map (fun chunk => drop (Z.to_nat overlap) (split chunk)) rest)
  end.

End ContentIngestion.

(** ** [database.py]: the relational store

  The two tables as lists of rows in insertion order, and the last row id
  each [AUTOINCREMENT] column has given out. [created_at] is left out: no
  function here reads it. The connection never issues
  [PRAGMA foreign_keys = ON]. *)

Module Database.
Import Py.
Local Open Scope Z_scope.

Record item_row := {
  item_id_ : Z;
  item_content : str;
  item_source_type : str;
  item_url : option str }.

Record chunk_row := {
  chunk_id_ : Z;
  chunk_item_id : Z;
  chunk_text_ : str;
  chunk_index_ : Z }.

Record t := {
  items : list item_row;
  chunks : list chunk_row;
  items_seq : Z;
  chunks_seq : Z }.

Definition empty : t :=
  {| items := []; chunks := []; items_seq := 0; chunks_seq := 0 |}.

Definition str_eqb (a b : str) : bool := bool_decide (a = b).

(** [db.insert_item(content, source_type, url)]; the [CHECK] constraint of
    the table rejects any other source type and the transaction is rolled
    back. *)
Definition insert_item (content source_type : str) (url : option str) : M t Z :=
  fun db =>
    if str_eqb source_type (lit "note") || str_eqb source_type (lit "url") then
      let item_id := items_seq db + 1 in
      (Ok item_id,
       {| items := items db ++ [{| item_id_ := item_id; item_content := content;
                                   item_source_type := source_type; item_url := url |}];
          chunks := chunks db;
          items_seq := item_id;
          chunks_seq := chunks_seq db |})
    else (Raise IntegrityError, db).

(** [db.insert_chunk(item_id, chunk_text, chunk_index)]. *)
Definition insert_chunk (item_id : Z) (chunk_text : str) (chunk_index : Z) : M t Z :=
  fun db =>
    let chunk_id := chunks_seq db + 1 in
    (Ok chunk_id,
     {| items := items db;
        chunks := chunks db ++ [{| chunk_id_ := chunk_id; chunk_item_id := item_id;
                                   chunk_text_ := chunk_text; chunk_index_ := chunk_index |}];
        items_seq := items_seq db;
        chunks_seq := chunk_id |}).

(** [db.get_item_by_id(item_id)]: the row, or [None]. *)
Definition get_item_by_id (item_id : Z) (db : t) : option item_row :=
  find (fun i => item_id_ i =? item_id) (items db).

(** A row of [get_all_chunks]: [c.*, i.source_type, i.url]. *)
Record joined_row := {
  j_id : Z;
  j_item_id : Z;
  j_chunk_text : str;
  j_chunk_index : Z;
  j_source_type : str;
  j_url : option str }.

(** [db.get_all_chunks()]: the chunks that join an item, [ORDER BY c.id]. *)
Definition get_all_chunks (db : t) : list joined_row :=
  let ordered := sort (fun c1 c2 => chunk_id_ c1 <? chunk_id_ c2) (chunks db) in
  flat_map
    (fun c =>
       map (fun i => {| j_id := chunk_id_ c; j_item_id := chunk_item_id c;
                        j_chunk_text := chunk_text_ c; j_chunk_index := chunk_index_ c;
                        j_source_type := item_source_type i; j_url := item_url i |})
           (filter (fun i => item_id_ i = chunk_item_id c) (items db)))
    ordered.

(** [db.get_chunks_by_item_id(item_id)]: the chunks of the item,
    [ORDER BY chunk_index]; rows with the same index stay in table order. *)
Definition get_chunks_by_item_id (item_id : Z) (db : t) : list chunk_row :=
  sort (fun c1 c2 => chunk_index_ c1 <? chunk_index_ c2)
       (filter (fun c => chunk_item_id c = item_id) (chunks db)).

(** [db.delete_item(item_id)]: whether a row was deleted. The code sets no
    pragma, so whether [ON DELETE CASCADE] removes the chunks of the item
    depends on the SQLite library: [foreign_keys] says whether it enforces
    foreign keys on a new connection (it does not in the standard build). The
    [AUTOINCREMENT] sequences keep their values. *)
Definition delete_item (foreign_keys : bool) (item_id : Z) : M t bool :=
  fun db =>
    let deleted := existsb (fun i => item_id_ i =? item_id) (items db) in
    (Ok deleted,
     {| items := filter (fun i => item_id_ i <> item_id) (items db);
        chunks := if foreign_keys
                  then filter (fun c => chunk_item_id c <> item_id) (chunks db)
                  else chunks db;
        items_seq := items_seq db;
        chunks_seq := chunks_seq db |}).

(** What the two [AUTOINCREMENT] keys guarantee of the tables: ids grow with
    the rows and none is beyond its sequence, and no chunk names an item id
    that was not given out yet. *)
Definition wf (db : t) : Prop :=
  StronglySorted Z.lt (map item_id_ (items db))
  /\ Forall (fun i => item_id_ i <= items_seq db) (items db)
  /\ StronglySorted Z.lt (map chunk_id_ (chunks db))
  /\ Forall (fun c => chunk_id_ c <= chunks_seq db) (chunks db)
  /\ Forall (fun c => chunk_item_id c <= items_seq db) (chunks db).

(** The row [get_all_chunks] makes of a chunk and its item. *)
Definition joined (c : chunk_row) (i : item_row) : joined_row :=
  {| j_id := chunk_id_ c; j_item_id := chunk_item_id c;
     j_chunk_text := chunk_text_ c; j_chunk_index := chunk_index_ c;
     j_source_type := item_source_type i; j_url := item_url i |}.

(** The join of the given chunks, in their order, with the given items. *)
Definition rows_of (items : list item_row) (chunks : list chunk_row) : list joined_row :=
  flat_map (fun c => map (joined c) (filter (fun i => item_id_ i = chunk_item_id c) items))
           chunks.

End Database.

(** ** [vector_store.py]: the in-memory vector index *)

Module VectorStore.
Import Py.

Definition embedding := list float.

(** [chunk_metadata], a [dict] from key to [int]. *)
Definition metadata := gmap string Z.

(** The chunk record [{'text': ..., 'metadata': ...}]. *)
Record chunk_record := { text : str; metadata_ : metadata }.

(** The embedding service behind [client.embeddings.create]: what its [n]-th
    request answers for an input, [None] when the request fails. *)
Record Service := { embeddings_create : nat -> str -> option embedding }.

(** The object: the two lists, and the client, [None] when the credentials
    are not set, else the number of requests it has sent. *)
Record t := {
  embeddings : list embedding;
  chunks : list chunk_record;
  client : option nat }.

(** [VectorStore()] *)
Definition init (configured : bool) : t :=
  {| embeddings := []; chunks := [];
     client := if configured then Some 0%nat else None |}.

Definition set_client (c : option nat) (self : t) : t :=
  {| embeddings := embeddings self; chunks := chunks self; client := c |}.

(** [self.generate_embedding(text)] *)
Definition generate_embedding (svc : Service) (text : str) : M t embedding :=
  fun self =>
    match client self with
    | None => (Raise (ValueError "Azure OpenAI client not configured"), self)
    | Some n =>
        let self := set_client (Some (S n)) self in
        match embeddings_create svc n text with
        | Some embedding => (Ok embedding, self)
        | None => (Raise ServiceError, self)
        end
    end.

(** [self.generate_query_embedding(query)] *)
Definition generate_query_embedding (svc : Service) (query : str) : M t embedding :=
  generate_embedding svc query.

(** [self.add_chunk(chunk_text, chunk_metadata)] *)
Definition add_chunk (svc : Service) (chunk_text : str) (chunk_metadata : metadata)
    : M t unit :=
  (let* embedding := generate_embedding svc chunk_text in
   fun self =>
     (Ok tt,
      {| embeddings := embeddings self ++ [embedding];
         chunks := chunks self ++ [{| text := chunk_text; metadata_ := chunk_metadata |}];
         client := client self |}))%py.

(** [sum(xs)] over floats: accumulated from 0, left to right. *)
Definition sum (xs : list float) : float := fold_left PrimFloat.add xs 0%float.

(** [x / y] *)
Definition truediv (x y : float) : result float :=
  if PrimFloat.eqb y 0 then Raise ZeroDivisionError else Ok (PrimFloat.div x y).

(** [self.cosine_similarity(vec1, vec2)] *)
Definition cosine_similarity (vec1 vec2 : list float) : result float :=
  let dot_product := sum (map (fun '(a, b) => PrimFloat.mul a b) (combine vec1 vec2)) in
  let norm1 := PrimFloat.sqrt (sum (map (fun a => PrimFloat.mul a a) vec1)) in
  let norm2 := PrimFloat.sqrt (sum (map (fun b => PrimFloat.mul b b) vec2)) in
  if PrimFloat.eqb norm1 0 || PrimFloat.eqb norm2 0 then Ok 0%float
  else truediv dot_product (PrimFloat.mul norm1 norm2).

(** The first loop of [search]: [(idx, similarity)] for every embedding. *)
Fixpoint similarities (query_embedding : embedding) (indexed : list (nat * embedding))
    : result (list (nat * float)) :=
  match indexed with
  | [] => Ok []
  | (idx, chunk_embedding) :: rest =>
      match cosine_similarity query_embedding chunk_embedding with
      | Raise e => Raise e
      | Ok similarity =>
          match similarities query_embedding rest with
          | Raise e => Raise e
          | Ok l => Ok ((idx, similarity) :: l)
          end
      end
  end.

(** [similarities.sort(key=lambda x: x[1], reverse=True)] and
    [similarities[:top_k]]. *)
Definition top_results (sims : list (nat * float)) (top_k : Z) : list (nat * float) :=
  slice_to (sort_reverse (fun x y => PrimFloat.ltb (snd x) (snd y)) sims) top_k.

(** The second loop of [search]: [(self.chunks[idx], score)]. *)
Fixpoint results_of (chunks : list chunk_record) (top : list (nat * float))
    : result (list (chunk_record * float)) :=
  match top with
  | [] => Ok []
  | (idx, score) :: rest =>
      match chunks !! idx with
      | None => Raise IndexError
      | Some chunk =>
          match results_of chunks rest with
          | Raise e => Raise e
          | Ok l => Ok ((chunk, score) :: l)
          end
      end
  end.

(** [self.search(query, top_k)] *)
Definition search (svc : Service) (query : str) (top_k : Z)
    : M t (list (chunk_record * float)) :=
  fun self =>
    match embeddings self with
    | [] => (Ok [], self)
    | _ :: _ =>
        (let* query_embedding := generate_query_embedding svc query in
         let* self := get in
         let* sims := lift (similarities query_embedding (enumerate (embeddings self))) in
         lift (results_of (chunks self) (top_results sims top_k)))%py self
    end.

(** [self.clear()] *)
Definition clear : M t unit :=
  fun self => (Ok tt, {| embeddings := []; chunks := []; client := client self |}).

(** [self.size()] *)
Definition size (self : t) : Z := len (chunks self).

(** The metadata [reload_from_database] builds for a row. *)
Definition metadata_of (chunk_id item_id chunk_index : Z) : metadata :=
  {[ "chunk_id"%string := chunk_id; "item_id"%string := item_id;
     "chunk_index"%string := chunk_index ]}.

(** [self.reload_from_database(db)] *)
Definition reload_from_database (svc : Service) (db : Database.t) : M t unit :=
  let all_chunks := Database.get_all_chunks db in
  match all_chunks with
  | [] => ret tt
  | _ :: _ =>
      (clear ;;;
       for_each all_chunks (fun chunk =>
         let chunk_metadata :=
           metadata_of (Database.j_id chunk) (Database.j_item_id chunk)
                       (Database.j_chunk_index chunk) in
         add_chunk svc (Database.j_chunk_text chunk) chunk_metadata))%py
  end.

(** [p], an index with its score, stands before [p']: its score is not the
    smaller one, and when the scores are equal it was inserted earlier. *)
Definition ranks_before (p p' : nat * float) : Prop :=
  PrimFloat.leb (snd p') (snd p) = true
  /\ (PrimFloat.eqb (snd p) (snd p') = true -> (fst p < fst p')%nat).

(** The three numbers [cosine_similarity] computes first. *)
Definition dot_product (vec1 vec2 : list float) : float :=
  sum (map (fun '(a, b) => PrimFloat.mul a b) (combine vec1 vec2)).

Definition norm (vec : list float) : float :=
  PrimFloat.sqrt (sum (map (fun a => PrimFloat.mul a a) vec)).

(** The comparison of the sort: [key(x) < key(y)] with [key = lambda x: x[1]]. *)
Definition score_lt (x y : nat * float) : bool := PrimFloat.ltb (snd x) (snd y).

Definition not_nan (p : nat * float) : Prop := PrimFloat.is_nan (snd p) = false.

(** The order the ascending sort of the reversed list produces: scores do not
    fall, and of two equal scores the later index comes first. *)
Definition ascending (p p' : nat * float) : Prop :=
  PrimFloat.leb (snd p) (snd p') = true
  /\ (PrimFloat.leb (snd p') (snd p) = true -> (fst p' < fst p)%nat).

(** [p] is an index of the store with the similarity of its embedding to the
    query. *)
Definition scored (query_embedding : embedding) (stored : list embedding)
    (p : nat * float) : Prop :=
  exists e, stored !! fst p = Some e /\ cosine_similarity query_embedding e = Ok (snd p).

(** The chunk record the index holds for a row of the store. *)
Definition record_of (chunk : Database.joined_row) : chunk_record :=
  {| text := Database.j_chunk_text chunk;
     metadata_ := metadata_of (Database.j_id chunk) (Database.j_item_id chunk)
                              (Database.j_chunk_index chunk) |}.

(** Every record of the index names its item: [metadata['item_id']] is
    there. *)
Definition keyed (self : t) : Prop :=
  Forall (fun c => is_Some (metadata_ c !! "item_id"%string)) (chunks self).

(** The invariant of the index: the two lists are as long as each other and
    position [i] of [embeddings] is an answer of the service for the text at
    position [i] of [chunks]. *)
Definition aligned (svc : Service) (self : t) : Prop :=
  Forall2 (fun e c => exists n, embeddings_create svc n (text c) = Some e)
          (embeddings self) (chunks self).

End VectorStore.

(** ** The module-level singletons: [db], [vector_store], [rag_pipeline] *)

Module Globals.
Import Py.

Record t := {
  db : Database.t;
  vector_store : VectorStore.t;
  (** [rag_pipeline.client]: [None] without credentials, else the number of
      requests sent. *)
  rag_client : option nat }.

(** A call of a [db] method. *)
Definition on_db {A} (m : M Database.t A) : M t A :=
  fun w =>
    let '(r, d) := m (db w) in
    (r, {| db := d; vector_store := vector_store w; rag_client := rag_client w |}).

(** A call of a [vector_store] method. *)
Definition on_vector_store {A} (m : M VectorStore.t A) : M t A :=
  fun w =>
    let '(r, v) := m (vector_store w) in
    (r, {| db := db w; vector_store := v; rag_client := rag_client w |}).

(** What lies outside the process: the embedding service, the completion
    service (its [n]-th answer to a question with its context, [None] when
    the request fails) and the page fetcher behind [extract_url_content]
    (success flag, text, error message). *)
Record Env := {
  service : VectorStore.Service;
  chat_completions_create :
    nat -> str -> list (VectorStore.chunk_record * float) -> option str;
  extract_url_content : str -> bool * str * option string }.

(** The index holds exactly what a rebuild from the store would put there. *)
Definition mirrors (w : t) : Prop :=
  VectorStore.chunks (vector_store w)
  = map VectorStore.record_of (Database.get_all_chunks (db w)).

End Globals.

(** ** [rag_pipeline.py]: the query pipeline *)

Module RAGPipeline.
Import Py Globals.
Local Open Scope Z_scope.

(** [self.chunk_text(text)]: the loop of [ContentIngestion.chunk_text], written
    out a second time in the source, on the configured size and overlap. *)
Fixpoint chunk_loop (fuel : nat) (words : list str) (chunk_size overlap : Z)
    (start : Z) (chunks : list str) : option (list str) :=
  match fuel with
  | O => None
  | S fuel' =>
      if start <? len words then
        let end_ := start + chunk_size in
        let chunk_words := slice words start end_ in
        let chunk := join space chunk_words in
        let chunks := chunks ++ [chunk] in
        let start := end_ - overlap in
        if start >=? len words then Some chunks
        else chunk_loop fuel' words chunk_size overlap start chunks
      else Some chunks
  end.

Definition chunk_text (config : Config.t) (fuel : nat) (text : str)
    : option (list str) :=
  let words := split text in
  let chunk_size := Config.CHUNK_SIZE config in
  let overlap := Config.CHUNK_OVERLAP config in
  if len words <=? chunk_size then Some [text]
  else chunk_loop fuel words chunk_size overlap 0 [].

(** An entry of [sources]. *)
Record source := {
  item_id : Z;
  content : str;
  source_type : str;
  url : option str;
  relevance_score : float }.

(** [self.generate_answer(question, context_chunks)]; the prompt is a
    function of the question and the context chunks. *)
Definition generate_answer (env : Env) (question : str)
    (context_chunks : list (VectorStore.chunk_record * float)) : M t str :=
  fun w =>
    match rag_client w with
    | None => (Raise (ValueError "Azure OpenAI client not configured"), w)
    | Some n =>
        let w := {| db := db w; vector_store := vector_store w;
                    rag_client := Some (S n) |} in
        match chat_completions_create env n question context_chunks with
        | Some answer => (Ok answer, w)
        | None => (Raise ServiceError, w)
        end
    end.

(** [chunk_data['text'][:200] + "..." if len(chunk_data['text']) > 200
    else chunk_data['text']] *)
Definition snippet (text : str) : str :=
  if len text >? 200 then slice_to text 200 ++ lit "..." else text.

(** The loop of [query] over [search_results], from the given [seen_items]
    and [sources]. *)
Fixpoint collect_sources (db : Database.t)
    (search_results : list (VectorStore.chunk_record * float))
    (seen_items : gset Z) (sources : list source) : result (list source) :=
  match search_results with
  | [] => Ok sources
  | (chunk_data, score) :: rest =>
      match VectorStore.metadata_ chunk_data !! "item_id"%string with
      | None => Raise (KeyError "item_id")
      | Some item_id =>
          if bool_decide (item_id ∈ seen_items)
          then collect_sources db rest seen_items sources
          else
            let seen_items := seen_items ∪ {[ item_id ]} in
            match Database.get_item_by_id item_id db with
            | Some item =>
                collect_sources db rest seen_items
                  (sources ++
                   [{| item_id := item_id;
                       content := snippet (VectorStore.text chunk_data);
                       source_type := Database.item_source_type item;
                       url := Database.item_url item;
                       relevance_score := score |}])
            | None => collect_sources db rest seen_items sources
            end
      end
  end.

(** The owning item of a search result, [chunk_data['metadata']['item_id']]. *)
Definition owner (r : VectorStore.chunk_record * float) : option Z :=
  VectorStore.metadata_ (fst r) !! "item_id"%string.

(** [entry] is the source built from the search result [r] and its item in
    the store. *)
Definition built_from (db : Database.t) (r : VectorStore.chunk_record * float)
    (entry : source) : Prop :=
  owner r = Some (item_id entry)
  /\ content entry = snippet (VectorStore.text (fst r))
  /\ relevance_score entry = snd r
  /\ exists item, Database.get_item_by_id (item_id entry) db = Some item
       /\ source_type entry = Database.item_source_type item
       /\ url entry = Database.item_url item.

(** [r] stands in [rs] and no result before it has the same owner. *)
Definition first_of_owner (rs : list (VectorStore.chunk_record * float))
    (r : VectorStore.chunk_record * float) : Prop :=
  exists before after,
    rs = before ++ r :: after /\ Forall (fun r' => owner r' <> owner r) before.

(** [sources] keeps one result per owner: the kept results [picked] stand in
    [rs] in the same order, each is the first of its owner, no owner is kept
    twice, and an owner is left out only when the store has no such item. *)
Definition deduplicated (db : Database.t) (rs : list (VectorStore.chunk_record * float))
    (sources : list source) : Prop :=
  NoDup (map item_id sources)
  /\ (exists picked,
        sublist picked rs
        /\ Forall2 (built_from db) picked sources
        /\ Forall (first_of_owner rs) picked)
  /\ Forall (fun r => forall id, owner r = Some id ->
                       Database.get_item_by_id id db = None
                       \/ id ∈ map item_id sources) rs.

(** Scores in non-increasing order, compared with [>=]. *)
Definition descending (scores : list float) : Prop :=
  StronglySorted (fun a b => PrimFloat.leb b a = true) scores.

Definition no_information : str :=
  lit "I don't have any relevant information to answer this question.".

(** [self.query(question, max_results)] *)
Definition query (env : Env) (question : str) (max_results : Z)
    : M t (str * list source) :=
  (let* search_results :=
     on_vector_store (VectorStore.search (service env) question max_results) in
   match search_results with
   | [] => ret (no_information, [])
   | _ :: _ =>
       let* answer := generate_answer env question search_results in
       let* w := get in
       let* sources := lift (collect_sources (db w) search_results ∅ []) in
       ret (answer, sources)
   end)%py.

(** [self.process_and_store_content(item_id, content)]: [True], or [False]
    when anything in it raised; [None] when the chunker is still running
    after [fuel] turns of its loop. *)
Definition process_and_store_content (env : Env) (config : Config.t) (fuel : nat)
    (item_id : Z) (content : str) : t -> option (bool * t) :=
  fun w =>
    match chunk_text config fuel content with
    | None => None
    | Some chunks =>
        match for_each (enumerate chunks) (fun '(idx, chunk_text) =>
                (let* chunk_id :=
                   on_db (Database.insert_chunk item_id chunk_text (Z.of_nat idx)) in
                 let chunk_metadata :=
                   VectorStore.metadata_of chunk_id item_id (Z.of_nat idx) in
                 on_vector_store
                   (VectorStore.add_chunk (service env) chunk_text chunk_metadata))%py) w
        with
        | (Ok _, w') => Some (true, w')
        | (Raise _, w') => Some (false, w')
        end
    end.

End RAGPipeline.

(** ** [ingestion.py]: [process_content] *)

Module Ingestion.
Import Py Globals.
Local Open Scope Z_scope.

Definition message (error : option string) : string :=
  match error with Some e => e | None => "None" end.

(** The loop of [process_content] over [enumerate(chunks)]. *)
Definition store_chunks (env : Env) (item_id : Z) (chunks : list str) : M t unit :=
  for_each (enumerate chunks) (fun '(i, chunk_text) =>
    (let* chunk_id :=
       on_db (Database.insert_chunk item_id chunk_text (Z.of_nat i)) in
     let chunk_metadata := VectorStore.metadata_of chunk_id item_id (Z.of_nat i) in
     on_vector_store (VectorStore.add_chunk (service env) chunk_text chunk_metadata))%py).

(** [process_content(content, source_type)]; [None] when the chunker is
    still running after [fuel] turns of its loop. *)
Definition process_content (env : Env) (fuel : nat) (content source_type : str)
    : t -> option (result Z * t) :=
  fun w =>
    let checked : result (str * option str) :=
      if bool_decide (source_type = lit "url") then
        let '(success, extracted_content, error) := extract_url_content env content in
        if success then Ok (extracted_content, Some content)
        else Raise (ValueError ("Failed to extract URL content: " ++ message error))
      else
        let '(is_valid, error) := ContentIngestion.validate_note content in
        if is_valid then Ok (content, None)
        else Raise (ValueError ("Invalid note content: " ++ message error)) in
    match checked with
    | Raise e => Some (Raise e, w)
    | Ok (final_content, url) =>
        match on_db (Database.insert_item final_content source_type url) w with
        | (Raise e, w) => Some (Raise e, w)
        | (Ok item_id, w) =>
            match ContentIngestion.chunk_text fuel final_content 500 50 with
            | None => None
            | Some chunks =>
                Some ((store_chunks env item_id chunks ;;; ret item_id)%py w)
            end
        end
    end.

(** The rows the loop writes for [texts], after the chunk id [last_id] and from
    the ordinal [index]. *)
Fixpoint chunk_rows (item_id : Z) (last_id : Z) (index : nat) (texts : list str)
    : list Database.chunk_row :=
  match texts with
  | [] => []
  | text :: rest =>
      {| Database.chunk_id_ := last_id + 1; Database.chunk_item_id := item_id;
         Database.chunk_text_ := text; Database.chunk_index_ := Z.of_nat index |}
      :: chunk_rows item_id (last_id + 1) (S index) rest
  end.

(** The index entry the loop makes of a row. *)
Definition record_of_row (c : Database.chunk_row) : VectorStore.chunk_record :=
  {| VectorStore.text := Database.chunk_text_ c;
     VectorStore.metadata_ :=
       VectorStore.metadata_of (Database.chunk_id_ c) (Database.chunk_item_id c)
                               (Database.chunk_index_ c) |}.

(** [process_content] accepts the input and stores [final] with [url]: the
    content of a valid note with no url, or the text that the page fetcher
    extracted with the url itself. *)
Definition accepted (env : Env) (content source_type final : str) (url : option str)
    : Prop :=
  (source_type = lit "note" /\ fst (ContentIngestion.validate_note content) = true
   /\ final = content /\ url = None)
  \/ (source_type = lit "url" /\ fst (fst (extract_url_content env content)) = true
      /\ final = snd (fst (extract_url_content env content)) /\ url = Some content).

(** The store after the loop has written the rows of [texts] for the item. *)
Definition with_rows (item_id : Z) (texts : list str) (db : Database.t) : Database.t :=
  {| Database.items := Database.items db;
     Database.chunks :=
       Database.chunks db ++ chunk_rows item_id (Database.chunks_seq db) 0 texts;
     Database.items_seq := Database.items_seq db;
     Database.chunks_seq := Database.chunks_seq db + len texts |}.

(** The index after [requests] more requests, with the entries of [rows] and
    their embeddings [es] appended. *)
Definition with_entries (rows : list Database.chunk_row) (es : list VectorStore.embedding)
    (requests : nat) (self : VectorStore.t) : VectorStore.t :=
  {| VectorStore.embeddings := VectorStore.embeddings self ++ es;
     VectorStore.chunks := VectorStore.chunks self ++ map record_of_row rows;
     VectorStore.client :=
       match VectorStore.client self with
       | Some n => Some (n + requests)%nat
       | None => None
       end |}.

End Ingestion.

(** ** [main.py]: start-up *)

Module Main.
Import Py Globals.

(** [startup_event()]: the rebuild of the index; a failure is logged and
    start-up goes on with the index as the failure left it. *)
Definition startup_event (env : Env) (w : t) : t :=
  snd (on_vector_store (VectorStore.reload_from_database (service env) (db w)) w).

End Main.

(** ** [routes.py]: the HTTP routes *)

Module Routes.
Import Py Globals.
Local Open Scope Z_scope.

(** What a route body can raise: a Python exception or an [HTTPException];
    a [detail] is a text of the source, the f-string [Item {item_id} not
    found], or [str(e)] of a caught exception. *)
Inductive raised :=
| Python (e : exn)
| HTTPException (status_code : Z) (detail : detail_)
with detail_ :=
| Text (s : string)
| ItemNotFound (item_id : Z)
| str_of (e : raised).

Inductive outcome (A : Type) :=
| Returned (a : A)
| Raised (e : raised).
Arguments Returned {A} a.
Arguments Raised {A} e.

Record IngestResponse := {
  success : bool;
  message : str;
  response_item_id : option Z }.

(** [ingest_content(request)]: the one handler, [except Exception], also
    catches the [HTTPException] of the body. [None] when the chunker is still
    running after [fuel] turns of its loop. *)
Definition ingest_content (env : Env) (fuel : nat) (content source_type : str)
    : t -> option (outcome IngestResponse * t) :=
  fun w =>
    let tried : option (outcome IngestResponse * t) :=
      if negb (Database.str_eqb source_type (lit "note")
               || Database.str_eqb source_type (lit "url"))
      then Some (Raised (HTTPException 400 (Text "source_type must be 'note' or 'url'")), w)
      else
        match Ingestion.process_content env fuel content source_type w with
        | None => None
        | Some (Raise e, w') => Some (Raised (Python e), w')
        | Some (Ok item_id, w') =>
            Some (Returned {| success := true;
                              message := lit "Successfully ingested " ++ source_type;
                              response_item_id := Some item_id |}, w')
        end in
    match tried with
    | Some (Raised e, w') => Some (Raised (HTTPException 500 (str_of e)), w')
    | other => other
    end.

(** The two handlers of [get_item] and [delete_item]: [except HTTPException:
    raise], then [except Exception as e]. *)
Definition reraise_http {A} (tried : outcome A) : outcome A :=
  match tried with
  | Raised (Python e) => Raised (HTTPException 500 (str_of (Python e)))
  | other => other
  end.

(** [get_item(item_id)] *)
Definition get_item (item_id : Z) (w : t) : outcome Database.item_row :=
  reraise_http
    match Database.get_item_by_id item_id (db w) with
    | None => Raised (HTTPException 404 (ItemNotFound item_id))
    | Some item => Returned item
    end.

Record DeleteResponse := {
  deleted_success : bool;
  deleted_item_id : Z }.

(** [delete_item(item_id)]; the message of the response is a function of
    [item_id]. *)
Definition delete_item (foreign_keys : bool) (item_id : Z)
    : t -> outcome DeleteResponse * t :=
  fun w =>
    let tried : outcome DeleteResponse * t :=
      match Database.get_item_by_id item_id (db w) with
      | None => (Raised (HTTPException 404 (ItemNotFound item_id)), w)
      | Some _ =>
          match on_db (Database.delete_item foreign_keys item_id) w with
          | (Raise e, w') => (Raised (Python e), w')
          | (Ok success, w') =>
              if success
              then (Returned {| deleted_success := true; deleted_item_id := item_id |}, w')
              else (Raised (HTTPException 500 (Text "Failed to delete item")), w')
          end
      end in
    (reraise_http (fst tried), snd tried).

Record QueryResponse := {
  answer : str;
  sources : list RAGPipeline.source;
  question_ : str }.

(** [request.max_results or 5] *)
Definition or_5 (max_results : option Z) : Z :=
  match max_results with
  | None => 5
  | Some n => if n =? 0 then 5 else n
  end.

(** [query_knowledge_base(request)] *)
Definition query_knowledge_base (env : Env) (question : str) (max_results : option Z)
    : t -> outcome QueryResponse * t :=
  fun w =>
    let max_results := or_5 max_results in
    match RAGPipeline.query env question max_results w with
    | (Ok (answer, sources), w') =>
        (Returned {| answer := answer; sources := sources; question_ := question |}, w')
    | (Raise e, w') => (Raised (HTTPException 500 (str_of (Python e))), w')
    end.

End Routes.

(** ** A small world to run the functions in *)

Module Examples.
Import Py.

(** A service that answers every request with the vector [[1.0]]. *)
Definition service : VectorStore.Service :=
  {| VectorStore.embeddings_create := fun _ _ => Some [1%float] |}.

Definition env : Globals.Env :=
  {| Globals.service := service;
     Globals.chat_completions_create := fun _ _ _ => Some (lit "answer");
     Globals.extract_url_content := fun _ => (false, [], Some "Request timed out"%string) |}.

(** The process after start-up with credentials and an empty database. *)
Definition fresh : Globals.t :=
  {| Globals.db := Database.empty;
     Globals.vector_store := VectorStore.init true;
     Globals.rag_client := Some 0%nat |}.

(** A note of one word of 201 characters. *)
Definition long_note : str := repeat 97%N 201.

(** A service that answers every request with the vector [[1.0, 0.0]], and an
    index of three chunks; the first and the third have the same embedding. *)
Definition unit_service : VectorStore.Service :=
  {| VectorStore.embeddings_create := fun _ _ => Some [1%float; 0%float] |}.

Definition three_chunks : VectorStore.t :=
  {| VectorStore.embeddings :=
       [[1%float; 0%float]; [0%float; 1%float]; [1%float; 0%float]];
     VectorStore.chunks :=
       [{| VectorStore.text := lit "first";
           VectorStore.metadata_ := VectorStore.metadata_of 1 1 0 |};
        {| VectorStore.text := lit "second";
           VectorStore.metadata_ := VectorStore.metadata_of 2 1 1 |};
        {| VectorStore.text := lit "third";
           VectorStore.metadata_ := VectorStore.metadata_of 3 2 0 |}];
     VectorStore.client := Some 0%nat |}.

(** A service that answers every request with the vector [[2.0 ** 500]], and
    an index of two chunks with the embeddings [[2.0 ** 600]] and
    [[2.0 ** 500]]. *)
Definition large_service : VectorStore.Service :=
  {| VectorStore.embeddings_create := fun _ _ => Some [0x1p500%float] |}.

Definition overflow_chunk : VectorStore.chunk_record :=
  {| VectorStore.text := lit "overflow";
     VectorStore.metadata_ := VectorStore.metadata_of 1 1 0 |}.

Definition match_chunk : VectorStore.chunk_record :=
  {| VectorStore.text := lit "match";
     VectorStore.metadata_ := VectorStore.metadata_of 2 2 0 |}.

Definition two_chunks : VectorStore.t :=
  {| VectorStore.embeddings := [[0x1p600%float]; [0x1p500%float]];
     VectorStore.chunks := [overflow_chunk; match_chunk];
     VectorStore.client := Some 0%nat |}.

(** A store with one item, and two search results that both belong to it. *)
Definition one_item : Database.t :=
  snd (Database.insert_item (lit "sky grass") (lit "note") None Database.empty).

Definition two_hits : list (VectorStore.chunk_record * float) :=
  [({| VectorStore.text := lit "sky";
       VectorStore.metadata_ := VectorStore.metadata_of 1 1 0 |}, 1%float);
   ({| VectorStore.text := lit "grass";
       VectorStore.metadata_ := VectorStore.metadata_of 2 1 1 |}, 0.5%float)].

(** The store and the process of [fresh] after the note "sky" was ingested. *)
Definition sky_db : Database.t :=
  {| Database.items :=
       [{| Database.item_id_ := 1; Database.item_content := lit "sky";
           Database.item_source_type := lit "note"; Database.item_url := None |}];
     Database.chunks :=
       [{| Database.chunk_id_ := 1; Database.chunk_item_id := 1;
           Database.chunk_text_ := lit "sky"; Database.chunk_index_ := 0 |}];
     Database.items_seq := 1;
     Database.chunks_seq := 1 |}.

Definition after_note : Globals.t :=
  {| Globals.db := sky_db;
     Globals.vector_store :=
       {| VectorStore.embeddings := [[1%float]];
          VectorStore.chunks :=
            [{| VectorStore.text := lit "sky";
                VectorStore.metadata_ := VectorStore.metadata_of 1 1 0 |}];
          VectorStore.client := Some 1%nat |};
     Globals.rag_client := Some 0%nat |}.

(** A service that fails every request. *)
Definition down_service : VectorStore.Service :=
  {| VectorStore.embeddings_create := fun _ _ => None |}.

Definition down_env : Globals.Env :=
  {| Globals.service := down_service;
     Globals.chat_completions_create := fun _ _ _ => None;
     Globals.extract_url_content := fun _ => (false, [], Some "Request timed out"%string) |}.

(** The process of [after_note] after the pipeline has stored the content
    "grass" for item 1. *)
Definition after_grass : Globals.t :=
  {| Globals.db :=
       {| Database.items := Database.items sky_db;
          Database.chunks :=
            Database.chunks sky_db
            ++ [{| Database.chunk_id_ := 2; Database.chunk_item_id := 1;
                   Database.chunk_text_ := lit "grass"; Database.chunk_index_ := 0 |}];
          Database.items_seq := 1;
          Database.chunks_seq := 2 |};
     Globals.vector_store :=
       {| VectorStore.embeddings := [[1%float]; [1%float]];
          VectorStore.chunks :=
            [{| VectorStore.text := lit "sky";
                VectorStore.metadata_ := VectorStore.metadata_of 1 1 0 |};
             {| VectorStore.text := lit "grass";
                VectorStore.metadata_ := VectorStore.metadata_of 2 1 0 |}];
          VectorStore.client := Some 2%nat |};
     Globals.rag_client := Some 0%nat |}.

(** The process before start-up, with the store of [after_note]. *)
Definition restarted : Globals.t :=
  {| Globals.db := sky_db;
     Globals.vector_store := VectorStore.init true;
     Globals.rag_client := Some 0%nat |}.

(** The process after start-up without credentials. *)
Definition offline : Globals.t :=
  {| Globals.db := Database.empty;
     Globals.vector_store := VectorStore.init false;
     Globals.rag_client := None |}.

End Examples.

(** * Properties *)

(** ** The chunker *)

Module ChunkerFacts.
Import Py ContentIngestion.
Local Open Scope Z_scope.

Lemma len_nonneg {A} (l : list A) : 0 <= len l.
Proof. unfold len. lia. Qed.

Lemma len_slice {A} (l : list A) (start size : Z) :
  0 <= start <= len l -> 0 <= size ->
  len (slice l start (start + size)) = Z.min size (len l - start).
Proof.
  intros Hs Hz. unfold slice, slice_index.
  destruct (Z.ltb_spec start 0); [lia|].
  destruct (Z.ltb_spec (start + size) 0); [lia|].
  unfold len in *. rewrite length_take, length_drop. lia.
Qed.

Lemma starts_snoc (step : Z) (m : nat) :
  starts step (S m) = starts step m ++ [Z.of_nat m * step].
Proof. unfold starts. rewrite seq_S, map_app. reflexivity. Qed.

Lemma rag_chunk_loop_eq fuel words chunk_size overlap start chunks :
  RAGPipeline.chunk_loop fuel words chunk_size overlap start chunks
  = chunk_loop fuel words chunk_size overlap start chunks.
Proof.
  revert start chunks. induction fuel as [|fuel IH]; intros; simpl; [reflexivity|].
  rewrite IH. reflexivity.
Qed.

Lemma rag_chunk_text_eq config fuel text :
  RAGPipeline.chunk_text config fuel text
  = chunk_text fuel text (Config.CHUNK_SIZE config) (Config.CHUNK_OVERLAP config).
Proof.
  unfold RAGPipeline.chunk_text, chunk_text. rewrite rag_chunk_loop_eq. reflexivity.
Qed.

(** With a step that is not positive the start never leaves the text. *)
Lemma chunk_loop_stuck words chunk_size overlap :
  chunk_size <= overlap -> 0 < len words ->
  forall fuel start chunks,
    start <= 0 -> chunk_loop fuel words chunk_size overlap start chunks = None.
Proof.
  intros Hstep Hn. induction fuel as [|fuel IH]; intros start chunks Hstart; simpl.
  - reflexivity.
  - destruct (Z.ltb_spec start (len words)); [|lia].
    destruct (Z.geb_spec (start + chunk_size - overlap) (len words)); [lia|].
    apply IH. lia.
Qed.

(** With a positive step the loop reaches the end of the text: from the
    [k]-th start it returns the windows of all [m] starts below the word
    count. *)
Lemma chunk_loop_windows words chunk_size overlap (m : nat) :
  0 < chunk_size - overlap ->
  (Z.of_nat m - 1) * (chunk_size - overlap) < len words
    <= Z.of_nat m * (chunk_size - overlap) ->
  forall fuel k,
    Z.of_nat k * (chunk_size - overlap) < len words ->
    (m - k <= fuel)%nat ->
    chunk_loop fuel words chunk_size overlap
      (Z.of_nat k * (chunk_size - overlap))
      (map (window words chunk_size) (starts (chunk_size - overlap) k))
    = Some (map (window words chunk_size) (starts (chunk_size - overlap) m)).
Proof.
  intros Hstep Hm. induction fuel as [|fuel IH]; intros k Hk Hfuel.
  - assert (Z.of_nat m <= Z.of_nat k) by lia. nia.
  - simpl. destruct (Z.ltb_spec (Z.of_nat k * (chunk_size - overlap)) (len words)); [|lia].
    assert (Hnext : Z.of_nat k * (chunk_size - overlap) + chunk_size - overlap
                    = Z.of_nat (S k) * (chunk_size - overlap)) by lia.
    rewrite Hnext.
    assert (Hsnoc : map (window words chunk_size) (starts (chunk_size - overlap) k)
                      ++ [join space (slice words (Z.of_nat k * (chunk_size - overlap))
                                        (Z.of_nat k * (chunk_size - overlap) + chunk_size))]
                    = map (window words chunk_size) (starts (chunk_size - overlap) (S k))).
    { rewrite starts_snoc, map_app. reflexivity. }
    rewrite Hsnoc.
    destruct (Z.geb_spec (Z.of_nat (S k) * (chunk_size - overlap)) (len words)).
    + assert (S k = m) as <- by nia. reflexivity.
    + apply IH; lia.
Qed.

Lemma count_starts_spec n step :
  0 < step -> 0 < n ->
  (Z.of_nat (count_starts n step) - 1) * step < n <= Z.of_nat (count_starts n step) * step.
Proof.
  intros Hstep Hn. unfold count_starts.
  assert (0 <= (n + step - 1) / step) by (apply Z.div_pos; lia).
  rewrite Z2Nat.id by assumption.
  pose proof (Z.div_mod (n + step - 1) step ltac:(lia)).
  pose proof (Z.mod_pos_bound (n + step - 1) step Hstep).
  nia.
Qed.

(** C1, as the code has it: when the overlap is not smaller than the chunk
    size and the text has more words than one chunk, neither chunker ever
    returns: the next start is [start + chunk_size - overlap], which is not
    beyond the current one, and the guard under the comment
    "Prevent infinite loop" repeats the loop condition. *)
Theorem chunk_text_degenerate_never_returns (text : str) (chunk_size overlap : Z) :
  1 <= chunk_size -> chunk_size <= overlap -> chunk_size < len (split text) ->
  forall fuel,
    chunk_text fuel text chunk_size overlap = None
    /\ RAGPipeline.chunk_text
         {| Config.CHUNK_SIZE := chunk_size; Config.CHUNK_OVERLAP := overlap |} fuel text
       = None.
Proof.
  intros Hsize Hover Hwords fuel. rewrite rag_chunk_text_eq. simpl.
  unfold chunk_text. destruct (Z.leb_spec (len (split text)) chunk_size); [lia|].
  split; apply chunk_loop_stuck; lia.
Qed.

Lemma chunk_text_degenerate_never_returns_witness :
  chunk_text 1000 (lit "a b") 1 1 = None
  /\ RAGPipeline.chunk_text {| Config.CHUNK_SIZE := 1; Config.CHUNK_OVERLAP := 1 |}
       1000 (lit "a b") = None.
Proof.
  apply (chunk_text_degenerate_never_returns (lit "a b") 1 1); vm_compute; congruence.
Defined.

(** C4: a text of at most [chunk_size] words comes back as the one chunk
    [text]; a longer one, when [0 <= overlap < chunk_size], as the windows
    [words[s : s + chunk_size]] joined by a space, for the starts
    [s = 0, step, 2 step, ...] with [step = chunk_size - overlap] that are
    below the word count, each window holding [chunk_size] words or, at the
    end of the text, the words that are left; 1200 words with the sizes 500
    and 50 give the three windows that start at 0, 450 and 900. The loop
    needs at most one turn per word. *)
Theorem chunk_text_windows (text : str) (chunk_size overlap : Z) :
  let words := split text in
  let step := chunk_size - overlap in
  (len words <= chunk_size ->
   forall fuel, chunk_text fuel text chunk_size overlap = Some [text])
  /\ (chunk_size < len words -> 0 <= overlap < chunk_size ->
      exists m : nat,
        (forall fuel, (length words <= fuel)%nat ->
           chunk_text fuel text chunk_size overlap
           = Some (map (window words chunk_size) (starts step m)))
        /\ (Z.of_nat m - 1) * step < len words <= Z.of_nat m * step
        /\ (forall s, In s (starts step m) ->
              0 <= s < len words
              /\ len (slice words s (s + chunk_size))
                 = Z.min chunk_size (len words - s)))
  /\ (len words = 1200 ->
      forall fuel, (3 <= fuel)%nat ->
        chunk_text fuel text 500 50 = Some (map (window words 500) [0; 450; 900])).
Proof.
  intros words step. split; [|split].
  - intros Hle fuel. unfold chunk_text. fold words.
    destruct (Z.leb_spec (len words) chunk_size); [reflexivity|lia].
  - intros Hlt Hover. exists (count_starts (len words) step).
    pose proof (count_starts_spec (len words) step ltac:(unfold step; lia) ltac:(lia)) as Hm.
    split; [|split].
    + intros fuel Hfuel. unfold chunk_text. fold words.
      destruct (Z.leb_spec (len words) chunk_size); [lia|].
      apply (chunk_loop_windows words chunk_size overlap
               (count_starts (len words) step) ltac:(unfold step in *; lia) Hm fuel 0%nat).
      * simpl. lia.
      * unfold len in *. fold step. nia.
    + exact Hm.
    + intros s Hs. unfold starts in Hs. apply in_map_iff in Hs as [k [<- Hk]].
      apply in_seq in Hk.
      assert (0 <= Z.of_nat k * step < len words) by (unfold step in *; nia).
      split; [assumption|]. apply len_slice; lia.
  - intros H1200 fuel Hfuel. unfold chunk_text. fold words.
    destruct (Z.leb_spec (len words) 500); [lia|].
    apply (chunk_loop_windows words 500 50 3 ltac:(lia) ltac:(lia) fuel 0%nat); simpl; lia.
Qed.

Lemma chunk_text_windows_witness :
  chunk_text 5 (lit "a b c d e") 2 1
  = Some (map lit ["a b"; "b c"; "c d"; "d e"; "e"]%string).
Proof.
  destruct (chunk_text_windows (lit "a b c d e") 2 1) as [_ [Hlong _]].
  destruct (Hlong ltac:(vm_compute; reflexivity) ltac:(lia)) as [m [Hrun [Hm _]]].
  rewrite (Hrun 5%nat ltac:(vm_compute; lia)).
  assert (Hn : len (split (lit "a b c d e")) = 5) by reflexivity.
  rewrite Hn in Hm. assert (m = 5%nat) as -> by lia.
  reflexivity.
Defined.

End ChunkerFacts.

(** ** Comparison of binary64 floats

    [<], [<=] and [==] on floats that are not NaN form a total preorder; the
    facts come from the specification of the primitive comparisons. *)

Module FloatFacts.
Import Binary64.
Local Open Scope Z_scope.

Lemma SFcompare_antisym x y : SFcompare y x = option_map CompOpp (SFcompare x y).
Proof.
  destruct x as [sx|sx| |sx mx ex], y as [sy|sy| |sy my ey]; simpl;
    try destruct sx; try destruct sy; simpl; try reflexivity.
  all: change (Pos.compare_cont Eq ?a ?b) with (Pos.compare a b).
  all: rewrite (Z.compare_antisym ex ey), (Pos.compare_antisym mx my).
  all: destruct (ex ?= ey), (mx ?= my)%positive; reflexivity.
Qed.

Lemma SFcompare_refl x : x <> S754_nan -> SFcompare x x = Some Eq.
Proof.
  destruct x as [s|s| |s m e]; simpl; try destruct s; try congruence; intros _.
  all: change (Pos.compare_cont Eq ?a ?b) with (Pos.compare a b).
  all: rewrite Z.compare_refl, Pos.compare_refl; reflexivity.
Qed.

Lemma SFcompare_defined x y :
  x <> S754_nan -> y <> S754_nan -> exists c, SFcompare x y = Some c.
Proof.
  destruct x as [sx|sx| |sx mx ex], y as [sy|sy| |sy my ey]; simpl;
    try congruence; intros _ _; eauto.
Qed.

Lemma SFleb_trans x y z : SFleb x y = true -> SFleb y z = true -> SFleb x z = true.
Proof.
  unfold SFleb.
  destruct x as [sx|sx| |sx mx ex], y as [sy|sy| |sy my ey], z as [sz|sz| |sz mz ez];
    simpl; try destruct sx; try destruct sy; try destruct sz; simpl;
    try (intros; congruence); try reflexivity.
  all: change (Pos.compare_cont Eq ?a ?b) with (Pos.compare a b).
  all: destruct (Z.compare_spec ex ey), (Z.compare_spec ey ez), (Z.compare_spec ex ez);
    try (intros; (congruence || lia)).
  all: subst.
  all: destruct (Pos.compare_spec mx my), (Pos.compare_spec my mz),
         (Pos.compare_spec mx mz); simpl; try (intros; (congruence || lia)).
Qed.

Lemma is_nan_false x : PrimFloat.is_nan x = false <-> Prim2SF x <> S754_nan.
Proof.
  unfold PrimFloat.is_nan. rewrite FloatAxioms.eqb_spec. unfold SFeqb. split.
  - intros H Hnan. rewrite Hnan in H. discriminate.
  - intros H. rewrite (SFcompare_refl _ H). reflexivity.
Qed.

Lemma leb_trans x y z :
  PrimFloat.leb x y = true -> PrimFloat.leb y z = true -> PrimFloat.leb x z = true.
Proof. rewrite !FloatAxioms.leb_spec. apply SFleb_trans. Qed.

Lemma leb_total x y :
  PrimFloat.is_nan x = false -> PrimFloat.is_nan y = false ->
  PrimFloat.ltb x y = false -> PrimFloat.leb y x = true.
Proof.
  rewrite !is_nan_false, FloatAxioms.ltb_spec, FloatAxioms.leb_spec. unfold SFltb, SFleb. intros Hx Hy.
  rewrite (SFcompare_antisym (Prim2SF x) (Prim2SF y)).
  destruct (SFcompare_defined _ _ Hx Hy) as [c ->]. destruct c; simpl; congruence.
Qed.

Lemma ltb_leb x y : PrimFloat.ltb x y = true -> PrimFloat.leb x y = true.
Proof.
  rewrite FloatAxioms.ltb_spec, FloatAxioms.leb_spec. unfold SFltb, SFleb.
  destruct (SFcompare (Prim2SF x) (Prim2SF y)) as [[]|]; congruence.
Qed.

Lemma ltb_not_leb x y : PrimFloat.ltb x y = true -> PrimFloat.leb y x = false.
Proof.
  rewrite FloatAxioms.ltb_spec, FloatAxioms.leb_spec. unfold SFltb, SFleb.
  rewrite (SFcompare_antisym (Prim2SF x) (Prim2SF y)).
  destruct (SFcompare (Prim2SF x) (Prim2SF y)) as [[]|]; simpl; congruence.
Qed.

Lemma eqb_leb x y : PrimFloat.eqb x y = true -> PrimFloat.leb x y = true.
Proof.
  rewrite FloatAxioms.eqb_spec, FloatAxioms.leb_spec. unfold SFeqb, SFleb.
  destruct (SFcompare (Prim2SF x) (Prim2SF y)) as [[]|]; congruence.
Qed.

Lemma is_nan_true x : PrimFloat.is_nan x = true -> x = nan.
Proof.
  intros H. apply Prim2SF_inj. change (Prim2SF nan) with S754_nan.
  destruct (Prim2SF x) eqn:Hx; try reflexivity;
    (assert (Hn : PrimFloat.is_nan x = false) by (apply is_nan_false; rewrite Hx; discriminate));
    congruence.
Qed.

Lemma leb_not_nan x y :
  PrimFloat.leb x y = true -> PrimFloat.is_nan x = false /\ PrimFloat.is_nan y = false.
Proof.
  rewrite FloatAxioms.leb_spec, !is_nan_false. unfold SFleb. intros H.
  split; intros Hnan; rewrite Hnan in H; simpl in H; [discriminate|].
  destruct (Prim2SF x); discriminate.
Qed.

(** *** Rounding never loses a number of at least the least positive float *)

Lemma digits2_log2 (p : positive) : Zpos (digits2_pos p) = Z.log2 (Zpos p) + 1.
Proof.
  induction p as [p IH|p IH|]; simpl; try reflexivity.
  - rewrite Pos2Z.inj_succ. destruct p; simpl in *; lia.
  - rewrite Pos2Z.inj_succ. destruct p; simpl in *; lia.
Qed.

Lemma shr_1_m mrs : 0 <= shr_m mrs -> shr_m (shr_1 mrs) = Z.div2 (shr_m mrs).
Proof. destruct mrs as [[|[p|p|]|p] r s]; simpl; intros; try reflexivity; lia. Qed.

Lemma iter_shr_m (n : positive) : forall mrs,
  0 <= shr_m mrs -> shr_m (SpecFloat.iter_pos shr_1 n mrs) = Z.shiftr (shr_m mrs) (Zpos n).
Proof.
  induction n as [n IH|n IH|]; intros mrs Hm; simpl SpecFloat.iter_pos.
  - assert (H1 : 0 <= shr_m (shr_1 mrs)) by (rewrite shr_1_m by assumption; apply Z.div2_nonneg; assumption).
    assert (H2 : 0 <= shr_m (SpecFloat.iter_pos shr_1 n (shr_1 mrs))) by (rewrite IH by assumption; apply Z.shiftr_nonneg; assumption).
    rewrite IH, IH, shr_1_m by assumption.
    rewrite Z.div2_spec, !Z.shiftr_shiftr by lia. f_equal. lia.
  - assert (H2 : 0 <= shr_m (SpecFloat.iter_pos shr_1 n mrs)) by (rewrite IH by assumption; apply Z.shiftr_nonneg; assumption).
    rewrite IH, IH by assumption. rewrite !Z.shiftr_shiftr by lia. f_equal. lia.
  - rewrite shr_1_m by assumption. apply Z.div2_spec.
Qed.

Lemma shr_record_of_loc_m m l : shr_m (shr_record_of_loc m l) = m.
Proof. destruct l as [|[]]; reflexivity. Qed.

Lemma shr_fexp_pos m e l :
  0 < m -> -1074 <= Z.log2 m + e ->
  0 < shr_m (fst (shr_fexp prec emax m e l))
  /\ Z.log2 (shr_m (fst (shr_fexp prec emax m e l))) + snd (shr_fexp prec emax m e l)
     = Z.log2 m + e.
Proof.
  intros Hm Hlog. unfold shr_fexp, shr.
  assert (Hd : Zdigits2 m = Z.log2 m + 1).
  { destruct m as [|p|p]; try lia. apply digits2_log2. }
  rewrite Hd. unfold fexp, emin, prec, emax.
  pose proof (Z.log2_nonneg m) as Hnn.
  destruct (Z.max (Z.log2 m + 1 + e - 53) (3 - 1024 - 53) - e) as [|n|n] eqn:Hn;
    simpl fst; simpl snd; rewrite ?shr_record_of_loc_m; try (split; [assumption|reflexivity]).
  rewrite iter_shr_m by (rewrite shr_record_of_loc_m; lia).
  rewrite shr_record_of_loc_m.
  assert (Hle : Zpos n <= Z.log2 m) by lia.
  rewrite Z.log2_shiftr by assumption.
  split; [|lia].
  rewrite Z.shiftr_div_pow2 by lia.
  apply Z.div_str_pos. split; [apply Z.pow_pos_nonneg; lia|].
  transitivity (2 ^ Z.log2 m).
  - apply Z.pow_le_mono_r; lia.
  - apply Z.log2_spec. assumption.
Qed.

Lemma round_nearest_even_ge m l : m <= round_nearest_even m l.
Proof. destruct l as [|[]]; simpl; try lia. destruct (Z.even m); lia. Qed.

Lemma binary_round_aux_root_sized s m e l :
  0 < m -> -1074 <= Z.log2 m + e ->
  match binary_round_aux prec emax s m e l with
  | S754_finite s' m' e' => s' = s /\ Z.log2 m + e <= Z.log2 (Zpos m') + e'
  | S754_infinity s' => s' = s
  | _ => False
  end.
Proof.
  intros Hm Hlog. unfold binary_round_aux.
  pose proof (shr_fexp_pos m e l Hm Hlog) as [Hpos1 Hlog1].
  destruct (shr_fexp prec emax m e l) as [mrs' e'] eqn:H1. simpl in Hpos1, Hlog1.
  set (m1 := round_nearest_even (shr_m mrs') (loc_of_shr_record mrs')).
  assert (Hge : shr_m mrs' <= m1) by apply round_nearest_even_ge.
  assert (Hm1 : 0 < m1) by lia.
  assert (Hl1 : Z.log2 (shr_m mrs') <= Z.log2 m1) by (apply Z.log2_le_mono; assumption).
  pose proof (shr_fexp_pos m1 e' loc_Exact Hm1 ltac:(lia)) as [Hpos2 Hlog2].
  destruct (shr_fexp prec emax m1 e' loc_Exact) as [mrs'' e''] eqn:H2. simpl in Hpos2, Hlog2.
  destruct (shr_m mrs'') as [|m2|m2]; try lia.
  destruct (e'' <=? emax - prec); [split; [reflexivity|lia]|reflexivity].
Qed.

Lemma SFmul_root_sized a b : root_sized a -> root_sized b -> is_zero (SFmul prec emax a b) = false.
Proof.
  destruct a as [sa|[|]| |[|] ma ea], b as [sb|[|]| |[|] mb eb]; cbn [root_sized SFmul is_zero xorb];
    try tauto; try reflexivity.
  intros Ha Hb.
  pose proof (Z.log2_mul_below (Zpos ma) (Zpos mb) ltac:(lia) ltac:(lia)) as Hmul.
  pose proof (binary_round_aux_root_sized false (Zpos (ma * mb)) (ea + eb) loc_Exact ltac:(lia)) as H.
  rewrite Pos2Z.inj_mul in H. specialize (H ltac:(lia)).
  rewrite <- Pos2Z.inj_mul in H.
  destruct (binary_round_aux prec emax false (Zpos (ma * mb)) (ea + eb) loc_Exact);
    try reflexivity; contradiction.
Qed.

Lemma sqrt_core_root_sized (m : positive) (e : Z) :
  -1074 <= e ->
  let '(q, e', l) := SFsqrt_core_binary prec emax (Zpos m) e in
  0 < q /\ -537 <= Z.log2 q + e'.
Proof.
  intros He. unfold SFsqrt_core_binary.
  set (e' := Z.min _ _).
  assert (He' : 2 * e' <= e).
  { assert (2 * Z.div2 e <= e) by (rewrite Z.div2_div; pose proof (Z.mul_div_le e 2); lia).
    unfold e'. lia. }
  set (m' := match e - 2 * e' with Z0 => Zpos m | Zpos _ => Z.shiftl (Zpos m) (e - 2 * e') | Zneg _ => 0 end).
  assert (Hm' : 0 < m' /\ Z.log2 m' = Z.log2 (Zpos m) + (e - 2 * e')).
  { unfold m'. destruct (e - 2 * e') as [|s|s] eqn:Hs; cbv beta iota; try lia.
    rewrite Z.log2_shiftl by lia. split; [|reflexivity].
    rewrite Z.shiftl_mul_pow2 by lia. apply Z.mul_pos_pos; [lia|]. apply Z.pow_pos_nonneg; lia. }
  destruct Hm' as [Hpos Hlog].
  pose proof (Z.sqrtrem_spec m' ltac:(lia)) as Hsq.
  destruct (Z.sqrtrem m') as [q r]. destruct Hsq as [Hq Hr].
  assert (Hq0 : 0 < q) by nia.
  split; [exact Hq0|].
  pose proof (Z.log2_nonneg (Zpos m)) as Hnn.
  set (k := Z.log2 m' / 2).
  assert (Hk : 0 <= k) by (apply Z.div_pos; lia).
  assert (Hpow : 2 ^ k <= q).
  { assert (H2k : 2 ^ (2 * k) <= m').
    { transitivity (2 ^ Z.log2 m'); [|apply Z.log2_spec; lia].
      apply Z.pow_le_mono_r; [lia|]. unfold k. apply Z.mul_div_le. lia. }
    replace (2 * k) with (k + k) in H2k by lia.
    rewrite Z.pow_add_r in H2k by lia.
    assert (0 < 2 ^ k) by (apply Z.pow_pos_nonneg; lia). nia. }
  apply Z.log2_le_pow2 in Hpow; [|lia].
  assert (Hke : k + e' = (Z.log2 (Zpos m) + e) / 2).
  { unfold k. rewrite Hlog.
    replace (Z.log2 (Zpos m) + (e - 2 * e')) with (Z.log2 (Zpos m) + e + (- e') * 2) by lia.
    rewrite Z.div_add by lia. lia. }
  assert (-537 <= (Z.log2 (Zpos m) + e) / 2) by (apply Z.div_le_lower_bound; lia).
  lia.
Qed.

Lemma SFsqrt_root_sized x :
  valid_binary prec emax x = true -> is_zero (SFsqrt prec emax x) = false -> root_sized (SFsqrt prec emax x).
Proof.
  destruct x as [s|[|]| |[|] m e]; cbn [root_sized SFsqrt is_zero valid_binary];
    try discriminate; try tauto.
  intros Hvalid _. unfold bounded, canonical_mantissa, fexp, emin, prec, emax in Hvalid.
  apply andb_prop in Hvalid as [Hc _]. apply Z.eqb_eq in Hc.
  pose proof (sqrt_core_root_sized m e ltac:(lia)) as H.
  destruct (SFsqrt_core_binary prec emax (Zpos m) e) as [[q e'] l]. destruct H as [Hq Hlog].
  pose proof (binary_round_aux_root_sized false q e' l Hq ltac:(lia)) as H.
  destruct (binary_round_aux prec emax false q e' l) as [| | |s' m' e'']; try contradiction.
  - subst. exact I.
  - destruct H as [-> H]. cbn [root_sized]. lia.
Qed.

Lemma SFeqb_zero x : SFeqb x (S754_zero false) = is_zero x.
Proof. destruct x as [s|[|]| |[|] m e]; reflexivity. Qed.

(** The product of two square roots that are not zero is not zero: it cannot
    underflow. *)
Lemma norms_product_nonzero (x y : float) :
  PrimFloat.eqb (PrimFloat.sqrt x) 0 = false ->
  PrimFloat.eqb (PrimFloat.sqrt y) 0 = false ->
  PrimFloat.eqb (PrimFloat.mul (PrimFloat.sqrt x) (PrimFloat.sqrt y)) 0 = false.
Proof.
  rewrite !FloatAxioms.eqb_spec, mul_spec, !sqrt_spec.
  change (Prim2SF 0) with (S754_zero false). rewrite !SFeqb_zero.
  intros Hx Hy. apply SFmul_root_sized; apply SFsqrt_root_sized; auto using Prim2SF_valid.
Qed.

End FloatFacts.

(** ** The vector index *)

Module VectorStoreFacts.
Import Py VectorStore.

Lemma for_each_preserves {S X} (P : S -> Prop) (body : X -> M S unit) :
  (forall x s, P s -> P (snd (body x s))) ->
  forall xs s, P s -> P (snd (for_each xs body s)).
Proof.
  intros Hbody. induction xs as [|x xs IH]; intros s Hs; simpl.
  - exact Hs.
  - unfold bind. specialize (Hbody x s Hs).
    destruct (body x s) as [[[]|e] s']; simpl in *.
    + apply IH. exact Hbody.
    + exact Hbody.
Qed.

Lemma aligned_length svc self :
  aligned svc self -> length (embeddings self) = length (chunks self).
Proof. apply Forall2_length. Qed.

Lemma generate_embedding_frame svc text self :
  embeddings (snd (generate_embedding svc text self)) = embeddings self
  /\ chunks (snd (generate_embedding svc text self)) = chunks self.
Proof.
  unfold generate_embedding. destruct (client self) as [n|]; [|split; reflexivity].
  destruct (embeddings_create svc n text); split; reflexivity.
Qed.

Lemma generate_embedding_answer svc text self e self' :
  generate_embedding svc text self = (Ok e, self') ->
  exists n, client self = Some n /\ embeddings_create svc n text = Some e
            /\ self' = set_client (Some (S n)) self.
Proof.
  unfold generate_embedding. destruct (client self) as [n|]; [|discriminate].
  destruct (embeddings_create svc n text) eqn:He; [|discriminate].
  intros [= <- <-]. exists n. auto.
Qed.

Lemma add_chunk_aligned svc chunk_text chunk_metadata self :
  aligned svc self -> aligned svc (snd (add_chunk svc chunk_text chunk_metadata self)).
Proof.
  intros Hal. unfold add_chunk, bind.
  destruct (generate_embedding svc chunk_text self) as [[e|x] self'] eqn:Hgen.
  - apply generate_embedding_answer in Hgen as [n [_ [He ->]]]. simpl.
    apply Forall2_app; [exact Hal|]. constructor; [|constructor]. exists n. exact He.
  - pose proof (generate_embedding_frame svc chunk_text self) as [He Hc].
    rewrite Hgen in He, Hc. simpl in *. unfold aligned. rewrite He, Hc. exact Hal.
Qed.

Lemma search_frame svc query top_k self :
  embeddings (snd (search svc query top_k self)) = embeddings self
  /\ chunks (snd (search svc query top_k self)) = chunks self.
Proof.
  unfold search. destruct (embeddings self) as [|e0 es] eqn:Hemb; [auto|].
  unfold bind, generate_query_embedding.
  pose proof (generate_embedding_frame svc query self) as [He Hc].
  destruct (generate_embedding svc query self) as [[q|x] self'']; simpl in *; [|auto].
  unfold get, lift.
  destruct (similarities q (enumerate (embeddings self''))); simpl.
  all: rewrite ?He, ?Hc, ?Hemb; auto.
Qed.

Lemma reload_aligned svc db self :
  aligned svc self -> aligned svc (snd (reload_from_database svc db self)).
Proof.
  intros Hal. unfold reload_from_database.
  destruct (Database.get_all_chunks db) as [|r rows]; [exact Hal|].
  unfold bind, clear.
  apply (for_each_preserves (aligned svc)).
  - intros x s Hs. apply add_chunk_aligned. exact Hs.
  - constructor.
Qed.

(** The loop of [reload_from_database] when the service answers every
    request: one embedding and one record per row, in the order of the rows. *)
Lemma reload_loop_appends svc (rows : list Database.joined_row) :
  forall (es : list embedding) (self : t) (n : nat),
    client self = Some n ->
    length es = length rows ->
    (forall i row e, rows !! i = Some row -> es !! i = Some e ->
       embeddings_create svc (n + i) (Database.j_chunk_text row) = Some e) ->
    for_each rows
      (fun chunk =>
         add_chunk svc (Database.j_chunk_text chunk)
           (metadata_of (Database.j_id chunk) (Database.j_item_id chunk)
                        (Database.j_chunk_index chunk))) self
    = (Ok tt, {| embeddings := embeddings self ++ es;
                 chunks := chunks self ++ map record_of rows;
                 client := Some (n + length rows) |}).
Proof.
  induction rows as [|row rows IH]; intros es self n Hc Hlen Hsvc.
  - destruct es; [|discriminate]. simpl. unfold ret.
    rewrite !app_nil_r, Nat.add_0_r, <- Hc. destruct self; reflexivity.
  - destruct es as [|e es]; [discriminate|]. simpl in Hlen.
    cbn [for_each]. unfold bind at 1. unfold add_chunk, bind, generate_embedding.
    rewrite Hc. pose proof (Hsvc 0%nat row e eq_refl eq_refl) as H0.
    rewrite Nat.add_0_r in H0. rewrite H0. cbn [set_client embeddings chunks client].
    rewrite (IH es _ (S n)).
    + cbn [embeddings chunks client map length]. rewrite <- !app_assoc.
      replace (S n + length rows)%nat with (n + S (length rows))%nat by lia.
      reflexivity.
    + reflexivity.
    + lia.
    + intros i r e' Hr He'. replace (S n + i)%nat with (n + S i)%nat by lia.
      apply Hsvc; assumption.
Qed.

(** A rebuild from a store that has chunks, with a service that answers:
    the index holds exactly the rows of [get_all_chunks], in their order. *)
Lemma reload_from_database_rebuilds svc db self n (es : list embedding) :
  Database.get_all_chunks db <> [] ->
  client self = Some n ->
  length es = length (Database.get_all_chunks db) ->
  (forall i row e, Database.get_all_chunks db !! i = Some row -> es !! i = Some e ->
     embeddings_create svc (n + i) (Database.j_chunk_text row) = Some e) ->
  reload_from_database svc db self
  = (Ok tt, {| embeddings := es;
               chunks := map record_of (Database.get_all_chunks db);
               client := Some (n + length (Database.get_all_chunks db)) |}).
Proof.
  intros Hne Hc Hlen Hsvc. unfold reload_from_database.
  destruct (Database.get_all_chunks db) as [|row rows] eqn:Hrows; [congruence|].
  unfold bind at 1, clear.
  rewrite (reload_loop_appends svc (row :: rows) es _ n); auto.
Qed.

(** C2, as the code has it: a rebuild from a store without chunks returns
    before [self.clear()], so an index that held a chunk still holds it. The
    index below has one entry and the store none. *)
Theorem reload_from_empty_store_keeps_index (svc : Service) :
  let stale :=
    {| embeddings := [[1%float]];
       chunks := [{| text := lit "gone"; metadata_ := metadata_of 1 1 0 |}];
       client := Some 1%nat |} in
  Database.get_all_chunks Database.empty = []
  /\ reload_from_database svc Database.empty stale = (Ok tt, stale)
  /\ size stale = 1%Z.
Proof. repeat split. Qed.

(** C5: [add_chunk] appends to both lists or to neither. When the embedding
    request raises, [add_chunk] raises the same exception and the two lists,
    hence the size, are as before; when it answers, [add_chunk] returns and
    each list has grown by exactly the new entry. *)
Theorem add_chunk_all_or_nothing svc (chunk_text : str) (chunk_metadata : metadata)
    (self : t) :
  match generate_embedding svc chunk_text self with
  | (Raise e, _) =>
      exists self',
        add_chunk svc chunk_text chunk_metadata self = (Raise e, self')
        /\ embeddings self' = embeddings self
        /\ chunks self' = chunks self
        /\ size self' = size self
  | (Ok embedding, _) =>
      exists self',
        add_chunk svc chunk_text chunk_metadata self = (Ok tt, self')
        /\ embeddings self' = embeddings self ++ [embedding]
        /\ chunks self'
           = chunks self ++ [{| text := chunk_text; metadata_ := chunk_metadata |}]
        /\ size self' = (size self + 1)%Z
  end.
Proof.
  pose proof (generate_embedding_frame svc chunk_text self) as [He Hc].
  unfold add_chunk, bind.
  destruct (generate_embedding svc chunk_text self) as [[e|x] self1]; simpl in *.
  - eexists. split; [reflexivity|]. unfold size, len. cbn [embeddings chunks].
    rewrite He, Hc, length_app. repeat split. simpl. lia.
  - exists self1. repeat split; try assumption. unfold size. rewrite Hc. reflexivity.
Qed.

(** C8: the two lists of the index are equally long and aligned when the
    index is created, and every method leaves them so, whether it returns or
    raises: [add_chunk], [search], [clear] and [reload_from_database];
    [size] reads the length and changes nothing. *)
Theorem index_alignment_invariant (svc : Service) :
  (forall configured, aligned svc (init configured))
  /\ (forall self, aligned svc self ->
        length (embeddings self) = length (chunks self)
        /\ size self = len (embeddings self)
        /\ (forall chunk_text chunk_metadata,
              aligned svc (snd (add_chunk svc chunk_text chunk_metadata self)))
        /\ (forall query top_k, aligned svc (snd (search svc query top_k self)))
        /\ aligned svc (snd (clear self))
        /\ (forall db, aligned svc (snd (reload_from_database svc db self)))).
Proof.
  split.
  - intros configured. constructor.
  - intros self Hal. pose proof (aligned_length svc self Hal) as Hlen.
    split; [exact Hlen|]. split; [unfold size, len; congruence|].
    split; [intros; apply add_chunk_aligned; exact Hal|].
    split.
    + intros query top_k. destruct (search_frame svc query top_k self) as [He Hc].
      unfold aligned. rewrite He, Hc. exact Hal.
    + split; [constructor|]. intros db. apply reload_aligned. exact Hal.
Qed.

Lemma index_alignment_invariant_witness :
  aligned {| embeddings_create := fun _ _ => Some [1%float] |}
    (snd (add_chunk {| embeddings_create := fun _ _ => Some [1%float] |}
            (lit "a") (metadata_of 1 1 0) (init true))).
Proof.
  destruct (index_alignment_invariant {| embeddings_create := fun _ _ => Some [1%float] |})
    as [Hinit Hstep].
  destruct (Hstep (init true) (Hinit true)) as [_ [_ [Hadd _]]].
  apply Hadd.
Defined.

End VectorStoreFacts.

(** ** Cosine similarity *)

Module CosineFacts.
Import Py VectorStore.

Lemma sum_zeros (n : nat) :
  sum (map (fun a => PrimFloat.mul a a) (repeat 0%float n)) = 0%float.
Proof.
  unfold sum. induction n as [|n IH]; simpl; [reflexivity|].
  change (PrimFloat.add 0 (PrimFloat.mul 0 0)) with 0%float. exact IH.
Qed.

Lemma norm_zeros (n : nat) : norm (repeat 0%float n) = 0%float.
Proof. unfold norm. rewrite sum_zeros. reflexivity. Qed.

Lemma cosine_similarity_unfold (vec1 vec2 : list float) :
  cosine_similarity vec1 vec2
  = if PrimFloat.eqb (norm vec1) 0 || PrimFloat.eqb (norm vec2) 0 then Ok 0%float
    else truediv (dot_product vec1 vec2) (PrimFloat.mul (norm vec1) (norm vec2)).
Proof. reflexivity. Qed.

(** C7 as the code has it: the square of [2 ** 600] overflows to infinity, and
    the similarity of the vector [[2 ** 600]] with itself is [inf / inf], a NaN
    and not [1.0]; the square of [2 ** -600] underflows to zero, and the
    similarity of the non-zero vector [[2 ** -600]] with itself is [0.0]. *)
Lemma cosine_similarity_overflow :
  cosine_similarity [0x1p600%float] [0x1p600%float] = Ok nan
  /\ PrimFloat.is_nan nan = true
  /\ PrimFloat.eqb nan 1 = false
  /\ PrimFloat.eqb 0x1p600 0 = false
  /\ cosine_similarity [0x1p-600%float] [0x1p-600%float] = Ok 0%float
  /\ PrimFloat.eqb 0x1p-600 0 = false.
Proof. vm_compute. repeat split. Qed.

Lemma cosine_similarity_nonzero_norms (vec1 vec2 : list float) :
  PrimFloat.eqb (norm vec1) 0 = false -> PrimFloat.eqb (norm vec2) 0 = false ->
  PrimFloat.eqb (PrimFloat.mul (norm vec1) (norm vec2)) 0 = false
  /\ cosine_similarity vec1 vec2
     = Ok (PrimFloat.div (dot_product vec1 vec2) (PrimFloat.mul (norm vec1) (norm vec2))).
Proof.
  intros H1 H2.
  pose proof (FloatFacts.norms_product_nonzero _ _ H1 H2) as H. fold (norm vec1) (norm vec2) in H.
  split; [exact H|].
  rewrite cosine_similarity_unfold, H1, H2. unfold truediv. rewrite H. reflexivity.
Qed.

(** [cosine_similarity] never raises. *)
Lemma cosine_similarity_total (vec1 vec2 : list float) :
  exists s, cosine_similarity vec1 vec2 = Ok s.
Proof.
  destruct (PrimFloat.eqb (norm vec1) 0) eqn:H1.
  - exists 0%float. rewrite cosine_similarity_unfold, H1. reflexivity.
  - destruct (PrimFloat.eqb (norm vec2) 0) eqn:H2.
    + exists 0%float. rewrite cosine_similarity_unfold, H1, H2. reflexivity.
    + eexists. apply (cosine_similarity_nonzero_norms vec1 vec2 H1 H2).
Qed.

(** C7, amended: [cosine_similarity] never raises, so it never divides by
    zero: it returns [0.0] when the norm it computes for either vector is
    zero, and else the dot product divided by the product of the two norms,
    which is not zero, all in binary64 arithmetic. The similarity of any
    vector with a vector of zeros is [0.0], in either order. The similarity of
    a vector with itself is [1.0] for [[3.0]]; it is not for every non-zero
    vector, and the result can be NaN. *)
Theorem cosine_similarity_guarded (vec1 vec2 : list float) :
  (exists s, cosine_similarity vec1 vec2 = Ok s)
  /\ (PrimFloat.eqb (norm vec1) 0 = true \/ PrimFloat.eqb (norm vec2) 0 = true ->
      cosine_similarity vec1 vec2 = Ok 0%float)
  /\ (PrimFloat.eqb (norm vec1) 0 = false -> PrimFloat.eqb (norm vec2) 0 = false ->
      PrimFloat.eqb (PrimFloat.mul (norm vec1) (norm vec2)) 0 = false
      /\ cosine_similarity vec1 vec2
         = Ok (PrimFloat.div (dot_product vec1 vec2)
                             (PrimFloat.mul (norm vec1) (norm vec2))))
  /\ (forall n : nat,
        cosine_similarity vec1 (repeat 0%float n) = Ok 0%float
        /\ cosine_similarity (repeat 0%float n) vec1 = Ok 0%float)
  /\ cosine_similarity [3%float] [3%float] = Ok 1%float.
Proof.
  split; [apply cosine_similarity_total|]. split; [|split; [|split]].
  - rewrite cosine_similarity_unfold.
    intros [H|H]; rewrite H; [reflexivity|]. rewrite orb_true_r. reflexivity.
  - apply cosine_similarity_nonzero_norms.
  - intros n. rewrite !cosine_similarity_unfold, norm_zeros.
    change (PrimFloat.eqb 0 0) with true. rewrite orb_true_r. split; reflexivity.
  - reflexivity.
Qed.

Lemma cosine_similarity_guarded_witness :
  cosine_similarity [3%float; 4%float] [0%float; 0%float] = Ok 0%float.
Proof.
  destruct (cosine_similarity_guarded [3%float; 4%float] [0%float; 0%float])
    as [_ [H _]].
  apply H. right. reflexivity.
Defined.

End CosineFacts.

(** ** Search: the sort and the top [k] *)

Module SearchFacts.
Import Py VectorStore.

Lemma elem_of_insert (x y : nat * float) sorted :
  y ∈ insert score_lt x sorted <-> y = x \/ y ∈ sorted.
Proof.
  induction sorted as [|z sorted IH]; simpl.
  - rewrite list_elem_of_singleton, elem_of_nil. tauto.
  - destruct (score_lt x z); [apply elem_of_cons|].
    rewrite !elem_of_cons, IH. tauto.
Qed.

Lemma insert_Permutation (x : nat * float) sorted :
  insert score_lt x sorted ≡ₚ x :: sorted.
Proof.
  induction sorted as [|z sorted IH]; simpl; [reflexivity|].
  destruct (score_lt x z); [reflexivity|].
  rewrite IH. apply Permutation_swap.
Qed.

Lemma insert_ascending (x : nat * float) sorted :
  not_nan x -> Forall not_nan sorted ->
  Forall (fun y => (fst x < fst y)%nat) sorted ->
  StronglySorted ascending sorted ->
  StronglySorted ascending (insert score_lt x sorted).
Proof.
  intros Hx. induction sorted as [|z sorted IH]; intros Hok Hidx Hsorted; simpl.
  - repeat constructor.
  - apply Forall_cons in Hok as [Hz Hok]. apply Forall_cons in Hidx as [Hxz Hidx].
    apply StronglySorted_inv in Hsorted as [Hsorted Hall].
    unfold score_lt at 1. destruct (PrimFloat.ltb (snd x) (snd z)) eqn:Hlt.
    + constructor; [constructor; assumption|].
      pose proof (FloatFacts.ltb_leb _ _ Hlt) as Hle.
      pose proof (FloatFacts.ltb_not_leb _ _ Hlt) as Hnle.
      constructor.
      * split; [exact Hle|]. intros H. congruence.
      * eapply Forall_impl; [exact Hall|]. simpl. intros y [Hzy _]. split.
        -- eapply FloatFacts.leb_trans; eassumption.
        -- intros Hyx. pose proof (FloatFacts.leb_trans _ _ _ Hzy Hyx). congruence.
    + constructor; [apply IH; assumption|].
      apply Forall_forall. intros y Hy. apply elem_of_insert in Hy as [->|Hy].
      * split; [apply FloatFacts.leb_total; assumption|]. intros _. exact Hxz.
      * rewrite Forall_forall in Hall. apply Hall. exact Hy.
Qed.

Lemma sort_from_ascending (todo : list (nat * float)) :
  forall sorted,
    Forall not_nan todo -> Forall not_nan sorted ->
    StronglySorted (fun p p' => (fst p' < fst p)%nat) todo ->
    (forall x y, x ∈ todo -> y ∈ sorted -> (fst x < fst y)%nat) ->
    StronglySorted ascending sorted ->
    StronglySorted ascending
      (fold_left (fun sorted x => insert score_lt x sorted) todo sorted)
    /\ fold_left (fun sorted x => insert score_lt x sorted) todo sorted ≡ₚ sorted ++ todo.
Proof.
  induction todo as [|x todo IH]; intros sorted Htodo Hok Hdec Hidx Hsorted; simpl.
  - rewrite app_nil_r. auto.
  - apply Forall_cons in Htodo as [Hx Htodo].
    apply StronglySorted_inv in Hdec as [Hdec Hxs].
    destruct (IH (insert score_lt x sorted)) as [Hs Hp]; try assumption.
    + apply Forall_forall. intros y Hy. apply elem_of_insert in Hy as [->|Hy]; [exact Hx|].
      rewrite Forall_forall in Hok. auto.
    + intros a b Ha Hb. apply elem_of_insert in Hb as [->|Hb].
      * rewrite Forall_forall in Hxs. apply Hxs. exact Ha.
      * apply Hidx; [right; exact Ha|exact Hb].
    + apply insert_ascending; try assumption.
      apply Forall_forall. intros y Hy. apply Hidx; [left|exact Hy].
    + split; [exact Hs|]. rewrite Hp, insert_Permutation.
      simpl. apply Permutation_middle.
Qed.

Lemma StronglySorted_rev {A} (R : A -> A -> Prop) (l : list A) :
  StronglySorted R l -> StronglySorted (fun a b => R b a) (rev l).
Proof.
  induction 1 as [|x l Hl IH Hall]; simpl; [constructor|].
  apply sorting.StronglySorted_app_2; [|exact IH|repeat constructor].
  intros a b Ha Hb. apply list_elem_of_singleton in Hb as ->.
  rewrite Forall_forall in Hall. apply Hall.
  apply list_elem_of_In, in_rev, list_elem_of_In in Ha. exact Ha.
Qed.

Lemma StronglySorted_weaken {A} (R R' : A -> A -> Prop) (l : list A) :
  (forall a b, R a b -> R' a b) -> StronglySorted R l -> StronglySorted R' l.
Proof.
  intros Himpl. induction 1 as [|x l Hl IH Hall]; constructor; [exact IH|].
  eapply Forall_impl; [exact Hall|]. simpl. auto.
Qed.

(** [sort(key=score, reverse=True)] on scores that are not NaN, from a list
    in insertion order. *)
Lemma sort_reverse_ranked (sims : list (nat * float)) :
  Forall not_nan sims ->
  StronglySorted (fun p p' => (fst p < fst p')%nat) sims ->
  StronglySorted ranks_before (sort_reverse score_lt sims)
  /\ sort_reverse score_lt sims ≡ₚ sims.
Proof.
  intros Hok Hinc. unfold sort_reverse, sort.
  destruct (sort_from_ascending (rev sims) []) as [Hs Hp].
  - apply Forall_forall. intros x Hx. rewrite Forall_forall in Hok. apply Hok.
    apply list_elem_of_In, in_rev, list_elem_of_In in Hx. exact Hx.
  - constructor.
  - apply (StronglySorted_rev _ _ Hinc).
  - intros x y _ Hy. inversion Hy.
  - constructor.
  - split.
    + apply StronglySorted_rev in Hs.
      eapply StronglySorted_weaken; [|exact Hs]. simpl.
      intros p p' [Hle Htie]. split; [exact Hle|].
      intros Heq. apply Htie. apply FloatFacts.eqb_leb. exact Heq.
    + simpl in Hp. etransitivity; [symmetry; apply Permutation_rev|].
      etransitivity; [exact Hp|]. symmetry. apply Permutation_rev.
Qed.

Lemma slice_to_take {A} (l : list A) (k : Z) :
  (0 <= k)%Z -> slice_to l k = take (Z.to_nat k) l.
Proof.
  intros Hk. unfold slice_to, slice, slice_index.
  destruct (Z.ltb_spec 0 0); [lia|]. destruct (Z.ltb_spec k 0); [lia|].
  pose proof (ChunkerFacts.len_nonneg l) as Hlen.
  rewrite (Z.min_l 0) by lia. change (Z.to_nat 0) with 0%nat.
  rewrite drop_0, Z.sub_0_r.
  destruct (Z.le_ge_cases k (len l)) as [Hle|Hge].
  - rewrite Z.min_l by lia. reflexivity.
  - rewrite Z.min_r by lia. unfold len in *.
    rewrite Nat2Z.id, !take_ge by lia. reflexivity.
Qed.

(** The first loop of [search] when every similarity is computed. *)
Lemma similarities_scored (q : embedding) (stored : list embedding) :
  forall start,
    Forall (fun e => exists s, cosine_similarity q e = Ok s /\ PrimFloat.is_nan s = false)
           stored ->
    exists sims,
      similarities q (combine (seq start (length stored)) stored) = Ok sims
      /\ map fst sims = seq start (length stored)
      /\ Forall not_nan sims
      /\ Forall2 (fun e p => cosine_similarity q e = Ok (snd p)) stored sims.
Proof.
  induction stored as [|e stored IH]; intros start Hall; simpl.
  - exists []. repeat split; constructor.
  - apply Forall_cons in Hall as [[s [Hs Hnan]] Hall].
    destruct (IH (S start) Hall) as [sims [Hsims [Hfst [Hok Hsc]]]].
    rewrite Hs, Hsims. exists ((start, s) :: sims). simpl. rewrite Hfst.
    repeat split; constructor; assumption.
Qed.

Lemma seq_increasing (start n : nat) (sims : list (nat * float)) :
  map fst sims = seq start n ->
  StronglySorted (fun p p' => (fst p < fst p')%nat) sims.
Proof.
  revert start n. induction sims as [|p sims IH]; intros start n Hfst; [constructor|].
  destruct n as [|n]; [discriminate|]. simpl in Hfst. injection Hfst as Hp Hrest.
  constructor; [eapply IH; exact Hrest|].
  apply Forall_forall. intros p' Hp'.
  assert (Hin : fst p' ∈ seq (S start) n).
  { rewrite <- Hrest. apply list_elem_of_fmap. eauto. }
  apply elem_of_seq in Hin. lia.
Qed.

(** The second loop of [search]: every index below the number of chunks has
    its record. *)
Lemma results_of_total (chunks : list chunk_record) (top : list (nat * float)) :
  Forall (fun p => (fst p < length chunks)%nat) top ->
  exists results,
    results_of chunks top = Ok results
    /\ Forall2 (fun p r => chunks !! fst p = Some (fst r) /\ snd r = snd p) top results.
Proof.
  induction top as [|[idx score] top IH]; intros Hall; simpl.
  - exists []. split; constructor.
  - apply Forall_cons in Hall as [Hidx Hall]. simpl in Hidx.
    destruct (IH Hall) as [results [Hr Hf]].
    destruct (lookup_lt_is_Some_2 chunks idx Hidx) as [chunk Hchunk].
    rewrite Hchunk, Hr. exists ((chunk, score) :: results).
    split; [reflexivity|]. constructor; [split; [exact Hchunk|reflexivity]|exact Hf].
Qed.

Lemma scored_elem_of (q : embedding) (stored : list embedding) sims (p : nat * float) :
  map fst sims = seq 0 (length stored) ->
  Forall2 (fun e p => cosine_similarity q e = Ok (snd p)) stored sims ->
  p ∈ sims <-> scored q stored p.
Proof.
  intros Hfst Hsc.
  assert (Hidx : forall j p', sims !! j = Some p' -> fst p' = j).
  { intros j p' Hj.
    assert (Hm : map fst sims !! j = Some (fst p')) by (rewrite list_lookup_fmap, Hj; reflexivity).
    rewrite Hfst in Hm. apply lookup_seq in Hm as [-> _]. reflexivity. }
  split.
  - intros Hin. apply list_elem_of_lookup in Hin as [j Hj].
    destruct (Forall2_lookup_r _ _ _ _ _ Hsc Hj) as [e [He Hcos]].
    exists e. rewrite (Hidx j p Hj). auto.
  - intros [e [He Hcos]].
    destruct (Forall2_lookup_l _ _ _ _ _ Hsc He) as [p' [Hp' Hcos']].
    apply list_elem_of_lookup. exists (fst p).
    assert (p' = p) as <-; [|exact Hp'].
    pose proof (Hidx _ _ Hp') as Hi.
    destruct p as [i s], p' as [i' s']. simpl in *.
    rewrite Hcos in Hcos'. injection Hcos' as ->. subst i'. reflexivity.
Qed.

(** C3 as the code has it: the similarity of the query [[2.0 ** 500]] to the
    first embedding, [[2.0 ** 600]], is [inf / inf], a NaN, and to the second,
    [[2.0 ** 500]], it is [1.0]. No comparison with a NaN is true, so the sort
    leaves the two where they are: [search] with [top_k = 1] returns the first
    chunk and leaves out the one that scores [1.0], and with [top_k = 2] the
    scores come as NaN, [1.0]. On the same index without a configured client
    [search] raises and returns nothing. *)
Lemma search_nan_not_ranked :
  fst (search Examples.large_service (lit "what?") 1 Examples.two_chunks)
  = Ok [(Examples.overflow_chunk, nan)]
  /\ fst (search Examples.large_service (lit "what?") 2 Examples.two_chunks)
     = Ok [(Examples.overflow_chunk, nan); (Examples.match_chunk, 1%float)]
  /\ cosine_similarity [0x1p500%float] [0x1p500%float] = Ok 1%float
  /\ PrimFloat.leb 1 nan = false
  /\ fst (search Examples.large_service (lit "what?") 1
            (set_client None Examples.two_chunks))
     = Raise (ValueError "Azure OpenAI client not configured").
Proof. vm_compute. repeat split. Qed.

(** C3, amended: on an empty index [search] returns the empty list, without a
    request to the service. On a non-empty index, for [top_k >= 0], when the
    query is embedded and no similarity is NaN, it returns the records of the
    indices [top] with their scores, where [top] lists distinct indices of the
    store, is sorted by non-increasing score with equal scores in insertion
    order, has [min(top_k, size)] entries, so none for [top_k = 0] and all for
    [top_k >= size], and every index left out ranks behind every index
    returned. *)
Theorem search_top_k (svc : Service) (query : str) (top_k : Z) (self : t) :
  (embeddings self = [] -> search svc query top_k self = (Ok [], self))
  /\ (forall q self',
        embeddings self <> [] ->
        (0 <= top_k)%Z ->
        length (embeddings self) = length (chunks self) ->
        generate_query_embedding svc query self = (Ok q, self') ->
        Forall (fun e => cosine_similarity q e <> Ok nan) (embeddings self) ->
        exists top results,
          search svc query top_k self = (Ok results, self')
          /\ Forall2 (fun p r => chunks self !! fst p = Some (fst r) /\ snd r = snd p)
                     top results
          /\ Forall (scored q (embeddings self)) top
          /\ NoDup (map fst top)
          /\ StronglySorted ranks_before top
          /\ length results = Nat.min (Z.to_nat top_k) (length (embeddings self))
          /\ (top_k = 0%Z -> results = [])
          /\ (len (embeddings self) <= top_k ->
              length results = length (embeddings self))%Z
          /\ (forall p, scored q (embeddings self) p -> fst p ∉ map fst top ->
                        Forall (fun p' => ranks_before p' p) top)).
Proof.
  split.
  - intros Hempty. unfold search. rewrite Hempty. reflexivity.
  - intros q self' Hne Hk Hlen Hq Hnan.
    assert (Hscores : Forall (fun e => exists s, cosine_similarity q e = Ok s
                                                 /\ PrimFloat.is_nan s = false)
                             (embeddings self)).
    { eapply Forall_impl; [exact Hnan|]. simpl. intros e He.
      destruct (CosineFacts.cosine_similarity_total q e) as [s Hs]. exists s.
      split; [exact Hs|]. destruct (PrimFloat.is_nan s) eqn:Hn; [|reflexivity].
      apply FloatFacts.is_nan_true in Hn. subst s. contradiction. }
    destruct (similarities_scored q (embeddings self) 0 Hscores)
      as [sims [Hsims [Hfst [Hok Hsc]]]].
    destruct (sort_reverse_ranked sims Hok (seq_increasing _ _ _ Hfst)) as [Hsorted Hperm].
    set (sorted := sort_reverse score_lt sims) in *.
    set (top := take (Z.to_nat top_k) sorted).
    assert (Hself' : embeddings self' = embeddings self /\ chunks self' = chunks self).
    { apply VectorStoreFacts.generate_embedding_answer in Hq as [n [_ [_ ->]]]. auto. }
    destruct Hself' as [Hemb Hchunks].
    assert (Hin_sims : forall p, p ∈ top -> p ∈ sims).
    { intros p Hp. rewrite <- Hperm. apply (sublist_subseteq _ _ (sublist_take sorted (Z.to_nat top_k))).
      exact Hp. }
    assert (Hbound : Forall (fun p => (fst p < length (chunks self))%nat) top).
    { apply Forall_forall. intros p Hp.
      assert (Hi : fst p ∈ seq 0 (length (embeddings self))).
      { rewrite <- Hfst. apply list_elem_of_fmap. eauto. }
      apply elem_of_seq in Hi. lia. }
    destruct (results_of_total (chunks self) top Hbound) as [results [Hres Hf2]].
    assert (Hlen_results : length results
                           = Nat.min (Z.to_nat top_k) (length (embeddings self))).
    { rewrite <- (Forall2_length _ _ _ Hf2). unfold top. rewrite length_take.
      rewrite (Permutation_length Hperm), <- (length_map fst sims), Hfst, length_seq.
      reflexivity. }
    exists top, results. split; [|split; [exact Hf2|split; [|split; [|split; [|split;
      [exact Hlen_results|split; [|split]]]]]]].
    + unfold search. destruct (embeddings self) as [|e0 es] eqn:HE; [congruence|].
      unfold bind at 1. rewrite Hq. unfold bind at 1, get. unfold bind, lift.
      rewrite Hemb, Hchunks. unfold enumerate. rewrite Hsims.
      unfold top_results. rewrite slice_to_take by exact Hk.
      change (sort_reverse _ sims) with sorted. fold top. rewrite Hres. reflexivity.
    + apply Forall_forall. intros p Hp.
      apply (scored_elem_of q (embeddings self) sims p Hfst Hsc). auto.
    + unfold top. change (NoDup (fst <$> take (Z.to_nat top_k) sorted)).
      rewrite fmap_take.
      eapply sublist_NoDup; [|apply sublist_take].
      rewrite Hperm. change (NoDup (map fst sims)). rewrite Hfst.
      apply NoDup_seq.
    + rewrite <- (take_drop (Z.to_nat top_k) sorted) in Hsorted.
      apply StronglySorted_app_1_l in Hsorted. exact Hsorted.
    + intros ->. destruct results; [reflexivity|]. simpl in Hlen_results. discriminate.
    + intros Hall. rewrite Hlen_results. unfold len in Hall. lia.
    + intros p Hp Hnot. apply Forall_forall. intros p' Hp'.
      apply (scored_elem_of q (embeddings self) sims p Hfst Hsc) in Hp.
      rewrite <- Hperm, <- (take_drop (Z.to_nat top_k) sorted) in Hp.
      apply elem_of_app in Hp as [Hp|Hp].
      * exfalso. apply Hnot. apply list_elem_of_fmap. eauto.
      * rewrite <- (take_drop (Z.to_nat top_k) sorted) in Hsorted.
        eapply StronglySorted_app_1_elem_of; eassumption.
Qed.

Lemma search_top_k_witness :
  exists top results,
    fst (search Examples.unit_service (lit "what?") 2 Examples.three_chunks) = Ok results
    /\ map fst top = [0%nat; 2%nat]
    /\ StronglySorted ranks_before top
    /\ length results = 2%nat.
Proof.
  destruct (search_top_k Examples.unit_service (lit "what?") 2 Examples.three_chunks)
    as [_ H].
  destruct (H [1%float; 0%float] (set_client (Some 1%nat) Examples.three_chunks))
    as [top [results [Hsearch [Hf2 [_ [_ [Hsorted [Hlen _]]]]]]]].
  - discriminate.
  - lia.
  - reflexivity.
  - reflexivity.
  - repeat constructor; vm_compute; discriminate.
  - exists top, results. rewrite Hsearch. split; [reflexivity|].
    split; [|split; [exact Hsorted|exact Hlen]].
    vm_compute in Hsearch. injection Hsearch as <-.
    clear -Hf2. 
    apply Forall2_cons_inv_r in Hf2 as [[i1 s1] [top1 [[H1 _] [Hf2 ->]]]].
    apply Forall2_cons_inv_r in Hf2 as [[i2 s2] [top2 [[H2 _] [Hf2 ->]]]].
    apply Forall2_nil_inv_r in Hf2 as ->. simpl in *.
    destruct i1 as [|[|[|]]]; try discriminate.
    destruct i2 as [|[|[|]]]; try discriminate. reflexivity.
Defined.

End SearchFacts.

(** ** The query pipeline *)

Module RAGPipelineFacts.
Import Py Globals RAGPipeline.
Local Open Scope Z_scope.

Lemma snippet_short (text : str) : len text <= 200 -> snippet text = text.
Proof. intros H. unfold snippet. destruct (Z.gtb_spec (len text) 200); [lia|reflexivity]. Qed.

Lemma snippet_long (text : str) :
  200 < len text ->
  snippet text = take 200 text ++ lit "..." /\ len (snippet text) = 203.
Proof.
  intros H. unfold snippet. destruct (Z.gtb_spec (len text) 200); [|lia].
  assert (Hs : slice_to text 200 = take 200 text).
  { unfold slice_to, slice, slice_index.
    destruct (Z.ltb_spec 0 0); [lia|]. destruct (Z.ltb_spec 200 0); [lia|].
    rewrite Z.min_l, Z.min_l by lia. reflexivity. }
  rewrite Hs. split; [reflexivity|].
  unfold len in *. rewrite length_app, length_take.
  change (length (lit "...")) with 3%nat. lia.
Qed.

Lemma descending_sublist (l1 l2 : list float) :
  sublist l1 l2 -> descending l2 -> descending l1.
Proof.
  unfold descending. intros Hsub. induction Hsub as [|x l1 l2 Hsub IH|x l1 l2 Hsub IH];
    intros Hsorted.
  - constructor.
  - apply StronglySorted_inv in Hsorted as [Hs Hall]. constructor; [auto|].
    rewrite Forall_forall in *. intros y Hy. apply Hall.
    apply (sublist_subseteq _ _ Hsub). exact Hy.
  - apply StronglySorted_inv in Hsorted as [Hs _]. auto.
Qed.

(** What the loop of [query] adds to [sources]. *)
Lemma collect_sources_spec db rs :
  forall seen acc,
    match collect_sources db rs seen acc with
    | Ok out =>
        exists new picked,
          out = acc ++ new
          /\ sublist picked rs
          /\ Forall2 (built_from db) picked new
          /\ Forall (first_of_owner rs) picked
          /\ NoDup (map item_id new)
          /\ Forall (fun e => item_id e ∉ seen) new
          /\ Forall (fun r => forall id, owner r = Some id ->
                                id ∈ seen \/ Database.get_item_by_id id db = None
                                \/ id ∈ map item_id new) rs
    | Raise e => e = KeyError "item_id" /\ Exists (fun r => owner r = None) rs
    end.
Proof.
  induction rs as [|[chunk_data score] rs IH]; intros seen acc; cbn [collect_sources].
  - exists [], []. rewrite app_nil_r. repeat split; constructor.
  - destruct (VectorStore.metadata_ chunk_data !! "item_id"%string) as [id|] eqn:Hid;
      [|split; [reflexivity|left; exact Hid]].
    assert (Hfirst : forall (seen' : gset Z) new picked,
               id ∈ seen' ->
               Forall (first_of_owner rs) picked ->
               Forall2 (built_from db) picked new ->
               Forall (fun e => item_id e ∉ seen') new ->
               Forall (first_of_owner ((chunk_data, score) :: rs)) picked).
    { intros seen' new picked Hin Hf Hb Hn.
      induction Hb as [|r e picked new Hre Hb IHb]; [constructor|].
      apply Forall_cons in Hf as [Hr Hf]. apply Forall_cons in Hn as [He Hn].
      constructor; [|auto].
      destruct Hr as [before [after [-> Hbefore]]].
      exists ((chunk_data, score) :: before), after. split; [reflexivity|].
      constructor; [|exact Hbefore].
      destruct Hre as [Hown _]. rewrite Hown. unfold owner. simpl. rewrite Hid.
      intros [= ->]. contradiction. }
    case_bool_decide as Hseen.
    + specialize (IH seen acc). destruct (collect_sources db rs seen acc) as [out|e].
      * destruct IH as [new [picked [-> [Hsub [Hb [Hf [Hnd [Hns Hall]]]]]]]].
        exists new, picked. repeat split; auto.
        -- apply sublist_cons. exact Hsub.
        -- eapply Hfirst; eauto.
        -- constructor; [|exact Hall]. unfold owner. simpl. rewrite Hid.
           intros id' [= <-]. left. exact Hseen.
      * destruct IH as [-> Hex]. split; [reflexivity|right; exact Hex].
    + destruct (Database.get_item_by_id id db) as [item|] eqn:Hitem.
      * match goal with |- context [collect_sources db rs ?s ?a] =>
          specialize (IH s a); destruct (collect_sources db rs s a) as [out|e] end.
        -- destruct IH as [new [picked [-> [Hsub [Hb [Hf [Hnd [Hns Hall]]]]]]]].
           eexists (_ :: new), ((chunk_data, score) :: picked).
           rewrite <- app_assoc. split; [reflexivity|].
           split; [apply sublist_skip; exact Hsub|].
           split.
           { constructor; [|exact Hb]. repeat split; simpl; auto. exists item. auto. }
           split.
           { constructor.
             - exists [], rs. split; [reflexivity|constructor].
             - eapply (Hfirst (seen ∪ {[id]})); eauto. set_solver. }
           split.
           { simpl. constructor; [|exact Hnd].
             rewrite Forall_forall in Hns. intros Hin.
             apply list_elem_of_fmap in Hin as [e [He Hin]].
             specialize (Hns e Hin). set_solver. }
           split.
           { constructor; [exact Hseen|].
             eapply Forall_impl; [exact Hns|]. simpl. intros e He. set_solver. }
           { constructor.
             - unfold owner. simpl. rewrite Hid. intros id' [= <-].
               right. right. simpl. left.
             - eapply Forall_impl; [exact Hall|]. simpl.
               intros r Hr id' Hown. destruct (Hr id' Hown) as [Hin|[Hnone|Hin]].
               + apply elem_of_union in Hin as [Hin|Hin]; [left; exact Hin|].
                 apply elem_of_singleton in Hin as ->. right. right. left.
               + right. left. exact Hnone.
               + right. right. right. exact Hin. }
        -- destruct IH as [-> Hex]. split; [reflexivity|right; exact Hex].
      * specialize (IH (seen ∪ {[id]}) acc).
        destruct (collect_sources db rs (seen ∪ {[id]}) acc) as [out|e].
        -- destruct IH as [new [picked [-> [Hsub [Hb [Hf [Hnd [Hns Hall]]]]]]]].
           exists new, picked. repeat split; auto.
           ++ apply sublist_cons. exact Hsub.
           ++ eapply (Hfirst (seen ∪ {[id]})); eauto. set_solver.
           ++ eapply Forall_impl; [exact Hns|]. simpl. intros e He. set_solver.
           ++ constructor.
              ** unfold owner. simpl. rewrite Hid. intros id' [= <-].
                 right. left. exact Hitem.
              ** eapply Forall_impl; [exact Hall|]. simpl.
                 intros r Hr id' Hown. destruct (Hr id' Hown) as [Hin|[Hnone|Hin]].
                 --- apply elem_of_union in Hin as [Hin|Hin]; [left; exact Hin|].
                     apply elem_of_singleton in Hin as ->. right. left. exact Hitem.
                 --- right. left. exact Hnone.
                 --- right. right. exact Hin.
        -- destruct IH as [-> Hex]. split; [reflexivity|right; exact Hex].
Qed.

Lemma generate_answer_db env question context_chunks w :
  db (snd (generate_answer env question context_chunks w)) = db w.
Proof.
  unfold generate_answer. destruct (rag_client w) as [n|]; [|reflexivity].
  destruct (chat_completions_create env n question context_chunks); reflexivity.
Qed.

(** The sources [query] returns are those its loop collects from the search
    results, in the store as it was before the call. *)
Lemma query_sources env question max_results w :
  match query env question max_results w with
  | (Ok (answer, sources), _) =>
      exists search_results,
        fst (VectorStore.search (service env) question max_results (vector_store w))
        = Ok search_results
        /\ collect_sources (db w) search_results ∅ [] = Ok sources
  | (Raise _, _) => True
  end.
Proof.
  unfold query, bind at 1, on_vector_store.
  destruct (VectorStore.search (service env) question max_results (vector_store w))
    as [[rs|e] v] eqn:Hsearch; [|exact I].
  destruct rs as [|r rs].
  - unfold ret. exists []. split; reflexivity.
  - unfold bind at 1.
    match goal with |- context [generate_answer env question ?c ?w0] =>
      pose proof (generate_answer_db env question c w0) as Hdb;
      destruct (generate_answer env question c w0) as [[answer|e] w1] end; [|exact I].
    simpl in Hdb. unfold bind, get, lift, ret. rewrite Hdb.
    destruct (collect_sources (db w) (r :: rs) ∅ []) as [sources|e] eqn:Hc; [|exact I].
    exists (r :: rs). split; [reflexivity|exact Hc].
Qed.

Lemma collect_sources_deduplicated db rs :
  match collect_sources db rs ∅ [] with
  | Ok sources =>
      deduplicated db rs sources
      /\ (descending (map snd rs) -> descending (map relevance_score sources))
  | Raise e => e = KeyError "item_id" /\ Exists (fun r => owner r = None) rs
  end.
Proof.
  pose proof (collect_sources_spec db rs ∅ []) as H.
  destruct (collect_sources db rs ∅ []) as [sources|e]; [|exact H].
  destruct H as [new [picked [-> [Hsub [Hb [Hf [Hnd [_ Hall]]]]]]]]. simpl.
  split; [split; [exact Hnd|split]|].
  - exists picked. auto.
  - eapply Forall_impl; [exact Hall|]. simpl. intros r Hr id Hown.
    destruct (Hr id Hown) as [Hin|[Hnone|Hin]]; [set_solver|auto|auto].
  - apply descending_sublist.
    assert (Hscores : map relevance_score new = map snd picked).
    { clear -Hb. induction Hb as [|r e picked new [_ [_ [Hscore _]]] Hb IH]; [reflexivity|].
      simpl. rewrite Hscore, IH. reflexivity. }
    rewrite Hscores. apply (fmap_sublist snd). exact Hsub.
Qed.

(** C6: the sources of [query] hold at most one entry per owning item. Each
    entry is built from the first search result of its item, the entries stand
    in the order of the search results, so non-increasing scores stay
    non-increasing, and an item is without entry only when the store does not
    have it. The loop alone behaves so on every list of search results whose
    metadata names an item; on any other it raises [KeyError]. *)
Theorem query_sources_deduplicated (env : Env) (question : str) (max_results : Z)
    (w : Globals.t) :
  (forall db rs,
     match collect_sources db rs ∅ [] with
     | Ok sources =>
         deduplicated db rs sources
         /\ (descending (map snd rs) -> descending (map relevance_score sources))
     | Raise e => e = KeyError "item_id" /\ Exists (fun r => owner r = None) rs
     end)
  /\ match query env question max_results w with
     | (Ok (answer, sources), _) =>
         exists search_results,
           fst (VectorStore.search (service env) question max_results (vector_store w))
           = Ok search_results
           /\ deduplicated (db w) search_results sources
           /\ (descending (map snd search_results) ->
               descending (map relevance_score sources))
     | (Raise _, _) => True
     end.
Proof.
  split; [apply collect_sources_deduplicated|].
  pose proof (query_sources env question max_results w) as H.
  destruct (query env question max_results w) as [[[answer sources]|e] w']; [|exact I].
  destruct H as [rs [Hsearch Hc]]. exists rs. split; [exact Hsearch|].
  pose proof (collect_sources_deduplicated (db w) rs) as Hd. rewrite Hc in Hd. exact Hd.
Qed.

(** C9 as the code has it: run on a store that holds one note of 201
    characters, [query] returns one source whose content has 203 characters,
    the first 200 of the note and the three of the marker. *)
Lemma query_content_exceeds_200 :
  match Ingestion.process_content Examples.env 1 Examples.long_note (lit "note")
          Examples.fresh with
  | Some (Ok _, w) =>
      match query Examples.env (lit "what?") 5 w with
      | (Ok (_, [entry]), _) =>
          len (content entry) = 203 /\ (len (content entry) <=? 200) = false
      | _ => False
      end
  | _ => False
  end.
Proof. vm_compute. split; reflexivity. Qed.

(** C9, amended: every source of [query] is built from one of the search
    results: it carries the item identifier of the result's metadata, the
    source type and the URL of that item in the store, the score of the
    result, and as content the chunk text itself when that has at most 200
    characters, else its first 200 characters followed by the marker "...",
    203 characters in all. *)
Theorem query_source_entries (env : Env) (question : str) (max_results : Z)
    (w : Globals.t) :
  (forall text : str,
     (len text <= 200 -> snippet text = text)
     /\ (200 < len text ->
         snippet text = take 200 text ++ lit "..." /\ len (snippet text) = 203))
  /\ match query env question max_results w with
     | (Ok (answer, sources), _) =>
         exists search_results,
           fst (VectorStore.search (service env) question max_results (vector_store w))
           = Ok search_results
           /\ Forall (fun entry =>
                        exists r, r ∈ search_results /\ built_from (db w) r entry)
                     sources
     | (Raise _, _) => True
     end.
Proof.
  split.
  - intros text. split; [apply snippet_short|apply snippet_long].
  - pose proof (query_sources env question max_results w) as H.
    destruct (query env question max_results w) as [[[answer sources]|e] w']; [|exact I].
    destruct H as [rs [Hsearch Hc]]. exists rs. split; [exact Hsearch|].
    pose proof (collect_sources_spec (db w) rs ∅ []) as Hs. rewrite Hc in Hs.
    destruct Hs as [new [picked [Hout [Hsub [Hb _]]]]]. simpl in Hout. subst new.
    clear -Hsub Hb. apply Forall_forall. intros entry Hin.
    apply list_elem_of_lookup in Hin as [i Hi].
    destruct (Forall2_lookup_r _ _ _ _ _ Hb Hi) as [r [Hr Hbuilt]].
    exists r. split; [|exact Hbuilt].
    apply (sublist_subseteq _ _ Hsub). apply list_elem_of_lookup. eauto.
Qed.

Lemma query_source_entries_witness :
  snippet Examples.long_note = take 200 Examples.long_note ++ lit "..."
  /\ len (snippet Examples.long_note) = 203.
Proof.
  destruct (query_source_entries Examples.env (lit "what?") 5 Examples.fresh) as [Hs _].
  apply Hs. vm_compute. reflexivity.
Defined.

Lemma query_sources_deduplicated_witness :
  match collect_sources Examples.one_item Examples.two_hits ∅ [] with
  | Ok sources =>
      map item_id sources = [1] /\ descending (map relevance_score sources)
  | Raise _ => False
  end.
Proof.
  destruct (query_sources_deduplicated Examples.env (lit "what?") 5 Examples.fresh)
    as [Hloop _].
  specialize (Hloop Examples.one_item Examples.two_hits).
  destruct (collect_sources Examples.one_item Examples.two_hits ∅ []) as [sources|e] eqn:Hc.
  - split.
    + vm_compute in Hc. injection Hc as <-. reflexivity.
    + apply Hloop. repeat constructor.
  - vm_compute in Hc. discriminate.
Defined.

End RAGPipelineFacts.

(** ** Validation and ingestion *)

Module IngestionFacts.
Import Py Globals ContentIngestion Ingestion.
Local Open Scope Z_scope.

Lemma strip_nil : strip [] = [].
Proof. reflexivity. Qed.

(** C10: a note passes [validate_note] exactly when it is not empty after
    stripping white space and has at most 50,000 characters; on a note that
    does not pass, [process_content] raises [ValueError] and the store and the
    vector index are what they were. *)
Theorem rejected_note_has_no_effect (env : Env) (content source_type : str) :
  (fst (validate_note content) = true <-> strip content <> [] /\ len content <= 50000)
  /\ (source_type <> lit "url" ->
      fst (validate_note content) = false ->
      forall fuel w,
        exists msg,
          process_content env fuel content source_type w = Some (Raise (ValueError msg), w)).
Proof.
  split.
  - unfold validate_note.
    destruct (bool_decide (content = [])) eqn:Hempty; simpl.
    + apply bool_decide_eq_true in Hempty. subst content.
      split; [discriminate|]. intros [Hs _]. destruct (Hs strip_nil).
    + destruct (bool_decide (strip content = [])) eqn:Hblank; simpl.
      * apply bool_decide_eq_true in Hblank.
        split; [discriminate|]. intros [Hs _]. contradiction.
      * apply bool_decide_eq_false in Hblank.
        destruct (Z.gtb_spec (len content) 50000); simpl.
        -- split; [discriminate|lia].
        -- split; [auto|reflexivity].
  - intros Hnote Hinvalid fuel w. unfold process_content.
    case_bool_decide; [contradiction|].
    destruct (validate_note content) as [is_valid error]. simpl in Hinvalid. subst is_valid.
    eexists. reflexivity.
Qed.

Lemma rejected_note_has_no_effect_witness :
  exists msg,
    process_content Examples.env 1 (lit "   ") (lit "note") Examples.fresh
    = Some (Raise (ValueError msg), Examples.fresh).
Proof.
  destruct (rejected_note_has_no_effect Examples.env (lit "   ") (lit "note")) as [_ H].
  apply H.
  - vm_compute. discriminate.
  - vm_compute. reflexivity.
Defined.

End IngestionFacts.

(** ** [list.sort] and [ORDER BY] on integer keys *)

Module SortFacts.
Import Py.
Local Open Scope Z_scope.

Section ByKey.
Context {A : Type} (key : A -> Z).

Lemma elem_of_insert_key (x y : A) sorted :
  y ∈ insert (key_lt key) x sorted <-> y = x \/ y ∈ sorted.
Proof.
  induction sorted as [|z sorted IH]; simpl.
  - rewrite list_elem_of_singleton, elem_of_nil. tauto.
  - destruct (key_lt key x z); [apply elem_of_cons|].
    rewrite !elem_of_cons, IH. tauto.
Qed.

Lemma insert_key_Permutation (x : A) sorted : insert (key_lt key) x sorted ≡ₚ x :: sorted.
Proof.
  induction sorted as [|z sorted IH]; simpl; [reflexivity|].
  destruct (key_lt key x z); [reflexivity|].
  rewrite IH. apply Permutation_swap.
Qed.

Lemma insert_key_sorted (x : A) sorted :
  StronglySorted (key_le key) sorted -> StronglySorted (key_le key) (insert (key_lt key) x sorted).
Proof.
  induction sorted as [|z sorted IH]; intros Hs; simpl.
  - repeat constructor.
  - apply StronglySorted_inv in Hs as [Hs Hall]. unfold key_lt at 1.
    destruct (Z.ltb_spec (key x) (key z)) as [Hlt|Hge].
    + constructor; [constructor; assumption|].
      constructor; [unfold key_le; lia|].
      eapply Forall_impl; [exact Hall|]. unfold key_le. simpl. intros; lia.
    + constructor; [apply IH; exact Hs|].
      apply Forall_forall. intros y Hy. apply elem_of_insert_key in Hy as [->|Hy].
      * exact Hge.
      * rewrite Forall_forall in Hall. apply Hall. exact Hy.
Qed.

Lemma sort_from_key (todo : list A) :
  forall sorted,
    StronglySorted (key_le key) sorted ->
    StronglySorted (key_le key) (fold_left (fun sorted x => insert (key_lt key) x sorted) todo sorted)
    /\ fold_left (fun sorted x => insert (key_lt key) x sorted) todo sorted ≡ₚ sorted ++ todo.
Proof.
  induction todo as [|x todo IH]; intros sorted Hs; simpl.
  - rewrite app_nil_r. auto.
  - destruct (IH (insert (key_lt key) x sorted) (insert_key_sorted x sorted Hs)) as [H1 H2].
    split; [exact H1|]. rewrite H2, insert_key_Permutation. simpl.
    apply Permutation_middle.
Qed.

(** The sort puts the keys in non-decreasing order and keeps every element. *)
Lemma sort_key_sorted (l : list A) :
  StronglySorted (key_le key) (sort (key_lt key) l) /\ sort (key_lt key) l ≡ₚ l.
Proof. apply (sort_from_key l []). constructor. Qed.

Lemma insert_key_last (x : A) sorted :
  Forall (fun y => key_le key y x) sorted -> insert (key_lt key) x sorted = sorted ++ [x].
Proof.
  induction sorted as [|z sorted IH]; intros Hall; simpl; [reflexivity|].
  apply Forall_cons in Hall as [Hz Hall]. unfold key_lt at 1.
  destruct (Z.ltb_spec (key x) (key z)) as [Hlt|Hge]; [unfold key_le in Hz; lia|].
  rewrite IH by exact Hall. reflexivity.
Qed.

Lemma sort_from_sorted (todo : list A) :
  forall sorted,
    StronglySorted (key_le key) (sorted ++ todo) ->
    fold_left (fun sorted x => insert (key_lt key) x sorted) todo sorted = sorted ++ todo.
Proof.
  induction todo as [|x todo IH]; intros sorted Hs; simpl.
  - rewrite app_nil_r. reflexivity.
  - rewrite insert_key_last.
    + rewrite IH; rewrite <- app_assoc; [reflexivity|exact Hs].
    + apply StronglySorted_app in Hs as [Hcross _].
      apply Forall_forall. intros y Hy. apply Hcross; [exact Hy|left].
Qed.

(** A list whose keys are already in order is left as it is. *)
Lemma sort_key_sorted_id (l : list A) : StronglySorted (key_le key) l -> sort (key_lt key) l = l.
Proof. intros Hs. apply (sort_from_sorted l []). exact Hs. Qed.

End ByKey.

Lemma StronglySorted_lt_le {A} (key : A -> Z) (l : list A) :
  StronglySorted Z.lt (map key l) -> StronglySorted (key_le key) l.
Proof.
  induction l as [|x l IH]; simpl; intros Hs; [constructor|].
  apply StronglySorted_inv in Hs as [Hs Hall]. constructor; [auto|].
  apply Forall_forall. intros y Hy. rewrite Forall_forall in Hall.
  assert (key x < key y); [|unfold key_le; lia]. apply Hall. apply list_elem_of_fmap. eauto.
Qed.

End SortFacts.

(** ** The relational store *)

Module DatabaseFacts.
Import Py Database.
Local Open Scope Z_scope.

Lemma get_all_chunks_rows db :
  get_all_chunks db = rows_of (items db) (sort (key_lt chunk_id_) (chunks db)).
Proof. reflexivity. Qed.

Lemma sorted_snoc {A} (key : A -> Z) (l : list A) (x : A) :
  StronglySorted Z.lt (map key l) -> Forall (fun y => key y < key x) l ->
  StronglySorted Z.lt (map key (l ++ [x])).
Proof.
  intros Hs Hall. rewrite map_app. apply StronglySorted_app_2; [|exact Hs|repeat constructor].
  intros a b Ha Hb. simpl in Hb. apply list_elem_of_singleton in Hb as ->.
  apply list_elem_of_fmap in Ha as [y [-> Hy]]. rewrite Forall_forall in Hall. auto.
Qed.

Lemma sorted_filter {A} (key : A -> Z) (P : A -> Prop) `{forall x, Decision (P x)}
    (l : list A) :
  StronglySorted Z.lt (map key l) -> StronglySorted Z.lt (map key (filter P l)).
Proof.
  induction l as [|x l IH]; simpl; intros Hs; [constructor|].
  apply StronglySorted_inv in Hs as [Hs Hall]. rewrite filter_cons.
  destruct (decide (P x)); [|auto]. simpl. constructor; [auto|].
  apply Forall_forall. intros k Hk. rewrite Forall_forall in Hall. apply Hall.
  apply list_elem_of_fmap in Hk as [y [-> Hy]]. apply list_elem_of_filter in Hy as [_ Hy].
  apply list_elem_of_fmap. eauto.
Qed.

Lemma wf_empty : wf empty.
Proof. repeat split; constructor. Qed.

Lemma wf_insert_item content source_type url db :
  wf db -> wf (snd (insert_item content source_type url db)).
Proof.
  intros (Hi & Hib & Hc & Hcb & Hci). unfold insert_item.
  destruct (str_eqb source_type (lit "note") || str_eqb source_type (lit "url"));
    [|repeat split; assumption].
  cbn [snd items chunks items_seq chunks_seq]. repeat split; try assumption.
  - apply sorted_snoc; [exact Hi|]. eapply Forall_impl; [exact Hib|]. simpl. intros; lia.
  - apply Forall_app. split; [|repeat constructor; simpl; lia].
    eapply Forall_impl; [exact Hib|]. simpl. intros; lia.
  - eapply Forall_impl; [exact Hci|]. simpl. intros; lia.
Qed.

Lemma wf_insert_chunk item_id chunk_text chunk_index db :
  wf db -> item_id <= items_seq db ->
  wf (snd (insert_chunk item_id chunk_text chunk_index db)).
Proof.
  intros (Hi & Hib & Hc & Hcb & Hci) Hid. unfold insert_chunk.
  cbn [snd items chunks items_seq chunks_seq]. repeat split; try assumption.
  - apply sorted_snoc; [exact Hc|]. eapply Forall_impl; [exact Hcb|]. simpl. intros; lia.
  - apply Forall_app. split; [|repeat constructor; simpl; lia].
    eapply Forall_impl; [exact Hcb|]. simpl. intros; lia.
  - apply Forall_app. split; [exact Hci|repeat constructor; exact Hid].
Qed.

Lemma wf_delete_item foreign_keys item_id db :
  wf db -> wf (snd (delete_item foreign_keys item_id db)).
Proof.
  intros (Hi & Hib & Hc & Hcb & Hci). unfold delete_item.
  cbn [snd items chunks items_seq chunks_seq]. repeat split.
  - apply sorted_filter. exact Hi.
  - apply Forall_forall. intros i Hin. apply list_elem_of_filter in Hin as [_ Hin].
    rewrite Forall_forall in Hib. auto.
  - destruct foreign_keys; [apply sorted_filter|]; exact Hc.
  - destruct foreign_keys; [|exact Hcb].
    apply Forall_forall. intros c Hin. apply list_elem_of_filter in Hin as [_ Hin].
    rewrite Forall_forall in Hcb. auto.
  - destruct foreign_keys; [|exact Hci].
    apply Forall_forall. intros c Hin. apply list_elem_of_filter in Hin as [_ Hin].
    rewrite Forall_forall in Hci. auto.
Qed.

Lemma find_item_app id (l1 l2 : list item_row) :
  find (fun i => item_id_ i =? id) (l1 ++ l2)
  = match find (fun i => item_id_ i =? id) l1 with
    | Some i => Some i
    | None => find (fun i => item_id_ i =? id) l2
    end.
Proof.
  induction l1 as [|x l1 IH]; simpl; [reflexivity|].
  destruct (item_id_ x =? id); [reflexivity|exact IH].
Qed.

Lemma find_item_above id s (l : list item_row) :
  Forall (fun i => item_id_ i <= s) l -> s < id ->
  find (fun i => item_id_ i =? id) l = None.
Proof.
  intros Hall Hs. induction Hall as [|x l Hx Hall IH]; simpl; [reflexivity|].
  destruct (Z.eqb_spec (item_id_ x) id); [lia|exact IH].
Qed.

Lemma elem_of_rows_of (items : list item_row) (cs : list chunk_row) (r : joined_row) :
  r ∈ rows_of items cs
  <-> exists c i, c ∈ cs /\ i ∈ items /\ item_id_ i = chunk_item_id c /\ r = joined c i.
Proof.
  unfold rows_of. rewrite list_elem_of_In, in_flat_map. split.
  - intros [c [Hc Hr]]. apply in_map_iff in Hr as [i [<- Hi]].
    apply list_elem_of_In, list_elem_of_filter in Hi as [Hid Hi].
    exists c, i. rewrite list_elem_of_In. auto.
  - intros [c [i [Hc [Hi [Hid ->]]]]]. exists c. split; [apply list_elem_of_In; exact Hc|].
    apply in_map. apply list_elem_of_In, list_elem_of_filter. auto.
Qed.

Lemma rows_of_sorted (items : list item_row) (cs : list chunk_row) :
  StronglySorted (key_le chunk_id_) cs -> StronglySorted (key_le j_id) (rows_of items cs).
Proof.
  induction cs as [|c cs IH]; intros Hs; [constructor|].
  apply StronglySorted_inv in Hs as [Hs Hall].
  change (rows_of items (c :: cs))
    with (map (joined c) (filter (fun i => item_id_ i = chunk_item_id c) items)
          ++ rows_of items cs).
  apply StronglySorted_app_2; [|clear; generalize (filter (fun i => item_id_ i = chunk_item_id c) items)
                                |apply IH; exact Hs].
  - intros a b Ha Hb. apply list_elem_of_fmap in Ha as [i [-> _]].
    apply elem_of_rows_of in Hb as [c' [i' [Hc' [_ [_ ->]]]]].
    rewrite Forall_forall in Hall. apply (Hall c' Hc').
  - intros l. induction l as [|i l IHl]; simpl; [constructor|].
    constructor; [exact IHl|]. apply Forall_forall. intros b Hb.
    apply list_elem_of_fmap in Hb as [i' [-> _]]. unfold key_le. simpl. lia.
Qed.

Lemma rows_of_new_item (items : list item_row) (cs : list chunk_row) (new : item_row) :
  Forall (fun c => chunk_item_id c <> item_id_ new) cs ->
  rows_of (items ++ [new]) cs = rows_of items cs.
Proof.
  intros Hall. induction Hall as [|c cs Hc Hall IH]; [reflexivity|].
  unfold rows_of in *. simpl. rewrite IH, filter_app.
  rewrite (filter_cons_False _ new []) by (simpl; congruence).
  rewrite filter_nil, app_nil_r. reflexivity.
Qed.

Lemma rows_of_app (items : list item_row) (cs1 cs2 : list chunk_row) :
  rows_of items (cs1 ++ cs2) = rows_of items cs1 ++ rows_of items cs2.
Proof. unfold rows_of. apply flat_map_app. Qed.

(** On a well-formed store the rows of [get_all_chunks] are those of the
    table, in table order. *)
Lemma get_all_chunks_wf db :
  wf db -> get_all_chunks db = rows_of (items db) (chunks db).
Proof.
  intros (_ & _ & Hc & _). rewrite get_all_chunks_rows.
  rewrite SortFacts.sort_key_sorted_id; [reflexivity|].
  apply SortFacts.StronglySorted_lt_le. exact Hc.
Qed.

(** X1: the ids of [insert_item] are new and the row can be read back. On a
    well-formed store an insertion with the source type 'note' or 'url'
    returns the id after the last one given out, which no row had; afterwards
    [get_item_by_id] returns the inserted row for that id and what it returned
    before for every other id, and [get_all_chunks] is unchanged. *)
Theorem insert_item_then_lookup (content source_type : str) (url : option str) (db : t) :
  wf db ->
  source_type = lit "note" \/ source_type = lit "url" ->
  exists db',
    insert_item content source_type url db = (Ok (items_seq db + 1), db')
    /\ get_item_by_id (items_seq db + 1) db = None
    /\ get_item_by_id (items_seq db + 1) db'
       = Some {| item_id_ := items_seq db + 1; item_content := content;
                 item_source_type := source_type; item_url := url |}
    /\ (forall id, id <> items_seq db + 1 ->
          get_item_by_id id db' = get_item_by_id id db)
    /\ get_all_chunks db' = get_all_chunks db
    /\ wf db'.
Proof.
  intros Hwf Hst.
  pose proof (wf_insert_item content source_type url db Hwf) as Hwf'.
  destruct Hwf as (Hi & Hib & Hc & Hcb & Hci).
  unfold insert_item in *.
  assert (Hok : str_eqb source_type (lit "note") || str_eqb source_type (lit "url") = true).
  { unfold str_eqb. destruct Hst as [-> | ->].
    - rewrite bool_decide_eq_true_2 by reflexivity. reflexivity.
    - rewrite (bool_decide_eq_true_2 (lit "url" = lit "url")) by reflexivity.
      apply orb_true_r. }
  rewrite Hok in *. eexists. split; [reflexivity|].
  assert (Hfresh : get_item_by_id (items_seq db + 1) db = None).
  { unfold get_item_by_id. eapply find_item_above; [exact Hib|lia]. }
  split; [exact Hfresh|]. unfold get_item_by_id in *. cbn [items snd] in *.
  split; [|split; [|split; [|exact Hwf']]].
  - rewrite find_item_app, Hfresh. simpl. rewrite Z.eqb_refl. reflexivity.
  - intros id Hid. rewrite find_item_app.
    destruct (find (fun i => item_id_ i =? id) (items db)); [reflexivity|].
    simpl. destruct (Z.eqb_spec (items_seq db + 1) id); [congruence|reflexivity].
  - rewrite !get_all_chunks_rows. cbn [items chunks].
    apply rows_of_new_item. simpl.
    destruct (SortFacts.sort_key_sorted chunk_id_ (chunks db)) as [_ Hp].
    rewrite Hp. eapply Forall_impl; [exact Hci|]. simpl. intros; lia.
Qed.

Lemma insert_item_then_lookup_witness :
  get_item_by_id 1 (snd (insert_item (lit "sky") (lit "note") None empty))
  = Some {| item_id_ := 1; item_content := lit "sky";
            item_source_type := lit "note"; item_url := None |}.
Proof.
  destruct (insert_item_then_lookup (lit "sky") (lit "note") None empty wf_empty
              (or_introl eq_refl)) as [db' [Hins [_ [Hget _]]]].
  rewrite Hins. exact Hget.
Defined.

(** X2: [get_all_chunks] returns, by ascending chunk id, one row for every
    chunk of the table whose item is in the table, and nothing else: a chunk
    without its item is left out. *)
Theorem get_all_chunks_joined (db : t) :
  StronglySorted (key_le j_id) (get_all_chunks db)
  /\ (forall r, r ∈ get_all_chunks db
       <-> exists c i, c ∈ chunks db /\ i ∈ items db
                       /\ item_id_ i = chunk_item_id c /\ r = joined c i).
Proof.
  rewrite get_all_chunks_rows.
  destruct (SortFacts.sort_key_sorted chunk_id_ (chunks db)) as [Hs Hp].
  split; [apply rows_of_sorted; exact Hs|].
  intros r. rewrite elem_of_rows_of. split.
  - intros [c [i [Hc H]]]. exists c, i. rewrite <- Hp. auto.
  - intros [c [i [Hc H]]]. exists c, i. rewrite Hp. auto.
Qed.

Lemma find_item_deleted id (l : list item_row) :
  find (fun i => item_id_ i =? id) (filter (fun i => item_id_ i <> id) l) = None.
Proof.
  induction l as [|x l IH]; [reflexivity|]. rewrite filter_cons.
  destruct (decide (item_id_ x <> id)) as [Hne|_]; [|exact IH].
  simpl. destruct (Z.eqb_spec (item_id_ x) id); [contradiction|exact IH].
Qed.

Lemma find_item_other id id' (l : list item_row) :
  id' <> id ->
  find (fun i => item_id_ i =? id') (filter (fun i => item_id_ i <> id) l)
  = find (fun i => item_id_ i =? id') l.
Proof.
  intros Hne. induction l as [|x l IH]; [reflexivity|]. rewrite filter_cons.
  destruct (decide (item_id_ x <> id)) as [Hx|Hx]; simpl.
  - destruct (item_id_ x =? id'); [reflexivity|exact IH].
  - destruct (Z.eqb_spec (item_id_ x) id') as [Heq|_]; [|exact IH].
    exfalso. apply Hx. congruence.
Qed.

Lemma existsb_find_item id (l : list item_row) :
  existsb (fun i => item_id_ i =? id) l
  = match find (fun i => item_id_ i =? id) l with Some _ => true | None => false end.
Proof.
  induction l as [|x l IH]; [reflexivity|]. simpl.
  destruct (item_id_ x =? id); [reflexivity|exact IH].
Qed.

Lemma filter_item_other id cid (l : list item_row) :
  cid <> id ->
  filter (fun i => item_id_ i = cid) (filter (fun i => item_id_ i <> id) l)
  = filter (fun i => item_id_ i = cid) l.
Proof.
  intros Hne. induction l as [|x l IH]; [reflexivity|]. rewrite (filter_cons _ x l).
  destruct (decide (item_id_ x <> id)) as [Hx|Hx].
  - rewrite !(filter_cons (fun i => item_id_ i = cid)), IH. reflexivity.
  - rewrite IH. rewrite (filter_cons_False (fun i => item_id_ i = cid) x l); [reflexivity|].
    intros Heq. apply Hx. congruence.
Qed.

Lemma filter_item_same id (l : list item_row) :
  filter (fun i => item_id_ i = id) (filter (fun i => item_id_ i <> id) l) = [].
Proof.
  induction l as [|x l IH]; [reflexivity|]. rewrite (filter_cons _ x l).
  destruct (decide (item_id_ x <> id)) as [Hx|Hx]; [|exact IH].
  rewrite filter_cons_False by exact Hx. exact IH.
Qed.

Lemma filter_joined id (c : chunk_row) (l : list item_row) :
  filter (fun r => j_item_id r <> id) (map (joined c) l)
  = if decide (chunk_item_id c <> id) then map (joined c) l else [].
Proof.
  induction l as [|i l IH]; simpl; [destruct (decide _); reflexivity|].
  rewrite filter_cons, IH. simpl.
  destruct (decide (chunk_item_id c <> id)); reflexivity.
Qed.

Lemma rows_of_delete_items id (items : list item_row) (cs : list chunk_row) :
  rows_of (filter (fun i => item_id_ i <> id) items) cs
  = filter (fun r => j_item_id r <> id) (rows_of items cs).
Proof.
  induction cs as [|c cs IH]; [reflexivity|].
  change (rows_of ?its (c :: cs))
    with (map (joined c) (filter (fun i => item_id_ i = chunk_item_id c) its)
          ++ rows_of its cs).
  rewrite filter_app, IH, filter_joined.
  destruct (decide (chunk_item_id c <> id)) as [Hne|Heq].
  - rewrite filter_item_other by exact Hne. reflexivity.
  - apply dec_stable in Heq. rewrite Heq, filter_item_same. reflexivity.
Qed.

Lemma rows_of_delete_chunks id (items : list item_row) (cs : list chunk_row) :
  rows_of (filter (fun i => item_id_ i <> id) items)
          (filter (fun c => chunk_item_id c <> id) cs)
  = rows_of (filter (fun i => item_id_ i <> id) items) cs.
Proof.
  induction cs as [|c cs IH]; [reflexivity|]. rewrite filter_cons.
  change (rows_of ?its (c :: ?l))
    with (map (joined c) (filter (fun i => item_id_ i = chunk_item_id c) its)
          ++ rows_of its l).
  destruct (decide (chunk_item_id c <> id)) as [Hne|Heq].
  - change (rows_of ?its (c :: ?l))
      with (map (joined c) (filter (fun i => item_id_ i = chunk_item_id c) its)
            ++ rows_of its l).
    rewrite IH. reflexivity.
  - apply dec_stable in Heq. rewrite IH, Heq, filter_item_same. reflexivity.
Qed.

(** X3: [delete_item] says whether the item was there and removes it for every
    reader, whether or not the library cascades. On a well-formed store it
    returns [True] exactly when [get_item_by_id] found the item; afterwards
    [get_item_by_id] finds nothing for that id and is unchanged for every
    other id, [get_all_chunks] returns the rows it returned before without
    those of the item, and the sequence is unchanged, so the id is not given
    out again. *)
Theorem delete_item_removes (foreign_keys : bool) (item_id : Z) (db : t) :
  wf db ->
  exists db',
    delete_item foreign_keys item_id db
    = (Ok (match get_item_by_id item_id db with Some _ => true | None => false end), db')
    /\ get_item_by_id item_id db' = None
    /\ (forall id, id <> item_id -> get_item_by_id id db' = get_item_by_id id db)
    /\ get_all_chunks db'
       = filter (fun r => j_item_id r <> item_id) (get_all_chunks db)
    /\ items_seq db' = items_seq db
    /\ wf db'.
Proof.
  intros Hwf. pose proof (wf_delete_item foreign_keys item_id db Hwf) as Hwf'.
  unfold delete_item in *. eexists. split.
  { rewrite existsb_find_item. reflexivity. }
  cbn [snd] in Hwf'. unfold get_item_by_id. cbn [items].
  split; [apply find_item_deleted|].
  split; [intros id Hid; apply find_item_other; exact Hid|].
  split; [|split; [reflexivity|exact Hwf']].
  rewrite (get_all_chunks_wf _ Hwf'), (get_all_chunks_wf _ Hwf). cbn [items chunks].
  destruct foreign_keys.
  - rewrite rows_of_delete_chunks. apply rows_of_delete_items.
  - apply rows_of_delete_items.
Qed.

Lemma delete_item_removes_witness :
  get_item_by_id 1
    (snd (delete_item false 1 (snd (insert_item (lit "sky") (lit "note") None empty))))
  = None.
Proof.
  destruct (delete_item_removes false 1
              (snd (insert_item (lit "sky") (lit "note") None empty))
              (wf_insert_item _ _ _ _ wf_empty)) as [db' [Hdel [Hget _]]].
  rewrite Hdel. exact Hget.
Defined.

End DatabaseFacts.

(** ** Ingestion: the loop that stores the chunks *)

Module StoreFacts.
Import Py Database VectorStore Globals ContentIngestion Ingestion.
Import ChunkerFacts DatabaseFacts.
Local Open Scope Z_scope.

Lemma for_each_app {S X} (xs ys : list X) (body : X -> M S unit) (s : S) :
  for_each (xs ++ ys) body s
  = match for_each xs body s with
    | (Ok _, s') => for_each ys body s'
    | (Raise e, s') => (Raise e, s')
    end.
Proof.
  revert s. induction xs as [|x xs IH]; intros s; simpl; [reflexivity|].
  unfold bind. destruct (body x s) as [[[]|e] s']; [apply IH|reflexivity].
Qed.

Lemma length_chunk_rows item_id last_id index texts :
  length (chunk_rows item_id last_id index texts) = length texts.
Proof.
  revert last_id index. induction texts as [|t texts IH]; intros; simpl; [reflexivity|].
  rewrite IH. reflexivity.
Qed.

Lemma chunk_rows_app item_id last_id index (xs ys : list str) :
  chunk_rows item_id last_id index (xs ++ ys)
  = chunk_rows item_id last_id index xs
    ++ chunk_rows item_id (last_id + len xs) (index + length xs) ys.
Proof.
  revert last_id index. induction xs as [|x xs IH]; intros; simpl.
  - unfold len. simpl. rewrite Z.add_0_r, Nat.add_0_r. reflexivity.
  - rewrite IH. unfold len. simpl length. do 3 f_equal; lia.
Qed.

Lemma take_chunk_rows item_id last_id index (j : nat) (texts : list str) :
  take j (chunk_rows item_id last_id index texts)
  = chunk_rows item_id last_id index (take j texts).
Proof.
  revert last_id index j. induction texts as [|t texts IH]; intros last_id index [|j];
    simpl; try reflexivity.
  rewrite IH. reflexivity.
Qed.

Lemma chunk_rows_item item_id last_id index texts :
  Forall (fun c => chunk_item_id c = item_id) (chunk_rows item_id last_id index texts).
Proof.
  revert last_id index. induction texts as [|t texts IH]; intros; simpl; constructor; auto.
Qed.

Lemma chunk_rows_texts item_id last_id index texts :
  map chunk_text_ (chunk_rows item_id last_id index texts) = texts.
Proof.
  revert last_id index. induction texts as [|t texts IH]; intros; simpl; [reflexivity|].
  rewrite IH. reflexivity.
Qed.

Lemma chunk_rows_indices item_id last_id index texts :
  map chunk_index_ (chunk_rows item_id last_id index texts)
  = map Z.of_nat (seq index (length texts)).
Proof.
  revert last_id index. induction texts as [|t texts IH]; intros; simpl; [reflexivity|].
  rewrite IH. reflexivity.
Qed.

Lemma chunk_rows_by_index item_id last_id index texts :
  StronglySorted (key_le chunk_index_) (chunk_rows item_id last_id index texts).
Proof.
  revert last_id index. induction texts as [|t texts IH]; intros; simpl; constructor.
  - apply IH.
  - apply Forall_forall. intros c Hc.
    assert (Hin : chunk_index_ c ∈ map chunk_index_ (chunk_rows item_id (last_id + 1) (S index) texts)).
    { apply list_elem_of_fmap. eauto. }
    rewrite chunk_rows_indices in Hin. apply list_elem_of_fmap in Hin as (i & Heq & Hi).
    apply elem_of_seq in Hi. unfold key_le. simpl. lia.
Qed.

(** The rows of the loop keep the store well formed. *)
Lemma wf_chunk_rows item_id (texts : list str) :
  forall (index : nat) (d : Database.t),
    wf d -> item_id <= items_seq d ->
    wf {| items := items d;
          Database.chunks :=
            Database.chunks d ++ chunk_rows item_id (chunks_seq d) index texts;
          items_seq := items_seq d;
          chunks_seq := chunks_seq d + len texts |}.
Proof.
  induction texts as [|t texts IH]; intros index d Hwf Hid.
  - unfold len. simpl. rewrite app_nil_r, Z.add_0_r. destruct d. exact Hwf.
  - pose proof (wf_insert_chunk item_id t (Z.of_nat index) d Hwf Hid) as Hwf1.
    specialize (IH (S index) _ Hwf1 Hid).
    unfold insert_chunk in IH. cbn [snd items Database.chunks items_seq chunks_seq] in IH.
    rewrite <- app_assoc in IH. cbn [chunk_rows]. cbn [app] in IH.
    unfold len in *. cbn [length].
    replace (chunks_seq d + Z.of_nat (S (length texts)))
      with (chunks_seq d + 1 + Z.of_nat (length texts)) by lia.
    exact IH.
Qed.

Lemma filter_item_new (new : item_row) (l : list item_row) s :
  Forall (fun i => item_id_ i <= s) l -> s < item_id_ new ->
  filter (fun i => item_id_ i = item_id_ new) (l ++ [new]) = [new].
Proof.
  intros Hall Hs. rewrite filter_app.
  rewrite (filter_cons_True _ new []) by reflexivity. rewrite filter_nil.
  replace (filter (fun i => item_id_ i = item_id_ new) l) with (@nil item_row); [reflexivity|].
  symmetry. induction Hall as [|i l Hi Hall IH]; [reflexivity|].
  rewrite filter_cons_False by (simpl; lia). exact IH.
Qed.

Lemma rows_of_own_item (new : item_row) (l : list item_row) s (cs : list chunk_row) :
  Forall (fun i => item_id_ i <= s) l -> s < item_id_ new ->
  Forall (fun c => chunk_item_id c = item_id_ new) cs ->
  rows_of (l ++ [new]) cs = map (fun c => joined c new) cs.
Proof.
  intros Hall Hs Hcs. induction Hcs as [|c cs Hc Hcs IH]; [reflexivity|].
  unfold rows_of in *. simpl. rewrite IH, Hc.
  rewrite (filter_item_new new l s Hall Hs). reflexivity.
Qed.

Lemma combine_seq_app (k : nat) (xs ys : list str) :
  combine (seq k (length (xs ++ ys))) (xs ++ ys)
  = combine (seq k (length xs)) xs ++ combine (seq (k + length xs) (length ys)) ys.
Proof.
  revert k. induction xs as [|x xs IH]; intros k; simpl.
  - rewrite Nat.add_0_r. reflexivity.
  - rewrite IH. replace (k + S (length xs))%nat with (S k + length xs)%nat by lia.
    reflexivity.
Qed.

(** One turn of the loop when the service answers. *)
Lemma store_chunk_ok env item_id (i : nat) (text : str) (w : t) (n : nat) e :
  VectorStore.client (vector_store w) = Some n ->
  VectorStore.embeddings_create (service env) n text = Some e ->
  (let* chunk_id := on_db (Database.insert_chunk item_id text (Z.of_nat i)) in
   let chunk_metadata := VectorStore.metadata_of chunk_id item_id (Z.of_nat i) in
   on_vector_store (VectorStore.add_chunk (service env) text chunk_metadata))%py w
  = (Ok tt,
     {| db := snd (Database.insert_chunk item_id text (Z.of_nat i) (db w));
        vector_store :=
          {| VectorStore.embeddings := VectorStore.embeddings (vector_store w) ++ [e];
             VectorStore.chunks :=
               VectorStore.chunks (vector_store w)
               ++ [{| VectorStore.text := text;
                      VectorStore.metadata_ :=
                        VectorStore.metadata_of (Database.chunks_seq (db w) + 1) item_id
                                                (Z.of_nat i) |}];
             VectorStore.client := Some (S n) |};
        rag_client := rag_client w |}).
Proof.
  intros Hc He. unfold bind, on_db, on_vector_store, Database.insert_chunk. simpl.
  unfold VectorStore.add_chunk, bind, VectorStore.generate_embedding. simpl.
  rewrite Hc, He. reflexivity.
Qed.

Lemma store_loop_ok env item_id (texts : list str) :
  forall (k : nat) (es : list VectorStore.embedding) (w : t) (n : nat),
    VectorStore.client (vector_store w) = Some n ->
    length es = length texts ->
    (forall i text e, texts !! i = Some text -> es !! i = Some e ->
       VectorStore.embeddings_create (service env) (n + i) text = Some e) ->
    for_each (combine (seq k (length texts)) texts) (fun '(i, chunk_text) =>
      (let* chunk_id := on_db (Database.insert_chunk item_id chunk_text (Z.of_nat i)) in
       let chunk_metadata := VectorStore.metadata_of chunk_id item_id (Z.of_nat i) in
       on_vector_store (VectorStore.add_chunk (service env) chunk_text chunk_metadata))%py) w
    = (Ok tt,
       {| db :=
            {| Database.items := Database.items (db w);
               Database.chunks :=
                 Database.chunks (db w)
                 ++ chunk_rows item_id (Database.chunks_seq (db w)) k texts;
               Database.items_seq := Database.items_seq (db w);
               Database.chunks_seq := Database.chunks_seq (db w) + len texts |};
          vector_store :=
            {| VectorStore.embeddings := VectorStore.embeddings (vector_store w) ++ es;
               VectorStore.chunks :=
                 VectorStore.chunks (vector_store w)
                 ++ map record_of_row
                      (chunk_rows item_id (Database.chunks_seq (db w)) k texts);
               VectorStore.client := Some (n + length texts)%nat |};
          rag_client := rag_client w |}).
Proof.
  induction texts as [|text texts IH]; intros k es w n Hc Hlen Hsvc.
  - destruct es; [|discriminate]. destruct w as [[] [] ?]. simpl in *.
    unfold ret, len. simpl. rewrite !app_nil_r, Z.add_0_r, Nat.add_0_r, Hc. reflexivity.
  - destruct es as [|e es]; [discriminate|]. injection Hlen as Hlen.
    cbn [length seq combine for_each]. unfold bind at 1.
    pose proof (store_chunk_ok env item_id k text w n e Hc) as Hstep.
    cbv zeta in Hstep. cbv beta iota zeta. rewrite Hstep.
    2:{ specialize (Hsvc 0%nat text e eq_refl eq_refl). rewrite Nat.add_0_r in Hsvc. exact Hsvc. }
    rewrite (IH (S k) es _ (S n)); [|reflexivity|exact Hlen|].
    2:{ intros i t' e' Ht He. specialize (Hsvc (S i) t' e' Ht He).
        rewrite <- Hsvc. f_equal. lia. }
    cbn [db vector_store rag_client Database.insert_chunk snd Database.items
         Database.chunks Database.items_seq Database.chunks_seq
         VectorStore.embeddings VectorStore.chunks VectorStore.client
         chunk_rows map].
    unfold len. cbn [length]. rewrite <- !app_assoc. cbn [app].
    replace (Database.chunks_seq (db w) + 1 + Z.of_nat (length texts))
      with (Database.chunks_seq (db w) + Z.of_nat (S (length texts))) by lia.
    replace (S n + length texts)%nat with (n + S (length texts))%nat by lia.
    reflexivity.
Qed.

Lemma store_loop_service_fails env item_id (pre : list str) (text : str) (post : list str)
    (k : nat) (es : list VectorStore.embedding) (w : t) (n : nat) :
  VectorStore.client (vector_store w) = Some n ->
  length es = length pre ->
  (forall i text e, pre !! i = Some text -> es !! i = Some e ->
     VectorStore.embeddings_create (service env) (n + i) text = Some e) ->
  VectorStore.embeddings_create (service env) (n + length pre) text = None ->
  for_each (combine (seq k (length (pre ++ text :: post))) (pre ++ text :: post))
    (fun '(i, chunk_text) =>
      (let* chunk_id := on_db (Database.insert_chunk item_id chunk_text (Z.of_nat i)) in
       let chunk_metadata := VectorStore.metadata_of chunk_id item_id (Z.of_nat i) in
       on_vector_store (VectorStore.add_chunk (service env) chunk_text chunk_metadata))%py) w
  = (Raise ServiceError,
     {| db :=
          {| Database.items := Database.items (db w);
             Database.chunks :=
               Database.chunks (db w)
               ++ chunk_rows item_id (Database.chunks_seq (db w)) k (pre ++ [text]);
             Database.items_seq := Database.items_seq (db w);
             Database.chunks_seq := Database.chunks_seq (db w) + len (pre ++ [text]) |};
        vector_store :=
          {| VectorStore.embeddings := VectorStore.embeddings (vector_store w) ++ es;
             VectorStore.chunks :=
               VectorStore.chunks (vector_store w)
               ++ map record_of_row
                    (chunk_rows item_id (Database.chunks_seq (db w)) k pre);
             VectorStore.client := Some (n + length pre + 1)%nat |};
        rag_client := rag_client w |}).
Proof.
  intros Hc Hlen Hsvc Hfail.
  rewrite combine_seq_app, for_each_app.
  rewrite (store_loop_ok env item_id pre k es w n Hc Hlen Hsvc).
  cbn [length seq combine for_each]. unfold bind at 1. cbv beta iota zeta.
  unfold bind, on_db, on_vector_store, Database.insert_chunk. 
  cbn [db vector_store rag_client snd fst].
  unfold VectorStore.add_chunk, bind, VectorStore.generate_embedding.
  cbn [VectorStore.client]. rewrite Hfail.
  cbn [db vector_store rag_client snd fst VectorStore.set_client
       VectorStore.embeddings VectorStore.chunks VectorStore.client
       Database.items Database.chunks Database.items_seq Database.chunks_seq].
  rewrite chunk_rows_app. cbn [chunk_rows]. rewrite <- app_assoc.
  unfold len. rewrite length_app. cbn [length].
  replace (Database.chunks_seq (db w) + Z.of_nat (length pre) + 1)
    with (Database.chunks_seq (db w) + Z.of_nat (length pre + 1)) by lia.
  replace (S (n + length pre)) with (n + length pre + 1)%nat by lia.
  replace (Z.of_nat (k + length pre)) with (Z.of_nat (k + length pre)%nat) by reflexivity.
  reflexivity.
Qed.

Lemma store_loop_unconfigured env item_id (text : str) (post : list str) (w : t) :
  VectorStore.client (vector_store w) = None ->
  for_each (enumerate (text :: post))
    (fun '(i, chunk_text) =>
      (let* chunk_id := on_db (Database.insert_chunk item_id chunk_text (Z.of_nat i)) in
       let chunk_metadata := VectorStore.metadata_of chunk_id item_id (Z.of_nat i) in
       on_vector_store (VectorStore.add_chunk (service env) chunk_text chunk_metadata))%py) w
  = (Raise (ValueError "Azure OpenAI client not configured"),
     {| db := with_rows item_id [text] (db w);
        vector_store := vector_store w;
        rag_client := rag_client w |}).
Proof.
  intros Hc. unfold enumerate. cbn [length seq combine for_each].
  unfold bind at 1. cbv beta iota zeta.
  unfold bind, on_db, on_vector_store, Database.insert_chunk.
  cbn [db vector_store rag_client snd fst].
  unfold VectorStore.add_chunk, bind, VectorStore.generate_embedding.
  rewrite Hc. reflexivity.
Qed.

(** One turn of the loop, whatever the service does: the row is written; the
    index gains the entry of the row, or the turn raises and the index lists
    are as before. *)
Lemma store_chunk_cases env item_id (i : nat) (text : str) (w : t) :
  let r :=
    (let* chunk_id := on_db (insert_chunk item_id text (Z.of_nat i)) in
     on_vector_store
       (add_chunk (service env) text (metadata_of chunk_id item_id (Z.of_nat i))))%py w in
  db (snd r) = snd (insert_chunk item_id text (Z.of_nat i) (db w))
  /\ rag_client (snd r) = rag_client w
  /\ ((fst r = Ok tt
       /\ exists e,
            embeddings (vector_store (snd r)) = embeddings (vector_store w) ++ [e]
            /\ VectorStore.chunks (vector_store (snd r))
               = VectorStore.chunks (vector_store w)
                 ++ [{| text := text;
                        metadata_ := metadata_of (chunks_seq (db w) + 1) item_id
                                                 (Z.of_nat i) |}])
      \/ (exists x, fst r = Raise x)
         /\ embeddings (vector_store (snd r)) = embeddings (vector_store w)
         /\ VectorStore.chunks (vector_store (snd r)) = VectorStore.chunks (vector_store w)).
Proof.
  unfold bind, on_db, on_vector_store, insert_chunk. cbn [db vector_store rag_client snd fst].
  unfold add_chunk, bind, generate_embedding.
  destruct (client (vector_store w)) as [n|]; cbn.
  - destruct (embeddings_create (service env) n text) as [e|]; cbn.
    + split; [reflexivity|]. split; [reflexivity|]. left. split; [reflexivity|].
      exists e. split; reflexivity.
    + split; [reflexivity|]. split; [reflexivity|]. right. split; [eauto|]. split; reflexivity.
  - split; [reflexivity|]. split; [reflexivity|]. right. split; [eauto|]. split; reflexivity.
Qed.

Lemma store_loop_inv env item_id (texts : list str) :
  forall (k : nat) (w : t) r w',
    for_each (combine (seq k (length texts)) texts) (fun '(i, chunk_text) =>
      (let* chunk_id := on_db (insert_chunk item_id chunk_text (Z.of_nat i)) in
       let chunk_metadata := metadata_of chunk_id item_id (Z.of_nat i) in
       on_vector_store (add_chunk (service env) chunk_text chunk_metadata))%py) w
    = (r, w') ->
    exists (j : nat) (es : list embedding),
      db w'
      = {| items := items (db w);
           Database.chunks :=
             Database.chunks (db w) ++ chunk_rows item_id (chunks_seq (db w)) k (take j texts);
           items_seq := items_seq (db w);
           chunks_seq := chunks_seq (db w) + Z.of_nat j |}
      /\ embeddings (vector_store w') = embeddings (vector_store w) ++ es
      /\ VectorStore.chunks (vector_store w')
         = VectorStore.chunks (vector_store w)
           ++ map record_of_row
                (chunk_rows item_id (chunks_seq (db w)) k (take (length es) texts))
      /\ rag_client w' = rag_client w
      /\ match r with
         | Ok _ => j = length texts /\ length es = length texts
         | Raise _ => j = S (length es) /\ (j <= length texts)%nat
         end.
Proof.
  induction texts as [|text texts IH]; intros k w r w' Hrun.
  - injection Hrun as <- <-. exists 0%nat, []. cbn. rewrite !app_nil_r, Z.add_0_r.
    destruct w as [[] ? ?]. repeat split; reflexivity.
  - cbn [length seq combine for_each] in Hrun. unfold bind at 1 in Hrun.
    cbv beta iota zeta in Hrun.
    pose proof (store_chunk_cases env item_id k text w) as Hstep. cbv zeta in Hstep.
    destruct ((let* chunk_id := on_db (insert_chunk item_id text (Z.of_nat k)) in
               on_vector_store
                 (add_chunk (service env) text
                    (metadata_of chunk_id item_id (Z.of_nat k))))%py w) as [r1 w1].
    cbn [fst snd] in Hstep.
    destruct Hstep as (Hdb & Hrag & [[-> (e & He & Hch)]|[[x ->] [He Hch]]]).
    + destruct (IH (S k) w1 r w' Hrun) as (j & es & Hdb' & He' & Hch' & Hrag' & Hres).
      exists (S j), (e :: es). rewrite Hdb', He', Hch', Hrag', Hdb, He, Hch, Hrag.
      unfold insert_chunk. cbn [snd items Database.chunks items_seq chunks_seq length take
                                 chunk_rows map].
      rewrite <- !app_assoc. cbn [app].
      split; [f_equal; lia|]. split; [reflexivity|]. split; [reflexivity|].
      split; [reflexivity|].
      destruct r; lia.
    + injection Hrun as <- <-. exists 1%nat, []. rewrite Hdb, He, Hch, Hrag.
      unfold insert_chunk. cbn. rewrite !app_nil_r. repeat split; try reflexivity; lia.
Qed.

Lemma count_starts_bounds n step :
  0 < step -> 0 < n -> (1 <= count_starts n step)%nat /\ Z.of_nat (count_starts n step) <= n.
Proof.
  intros Hstep Hn. pose proof (count_starts_spec n step Hstep Hn) as [Hlo Hhi].
  split; [destruct (count_starts n step); [lia|lia]|nia].
Qed.

(** With an overlap below the chunk size the chunker returns, after at most
    one turn per word, and returns at least one chunk. *)
Lemma chunk_text_returns (text : str) (chunk_size overlap : Z) (fuel : nat) :
  0 <= overlap < chunk_size ->
  (length (split text) <= fuel)%nat ->
  exists c cs, chunk_text fuel text chunk_size overlap = Some (c :: cs).
Proof.
  intros Hov Hfuel. unfold chunk_text.
  destruct (Z.leb_spec (len (split text)) chunk_size) as [|Hlong]; [eauto|].
  set (words := split text) in *. set (step := chunk_size - overlap).
  assert (Hstep : 0 < step) by (unfold step; lia).
  assert (Hn : 0 < len words) by lia.
  pose proof (count_starts_spec (len words) step Hstep Hn) as Hm.
  pose proof (count_starts_bounds (len words) step Hstep Hn) as [Hm1 Hm2].
  pose proof (chunk_loop_windows words chunk_size overlap (count_starts (len words) step)
                Hstep Hm fuel 0%nat) as Hrun.
  change (Z.of_nat 0 * (chunk_size - overlap)) with 0 in Hrun.
  change (map (window words chunk_size) (starts (chunk_size - overlap) 0)) with (@nil str) in Hrun.
  assert (Hm3 : Z.of_nat (count_starts (len words) step) <= Z.of_nat (length words))
    by exact Hm2.
  rewrite Hrun; [|lia|lia].
  destruct (count_starts (len words) step) as [|m]; [lia|].
  unfold starts. simpl. eauto.
Qed.

End StoreFacts.

(** ** [process_content]: what it stores, and what it leaves behind when it
    fails *)

Module ProcessContentFacts.
Import Py Database VectorStore Globals ContentIngestion Ingestion.
Import ChunkerFacts DatabaseFacts VectorStoreFacts StoreFacts.
Local Open Scope Z_scope.

Lemma process_content_accepted env fuel content source_type final url w :
  accepted env content source_type final url ->
  process_content env fuel content source_type w
  = match chunk_text fuel final 500 50 with
    | None => None
    | Some chunks =>
        Some ((store_chunks env (items_seq (db w) + 1) chunks ;;; ret (items_seq (db w) + 1))%py
                {| db := snd (insert_item final source_type url (db w));
                   vector_store := vector_store w; rag_client := rag_client w |})
    end.
Proof.
  intros [(-> & Hv & -> & ->)|(-> & Hx & -> & ->)]; unfold process_content.
  - rewrite bool_decide_eq_false_2 by (vm_compute; discriminate).
    destruct (validate_note content) as [is_valid error]. simpl in Hv. subst is_valid.
    reflexivity.
  - rewrite bool_decide_eq_true_2 by reflexivity.
    destruct (extract_url_content env content) as [[success extracted] error].
    simpl in Hx. subst success. reflexivity.
Qed.

Lemma insert_item_accepted env content source_type final url (d : Database.t) :
  accepted env content source_type final url ->
  insert_item final source_type url d
  = (Ok (items_seq d + 1),
     {| items := items d ++ [{| item_id_ := items_seq d + 1; item_content := final;
                                item_source_type := source_type; item_url := url |}];
        Database.chunks := Database.chunks d;
        items_seq := items_seq d + 1;
        chunks_seq := chunks_seq d |}).
Proof.
  intros [(-> & _)|(-> & _)]; reflexivity.
Qed.

(** The [CHECK] constraint: an item of another source type is not stored. *)
Lemma insert_item_rejected (content source_type : str) (url : option str) (w : t) :
  source_type <> lit "note" -> source_type <> lit "url" ->
  on_db (insert_item content source_type url) w = (Raise IntegrityError, w).
Proof.
  intros Hnote Hurl. unfold on_db, insert_item, str_eqb.
  rewrite !bool_decide_eq_false_2 by assumption.
  destruct w; reflexivity.
Qed.

(** The two ways [process_content] ends: it rejects the input and leaves the
    world as it was, or it stores the item and runs the loop. *)
Lemma process_content_inv env fuel (content source_type : str) (w : t) r w' :
  process_content env fuel content source_type w = Some (r, w') ->
  (w' = w /\ exists e, r = Raise e)
  \/ exists final url chunks r0,
       accepted env content source_type final url
       /\ chunk_text fuel final 500 50 = Some chunks
       /\ store_chunks env (items_seq (db w) + 1) chunks
            {| db := snd (insert_item final source_type url (db w));
               vector_store := vector_store w; rag_client := rag_client w |}
          = (r0, w')
       /\ r = match r0 with Ok _ => Ok (items_seq (db w) + 1) | Raise e => Raise e end.
Proof.
  intros Hrun.
  assert (Hcases :
    (exists final url, accepted env content source_type final url)
    \/ exists e, process_content env fuel content source_type w = Some (Raise e, w)).
  { destruct (decide (source_type = lit "url")) as [->|Hurl].
    - destruct (extract_url_content env content) as [[success extracted] error] eqn:Hx.
      destruct success.
      + left. exists extracted, (Some content). right. rewrite Hx. auto.
      + right. unfold process_content. rewrite bool_decide_eq_true_2 by reflexivity.
        rewrite Hx. eauto.
    - destruct (decide (source_type = lit "note")) as [->|Hnote].
      + destruct (validate_note content) as [is_valid error] eqn:Hv. destruct is_valid.
        * left. exists content, None. left. rewrite Hv. auto.
        * right. unfold process_content. rewrite bool_decide_eq_false_2 by exact Hurl.
          rewrite Hv. eauto.
      + right. unfold process_content. rewrite bool_decide_eq_false_2 by exact Hurl.
        destruct (validate_note content) as [[] error]; [|eauto].
        rewrite insert_item_rejected by assumption. eauto. }
  destruct Hcases as [(final & url & Hacc)|[e He]].
  - right. rewrite (process_content_accepted env fuel content source_type final url w Hacc) in Hrun.
    destruct (chunk_text fuel final 500 50) as [chunks|] eqn:Hchunks; [|discriminate].
    injection Hrun as Hrun. unfold bind in Hrun.
    destruct (store_chunks env (items_seq (db w) + 1) chunks _) as [r0 w0] eqn:Hloop.
    exists final, url, chunks, r0. split; [exact Hacc|]. split; [exact Hchunks|].
    destruct r0; injection Hrun as <- <-; auto.
  - left. rewrite He in Hrun. injection Hrun as <- <-. eauto.
Qed.

(** The store after an accepted input and the rows of its chunks. *)
Lemma ingested_rows env content source_type final url (d : Database.t) (texts : list str) :
  accepted env content source_type final url ->
  wf d ->
  let item_id := items_seq d + 1 in
  let item := {| item_id_ := item_id; item_content := final;
                 item_source_type := source_type; item_url := url |} in
  let rows := chunk_rows item_id (chunks_seq d) 0 texts in
  let d' := {| items := items d ++ [item];
               Database.chunks := Database.chunks d ++ rows;
               items_seq := item_id;
               chunks_seq := chunks_seq d + len texts |} in
  wf d'
  /\ get_item_by_id item_id d' = Some item
  /\ get_chunks_by_item_id item_id d' = rows
  /\ get_all_chunks d' = get_all_chunks d ++ map (fun c => joined c item) rows.
Proof.
  intros Hacc Hwf item_id item rows d'.
  pose proof (wf_insert_item final source_type url d Hwf) as Hwf1.
  rewrite (insert_item_accepted env content source_type final url d Hacc) in Hwf1.
  cbn [snd] in Hwf1.
  pose proof (wf_chunk_rows item_id texts 0 _ Hwf1 ltac:(simpl; lia)) as Hwf2.
  cbn [items Database.chunks items_seq chunks_seq] in Hwf2. fold item_id item rows d' in Hwf2.
  destruct Hwf as (Hi & Hib & Hc & Hcb & Hci).
  split; [exact Hwf2|]. split; [|split].
  - unfold get_item_by_id, d'. cbn [items]. rewrite find_item_app.
    rewrite (find_item_above item_id (items_seq d)); [|exact Hib|unfold item_id; lia].
    simpl. rewrite Z.eqb_refl. reflexivity.
  - unfold get_chunks_by_item_id, d'. cbn [Database.chunks]. rewrite filter_app.
    replace (filter (fun c => chunk_item_id c = item_id) (Database.chunks d))
      with (@nil chunk_row).
    2:{ symmetry. clear -Hci. induction Hci as [|c l Hc Hci IH]; [reflexivity|].
        rewrite filter_cons_False by (unfold item_id; simpl; lia). exact IH. }
    cbn [app].
    replace (filter (fun c => chunk_item_id c = item_id) rows) with rows.
    2:{ symmetry. pose proof (chunk_rows_item item_id (chunks_seq d) 0 texts) as Hall.
        fold rows in Hall. clearbody rows. clear -Hall.
        induction Hall as [|c l Hc Hall IH]; [reflexivity|].
        rewrite filter_cons_True by exact Hc. rewrite IH. reflexivity. }
    apply (SortFacts.sort_key_sorted_id chunk_index_). apply chunk_rows_by_index.
  - rewrite (get_all_chunks_wf d' Hwf2), (get_all_chunks_wf d (conj Hi (conj Hib (conj Hc (conj Hcb Hci))))).
    unfold d'. cbn [items Database.chunks]. rewrite rows_of_app. f_equal.
    + apply rows_of_new_item. eapply Forall_impl; [exact Hci|].
      intros c Hle. simpl in *. unfold item_id. lia.
    + apply (rows_of_own_item item (items d) (items_seq d)); [exact Hib|simpl; unfold item_id; lia|].
      apply chunk_rows_item.
Qed.

(** X4: an accepted input is stored whole when the service answers. When
    [process_content] accepts the input (a valid note, or a url whose page was
    extracted), the client is configured and the fuel covers one turn of the
    chunker loop per word, the chunker returns at least one chunk; and when
    the service answers every request of the loop, [process_content] returns
    the id after the last one given out, the store holds the new item and one
    new row per chunk, numbered from 0 in chunk order, and the index holds one
    new entry per row, in the same order, with the embedding the service
    answered, after one request per chunk. *)
Theorem process_content_stores env fuel (content source_type final : str)
    (url : option str) (w : t) (n : nat) :
  accepted env content source_type final url ->
  client (vector_store w) = Some n ->
  (length (split final) <= fuel)%nat ->
  exists chunks,
    chunk_text fuel final 500 50 = Some chunks /\ chunks <> []
    /\ forall es,
         length es = length chunks ->
         (forall i text e, chunks !! i = Some text -> es !! i = Some e ->
            embeddings_create (service env) (n + i) text = Some e) ->
         let item_id := items_seq (db w) + 1 in
         process_content env fuel content source_type w
         = Some (Ok item_id,
                 {| db := with_rows item_id chunks
                            (snd (insert_item final source_type url (db w)));
                    vector_store :=
                      with_entries (chunk_rows item_id (chunks_seq (db w)) 0 chunks) es
                                   (length chunks) (vector_store w);
                    rag_client := rag_client w |}).
Proof.
  intros Hacc Hc Hfuel.
  destruct (chunk_text_returns final 500 50 fuel ltac:(lia) Hfuel) as (c & cs & Hchunks).
  exists (c :: cs). split; [exact Hchunks|]. split; [discriminate|].
  intros es Hlen Hsvc item_id.
  rewrite (process_content_accepted env fuel content source_type final url w Hacc), Hchunks.
  unfold store_chunks, enumerate. unfold bind at 1.
  pose proof (store_loop_ok env (items_seq (db w) + 1) (c :: cs) 0 es
                {| db := snd (insert_item final source_type url (db w));
                   vector_store := vector_store w; rag_client := rag_client w |}
                n Hc Hlen Hsvc) as Hloop.
  cbv zeta in Hloop. cbv zeta. rewrite Hloop.
  unfold ret, with_rows, with_entries.
  assert (Hseq : chunks_seq (snd (insert_item final source_type url (db w))) = chunks_seq (db w)).
  { unfold insert_item. destruct (_ || _); reflexivity. }
  cbn [db vector_store rag_client]. rewrite Hseq, Hc. reflexivity.
Qed.

Lemma process_content_stores_witness :
  process_content Examples.env 1 (lit "sky") (lit "note") Examples.fresh
  = Some (Ok 1, Examples.after_note).
Proof.
  destruct (process_content_stores Examples.env 1 (lit "sky") (lit "note") (lit "sky") None
              Examples.fresh 0)
    as (chunks & Hchunks & _ & Hrun).
  - left. repeat split; reflexivity.
  - reflexivity.
  - vm_compute. lia.
  - vm_compute in Hchunks. injection Hchunks as <-.
    apply (Hrun [[1%float]]); [reflexivity|].
    intros i text e _ He. destruct i as [|[|i]]; [|discriminate|discriminate].
    injection He as <-. reflexivity.
Defined.

(** X5: [process_content] is not atomic when the service fails. When the
    input is accepted, the chunker returns the chunks [pre ++ text :: post],
    and the service answers the requests for [pre] and fails the request for
    [text], [process_content] raises the error of the service and returns no
    id, but the store keeps the new item and the rows of [pre] and of [text],
    and the index keeps the entries of [pre] only: the row of [text] has no
    entry, and the chunks of [post] are nowhere. *)
Theorem process_content_service_failure env fuel (content source_type final : str)
    (url : option str) (w : t) (n : nat) (pre : list str) (text : str) (post : list str)
    (es : list embedding) :
  accepted env content source_type final url ->
  client (vector_store w) = Some n ->
  chunk_text fuel final 500 50 = Some (pre ++ text :: post) ->
  length es = length pre ->
  (forall i text e, pre !! i = Some text -> es !! i = Some e ->
     embeddings_create (service env) (n + i) text = Some e) ->
  embeddings_create (service env) (n + length pre) text = None ->
  let item_id := items_seq (db w) + 1 in
  process_content env fuel content source_type w
  = Some (Raise ServiceError,
          {| db := with_rows item_id (pre ++ [text])
                     (snd (insert_item final source_type url (db w)));
             vector_store :=
               with_entries (chunk_rows item_id (chunks_seq (db w)) 0 pre) es
                            (length pre + 1) (vector_store w);
             rag_client := rag_client w |}).
Proof.
  intros Hacc Hc Hchunks Hlen Hsvc Hfail item_id.
  rewrite (process_content_accepted env fuel content source_type final url w Hacc), Hchunks.
  unfold store_chunks, enumerate. unfold bind at 1.
  pose proof (store_loop_service_fails env (items_seq (db w) + 1) pre text post 0 es
                {| db := snd (insert_item final source_type url (db w));
                   vector_store := vector_store w; rag_client := rag_client w |}
                n Hc Hlen Hsvc Hfail) as Hloop.
  cbv zeta in Hloop. cbv zeta. rewrite Hloop.
  unfold with_rows, with_entries.
  assert (Hseq : chunks_seq (snd (insert_item final source_type url (db w))) = chunks_seq (db w)).
  { unfold insert_item. destruct (_ || _); reflexivity. }
  cbn [db vector_store rag_client]. rewrite Hseq, Hc.
  replace (n + length pre + 1)%nat with (n + (length pre + 1))%nat by lia.
  reflexivity.
Qed.

Lemma process_content_service_failure_witness :
  process_content Examples.down_env 1 (lit "sky") (lit "note") Examples.fresh
  = Some (Raise ServiceError,
          {| db := Examples.sky_db;
             vector_store := {| embeddings := []; VectorStore.chunks := [];
                                client := Some 1%nat |};
             rag_client := Some 0%nat |}).
Proof.
  apply (process_content_service_failure Examples.down_env 1 (lit "sky") (lit "note")
           (lit "sky") None Examples.fresh 0 [] (lit "sky") [] []).
  - left. repeat split; reflexivity.
  - reflexivity.
  - reflexivity.
  - reflexivity.
  - intros i text e Ht. discriminate.
  - reflexivity.
Defined.

(** X6: without credentials an accepted input still reaches the store. When
    the client of the index is not configured, [process_content] raises
    [ValueError] ("Azure OpenAI client not configured") at the first chunk:
    the store keeps the new item and the row of the first chunk, the index is
    unchanged. *)
Theorem process_content_unconfigured env fuel (content source_type final : str)
    (url : option str) (w : t) :
  accepted env content source_type final url ->
  client (vector_store w) = None ->
  (length (split final) <= fuel)%nat ->
  exists chunk rest,
    chunk_text fuel final 500 50 = Some (chunk :: rest)
    /\ process_content env fuel content source_type w
       = Some (Raise (ValueError "Azure OpenAI client not configured"),
               {| db := with_rows (items_seq (db w) + 1) [chunk]
                          (snd (insert_item final source_type url (db w)));
                  vector_store := vector_store w;
                  rag_client := rag_client w |}).
Proof.
  intros Hacc Hc Hfuel.
  destruct (chunk_text_returns final 500 50 fuel ltac:(lia) Hfuel) as (c & cs & Hchunks).
  exists c, cs. split; [exact Hchunks|].
  rewrite (process_content_accepted env fuel content source_type final url w Hacc), Hchunks.
  unfold store_chunks. unfold bind at 1.
  pose proof (store_loop_unconfigured env (items_seq (db w) + 1) c cs
                {| db := snd (insert_item final source_type url (db w));
                   vector_store := vector_store w; rag_client := rag_client w |} Hc) as Hloop.
  cbv zeta in Hloop. cbv zeta. rewrite Hloop. reflexivity.
Qed.

Lemma process_content_unconfigured_witness :
  process_content Examples.env 1 (lit "sky") (lit "note") Examples.offline
  = Some (Raise (ValueError "Azure OpenAI client not configured"),
          {| db := Examples.sky_db;
             vector_store := VectorStore.init false;
             rag_client := None |}).
Proof.
  destruct (process_content_unconfigured Examples.env 1 (lit "sky") (lit "note") (lit "sky")
              None Examples.offline)
    as (chunk & rest & Hchunks & Hrun).
  - left. repeat split; reflexivity.
  - reflexivity.
  - vm_compute. lia.
  - vm_compute in Hchunks. injection Hchunks as <- <-. exact Hrun.
Defined.

(** X7: a source type other than 'note' and 'url' is never stored. Such an
    input is checked as a note: when the note is not valid [process_content]
    raises the [ValueError] of the note, and when it is valid the [CHECK]
    constraint of the table rejects the item with [IntegrityError]; in both
    cases the store and the index are what they were. *)
Theorem process_content_other_source_type env fuel (content source_type : str) (w : t) :
  source_type <> lit "note" -> source_type <> lit "url" ->
  process_content env fuel content source_type w
  = Some (Raise (if fst (validate_note content) then IntegrityError
                 else ValueError ("Invalid note content: "
                                  ++ message (snd (validate_note content)))), w).
Proof.
  intros Hnote Hurl. unfold process_content.
  rewrite bool_decide_eq_false_2 by exact Hurl.
  destruct (validate_note content) as [[] error]; [|reflexivity].
  rewrite insert_item_rejected by assumption. reflexivity.
Qed.

Lemma process_content_other_source_type_witness :
  process_content Examples.env 1 (lit "sky") (lit "pdf") Examples.fresh
  = Some (Raise IntegrityError, Examples.fresh).
Proof.
  apply (process_content_other_source_type Examples.env 1 (lit "sky") (lit "pdf")
           Examples.fresh).
  - intros H. vm_compute in H. discriminate.
  - intros H. vm_compute in H. discriminate.
Defined.

(** X8: whatever the outcome, [process_content] only appends. The rows of
    the items and chunks tables and the two lists of the index are those from
    before followed by new ones, and the client of the pipeline is untouched.
    When it returns an id, that id is the one of the single new item, every
    new row belongs to it, and there are as many new index entries as new
    rows. When it raises, either nothing was added, or one item was added and
    the store has exactly one new row more than the index has new entries. In
    every case the new index entries are those of the first new rows. *)
Theorem process_content_only_appends env fuel (content source_type : str) (w : t) r w' :
  process_content env fuel content source_type w = Some (r, w') ->
  exists new_items new_rows es,
    items (db w') = items (db w) ++ new_items
    /\ Database.chunks (db w') = Database.chunks (db w) ++ new_rows
    /\ embeddings (vector_store w') = embeddings (vector_store w) ++ es
    /\ VectorStore.chunks (vector_store w')
       = VectorStore.chunks (vector_store w) ++ map record_of_row (take (length es) new_rows)
    /\ rag_client w' = rag_client w
    /\ match r with
       | Ok item_id =>
           item_id = items_seq (db w) + 1
           /\ map item_id_ new_items = [item_id]
           /\ Forall (fun c => chunk_item_id c = item_id) new_rows
           /\ length new_rows = length es
       | Raise _ =>
           (new_items = [] /\ new_rows = [] /\ es = [])
           \/ (length new_items = 1%nat /\ length new_rows = S (length es))
       end.
Proof.
  intros Hrun. apply process_content_inv in Hrun
    as [[-> [e ->]]|(final & url & chunks & r0 & Hacc & Hchunks & Hloop & ->)].
  - exists [], [], []. simpl. rewrite !app_nil_r. repeat split; auto.
  - unfold store_chunks, enumerate in Hloop.
    apply store_loop_inv in Hloop as (j & es & Hdb & He & Hch & Hrag & Hres).
    rewrite (insert_item_accepted env content source_type final url _ Hacc) in Hdb, Hch.
    cbn [db vector_store rag_client snd items Database.chunks items_seq chunks_seq]
      in Hdb, He, Hch, Hrag.
    eexists [_], (chunk_rows (items_seq (db w) + 1) (chunks_seq (db w)) 0 (take j chunks)), es.
    rewrite Hdb, He, Hch, Hrag. cbn [items Database.chunks].
    split; [reflexivity|]. split; [reflexivity|]. split; [reflexivity|].
    split.
    { rewrite take_chunk_rows, take_take. do 3 f_equal.
      destruct r0; destruct Hres; f_equal; lia. }
    split; [reflexivity|].
    destruct r0 as [[]|x].
    + destruct Hres as [-> Hes]. split; [reflexivity|]. split; [reflexivity|].
      split; [apply chunk_rows_item|].
      rewrite length_chunk_rows, firstn_all. congruence.
    + right. split; [reflexivity|]. rewrite length_chunk_rows, length_take. lia.
Qed.

Lemma process_content_only_appends_witness :
  exists new_items new_rows es,
    items (db Examples.after_note) = items (db Examples.fresh) ++ new_items
    /\ Database.chunks (db Examples.after_note)
       = Database.chunks (db Examples.fresh) ++ new_rows
    /\ embeddings (vector_store Examples.after_note)
       = embeddings (vector_store Examples.fresh) ++ es
    /\ VectorStore.chunks (vector_store Examples.after_note)
       = VectorStore.chunks (vector_store Examples.fresh)
         ++ map record_of_row (take (length es) new_rows)
    /\ rag_client Examples.after_note = rag_client Examples.fresh
    /\ 1 = items_seq (db Examples.fresh) + 1
    /\ map item_id_ new_items = [1]
    /\ Forall (fun c => chunk_item_id c = 1) new_rows
    /\ length new_rows = length es.
Proof.
  apply (process_content_only_appends Examples.env 1 (lit "sky") (lit "note")
           Examples.fresh (Ok 1) Examples.after_note).
  reflexivity.
Defined.

(** X9: what was ingested can be read back. On a well-formed store, when
    [process_content] returns an id, [get_item_by_id] returns for it the item
    with the stored content, the source type and the url; and
    [get_chunks_by_item_id] returns the chunks of the chunker, in their
    order, numbered 0, 1, 2, ...; the index has grown by one entry per chunk;
    the store is again well formed; and if the index held the records of
    [get_all_chunks] before, it holds those of [get_all_chunks] afterwards,
    so that a rebuild at the next start would find the same records. *)
Theorem process_content_read_back env fuel (content source_type : str) (w : t)
    (item_id : Z) (w' : t) :
  wf (db w) ->
  process_content env fuel content source_type w = Some (Ok item_id, w') ->
  exists final url chunks,
    accepted env content source_type final url
    /\ chunk_text fuel final 500 50 = Some chunks
    /\ get_item_by_id item_id (db w')
       = Some {| item_id_ := item_id; item_content := final;
                 item_source_type := source_type; item_url := url |}
    /\ map chunk_text_ (get_chunks_by_item_id item_id (db w')) = chunks
    /\ map chunk_index_ (get_chunks_by_item_id item_id (db w'))
       = map Z.of_nat (seq 0 (length chunks))
    /\ size (vector_store w') = size (vector_store w) + len chunks
    /\ wf (db w')
    /\ (mirrors w -> mirrors w').
Proof.
  intros Hwf Hrun. apply process_content_inv in Hrun
    as [[_ [e [=]]]|(final & url & chunks & r0 & Hacc & Hchunks & Hloop & Hr)].
  destruct r0 as [[]|x]; [|discriminate]. injection Hr as ->.
  exists final, url, chunks. split; [exact Hacc|]. split; [exact Hchunks|].
  unfold store_chunks, enumerate in Hloop.
  apply store_loop_inv in Hloop as (j & es & Hdb & He & Hch & Hrag & -> & Hes).
  rewrite (insert_item_accepted env content source_type final url _ Hacc) in Hdb, Hch.
  cbn [db vector_store rag_client snd items Database.chunks items_seq chunks_seq]
    in Hdb, He, Hch, Hrag.
  rewrite Hes in Hch. rewrite firstn_all in Hdb, Hch.
  destruct (ingested_rows env content source_type final url (db w) chunks Hacc Hwf)
    as (Hwf' & Hitem & Hrows & Hall).
  fold (len chunks) in Hdb. rewrite <- Hdb in Hwf', Hitem, Hrows, Hall.
  split; [exact Hitem|]. rewrite Hrows.
  split; [apply chunk_rows_texts|]. split; [apply chunk_rows_indices|].
  split.
  { unfold size, len. rewrite Hch, length_app, length_map, length_chunk_rows. lia. }
  split; [exact Hwf'|].
  unfold mirrors. intros Hm. rewrite Hch, Hall, map_app, <- Hm. f_equal.
  rewrite map_map. reflexivity.
Qed.

Lemma process_content_read_back_witness :
  map chunk_text_ (get_chunks_by_item_id 1 (db Examples.after_note)) = [lit "sky"].
Proof.
  destruct (process_content_read_back Examples.env 1 (lit "sky") (lit "note")
              Examples.fresh 1 Examples.after_note wf_empty eq_refl)
    as (final & url & chunks & Hacc & Hchunks & _ & Htexts & _).
  destruct Hacc as [(_ & _ & -> & _)|(Hurl & _)]; [|vm_compute in Hurl; discriminate].
  vm_compute in Hchunks. injection Hchunks as <-. exact Htexts.
Defined.

(** X10: [process_content] keeps the invariants of the store and of the
    index, whatever the outcome, also when it raises half way: a well-formed
    store stays well formed (ids unique, increasing and never beyond their
    sequence), and an aligned index stays aligned (the two lists equally
    long, each embedding an answer of the service for the text at its
    position). *)
Theorem process_content_keeps_invariants env fuel (content source_type : str) (w : t) r w' :
  process_content env fuel content source_type w = Some (r, w') ->
  (wf (db w) -> wf (db w'))
  /\ (aligned (service env) (vector_store w) -> aligned (service env) (vector_store w')).
Proof.
  intros Hrun. apply process_content_inv in Hrun
    as [[-> _]|(final & url & chunks & r0 & Hacc & Hchunks & Hloop & _)]; [auto|].
  split.
  - intros Hwf. unfold store_chunks, enumerate in Hloop.
    apply store_loop_inv in Hloop as (j & es & Hdb & _ & _ & _ & Hres).
    cbn [db] in Hdb. rewrite Hdb.
    pose proof (wf_insert_item final source_type url (db w) Hwf) as Hwf1.
    pose proof (wf_chunk_rows (items_seq (db w) + 1) (take j chunks) 0 _ Hwf1) as Hwf2.
    replace (len (take j chunks)) with (Z.of_nat j) in Hwf2.
    2:{ unfold len. rewrite length_take. destruct r0; lia. }
    apply Hwf2.
    rewrite (insert_item_accepted env content source_type final url _ Hacc). simpl. lia.
  - intros Hal.
    pose proof (for_each_preserves (fun w => aligned (service env) (vector_store w))
                  (fun '(i, chunk_text) =>
                     (let* chunk_id :=
                        on_db (insert_chunk (items_seq (db w) + 1) chunk_text (Z.of_nat i)) in
                      let chunk_metadata :=
                        metadata_of chunk_id (items_seq (db w) + 1) (Z.of_nat i) in
                      on_vector_store (add_chunk (service env) chunk_text chunk_metadata))%py))
      as Hpres.
    unfold store_chunks in Hloop.
    specialize (Hpres ltac:(
      intros [i text] s Hs; unfold bind, on_db, on_vector_store, insert_chunk;
      cbn [db vector_store rag_client snd fst];
      pose proof (add_chunk_aligned (service env) text
                    (metadata_of (chunks_seq (db s) + 1) (items_seq (db w) + 1) (Z.of_nat i))
                    (vector_store s) Hs) as Hadd;
      destruct (add_chunk _ _ _ _) as [r1 v1]; exact Hadd)
      (enumerate chunks)
      {| db := snd (insert_item final source_type url (db w));
         vector_store := vector_store w; rag_client := rag_client w |} Hal).
    cbv zeta in Hloop, Hpres. rewrite Hloop in Hpres. exact Hpres.
Qed.

Lemma process_content_keeps_invariants_witness :
  wf (db Examples.after_note)
  /\ aligned (service Examples.env) (vector_store Examples.after_note).
Proof.
  destruct (process_content_keeps_invariants Examples.env 1 (lit "sky") (lit "note")
              Examples.fresh (Ok 1) Examples.after_note eq_refl) as [Hwf Hal].
  split; [apply Hwf; exact wf_empty|apply Hal; constructor].
Defined.

End ProcessContentFacts.

(** ** [search]: what it raises, and how many results it returns *)

Module SearchErrorFacts.
Import Py VectorStore.
Import SearchFacts.
Local Open Scope Z_scope.

Lemma insert_any_Permutation {A} (lt : A -> A -> bool) (x : A) sorted :
  insert lt x sorted ≡ₚ x :: sorted.
Proof.
  induction sorted as [|y rest IH]; simpl; [reflexivity|].
  destruct (lt x y); [reflexivity|]. rewrite IH. apply Permutation_swap.
Qed.

Lemma sort_from_Permutation {A} (lt : A -> A -> bool) (todo : list A) :
  forall sorted, fold_left (fun sorted x => insert lt x sorted) todo sorted ≡ₚ sorted ++ todo.
Proof.
  induction todo as [|x todo IH]; intros sorted; simpl.
  - rewrite app_nil_r. reflexivity.
  - rewrite IH, insert_any_Permutation. apply Permutation_middle.
Qed.

Lemma sort_reverse_Permutation {A} (lt : A -> A -> bool) (l : list A) :
  sort_reverse lt l ≡ₚ l.
Proof.
  unfold sort_reverse, sort. rewrite <- Permutation_rev, sort_from_Permutation.
  simpl. symmetry. apply Permutation_rev.
Qed.

Lemma similarities_total (q : embedding) (stored : list embedding) :
  forall start,
    exists sims,
      similarities q (combine (seq start (length stored)) stored) = Ok sims
      /\ map fst sims = seq start (length stored).
Proof.
  induction stored as [|e stored IH]; intros start; simpl.
  - exists []. auto.
  - destruct (CosineFacts.cosine_similarity_total q e) as [s ->].
    destruct (IH (S start)) as (sims & -> & Hfst).
    exists ((start, s) :: sims). simpl. rewrite Hfst. auto.
Qed.

Lemma slice_index_0 n : 0 <= n -> slice_index n 0 = 0.
Proof.
  intros Hn. unfold slice_index. change (0 <? 0) with false. cbv iota. lia.
Qed.

Lemma len_slice_to {A} (l : list A) (k : Z) :
  len (slice_to l k) = slice_index (len l) k.
Proof.
  unfold slice_to, slice. rewrite slice_index_0 by (unfold len; lia).
  change (Z.to_nat 0) with 0%nat. rewrite drop_0, Z.sub_0_r.
  unfold len at 1. rewrite length_take.
  assert (0 <= slice_index (len l) k <= len l).
  { unfold slice_index. destruct (Z.ltb_spec k 0); unfold len; lia. }
  unfold len in *. lia.
Qed.

Lemma slice_to_sublist {A} (l : list A) (k : Z) : sublist (slice_to l k) l.
Proof.
  unfold slice_to, slice. etransitivity; [apply sublist_take|apply sublist_drop].
Qed.

Lemma results_of_length (chunks : list chunk_record) (top : list (nat * float)) results :
  results_of chunks top = Ok results -> length results = length top.
Proof.
  revert results. induction top as [|[idx score] top IH]; intros results; simpl.
  - intros [= <-]. reflexivity.
  - destruct (chunks !! idx); [|discriminate].
    destruct (results_of chunks top) as [l|]; [|discriminate].
    intros [= <-]. simpl. rewrite (IH l eq_refl). reflexivity.
Qed.

Lemma similarities_length (q : embedding) (indexed : list (nat * embedding)) sims :
  similarities q indexed = Ok sims -> length sims = length indexed.
Proof.
  revert sims. induction indexed as [|[idx e] indexed IH]; intros sims; simpl.
  - intros [= <-]. reflexivity.
  - destruct (cosine_similarity q e); [|discriminate].
    destruct (similarities q indexed) as [l|]; [|discriminate].
    intros [= <-]. simpl. rewrite (IH l eq_refl). reflexivity.
Qed.

(** However [search] ends, it returns no more results than the index has
    embeddings, and no more than a [top_k] that is not negative. *)
Lemma search_length (svc : Service) (query : str) (top_k : Z) (self : t) results self' :
  search svc query top_k self = (Ok results, self') ->
  (length results <= length (embeddings self))%nat
  /\ (0 <= top_k -> len results <= top_k).
Proof.
  unfold search. destruct (embeddings self) as [|e0 es] eqn:HE.
  - intros [= <- <-]. unfold len. simpl. split; lia.
  - unfold bind at 1.
    pose proof (VectorStoreFacts.generate_embedding_frame svc query self) as [Hemb _].
    unfold generate_query_embedding.
    destruct (generate_embedding svc query self) as [[q|e] self1]; [|discriminate].
    simpl in Hemb. unfold bind at 1, get. unfold bind, lift.
    destruct (similarities q (enumerate (embeddings self1))) as [sims|] eqn:Hsims;
      [|discriminate].
    destruct (results_of (chunks self1) (top_results sims top_k)) as [rs|] eqn:Hres;
      [|discriminate].
    intros [= <- <-]. apply results_of_length in Hres. apply similarities_length in Hsims.
    unfold enumerate in Hsims. rewrite length_combine, length_seq, Nat.min_id, Hemb, HE in Hsims.
    pose proof (len_slice_to (sort_reverse (fun x y => PrimFloat.ltb (snd x) (snd y)) sims) top_k)
      as Hslice.
    unfold top_results in Hres. unfold len in *.
    rewrite (Permutation_length (sort_reverse_Permutation _ sims)), Hsims in Hslice.
    rewrite Hres. unfold slice_index in Hslice.
    destruct (Z.ltb_spec top_k 0); split; lia.
Qed.

(** [search] on an index whose lists are equally long, once the embedding
    request is answered: it returns, with chunks of the index, as many as the
    slice [[:top_k]] of the ranking holds. *)
Lemma search_answered (svc : Service) (query : str) (top_k : Z) (self : t) q self' :
  length (embeddings self) = length (chunks self) ->
  embeddings self <> [] ->
  generate_query_embedding svc query self = (Ok q, self') ->
  exists results,
    search svc query top_k self = (Ok results, self')
    /\ Forall (fun r => fst r ∈ chunks self) results
    /\ len results = slice_index (size self) top_k.
Proof.
  intros Hlen Hne Hq.
  assert (Hself' : embeddings self' = embeddings self /\ chunks self' = chunks self).
  { apply VectorStoreFacts.generate_embedding_answer in Hq as [n [_ [_ ->]]]. auto. }
  destruct Hself' as [Hemb Hchunks].
  destruct (similarities_total q (embeddings self) 0) as (sims & Hsims & Hfst).
  set (top := top_results sims top_k).
  assert (Hsub : forall p, p ∈ top -> p ∈ sims).
  { intros p Hp. unfold top, top_results in Hp.
    apply (sublist_subseteq _ _ (slice_to_sublist _ _)) in Hp.
    rewrite sort_reverse_Permutation in Hp. exact Hp. }
  assert (Hbound : Forall (fun p => (fst p < length (chunks self))%nat) top).
  { apply Forall_forall. intros p Hp.
    assert (Hi : fst p ∈ seq 0 (length (embeddings self))).
    { rewrite <- Hfst. apply list_elem_of_fmap. eauto. }
    apply elem_of_seq in Hi. lia. }
  destruct (results_of_total (chunks self) top Hbound) as [results [Hres Hf2]].
  exists results. split; [|split].
  - unfold search. destruct (embeddings self) as [|e0 es] eqn:HE; [congruence|].
    unfold bind at 1. rewrite Hq. unfold bind at 1, get. unfold bind, lift.
    rewrite Hemb, Hchunks. unfold enumerate. rewrite Hsims.
    fold top. rewrite Hres. reflexivity.
  - clear -Hf2. induction Hf2 as [|p r top results [Hp _] _ IH]; constructor; [|exact IH].
    apply list_elem_of_lookup. eauto.
  - unfold len. rewrite <- (Forall2_length _ _ _ Hf2). fold (len top).
    unfold top, top_results. rewrite len_slice_to. f_equal.
    unfold len, size, len. rewrite (Permutation_length (sort_reverse_Permutation _ sims)).
    rewrite <- (length_map fst sims), Hfst, length_seq. lia.
Qed.

Lemma generate_embedding_raises (svc : Service) (text : str) (self : t) e self' :
  generate_embedding svc text self = (Raise e, self') ->
  e = ValueError "Azure OpenAI client not configured" \/ e = ServiceError.
Proof.
  unfold generate_embedding. destruct (client self) as [n|]; [|intros [= <- _]; auto].
  destruct (embeddings_create svc n text); [discriminate|]. intros [= <- _]. auto.
Qed.

(** What [search] raises and returns on an index whose lists are equally
    long. *)
Lemma search_outcome (svc : Service) (query : str) (top_k : Z) (self : t) :
  length (embeddings self) = length (chunks self) ->
  match fst (search svc query top_k self) with
  | Ok results => Forall (fun r => fst r ∈ chunks self) results
  | Raise e => e = ValueError "Azure OpenAI client not configured" \/ e = ServiceError
  end.
Proof.
  intros Hlen. destruct (embeddings self) as [|e0 es] eqn:HE.
  - unfold search. rewrite HE. constructor.
  - rewrite <- HE in Hlen.
    destruct (generate_query_embedding svc query self) as [[q|e] self'] eqn:Hq.
    + destruct (search_answered svc query top_k self q self' Hlen ltac:(congruence) Hq)
        as (results & -> & Hin & _). exact Hin.
    + unfold search. rewrite HE. unfold bind at 1. rewrite Hq. cbn [fst].
      apply (generate_embedding_raises svc query self e self' Hq).
Qed.

(** X11: on an index whose two lists are equally long and not empty,
    [search] raises only what the embedding request raises, with any [top_k]
    and any scores, NaN included: no [IndexError] and no
    [ZeroDivisionError]. When the request is answered it returns chunks of
    the index, [min(top_k, size)] of them for a [top_k] that is not negative,
    and [max(0, size + top_k)] for a negative one: [similarities[:top_k]]
    then leaves out the last [-top_k] of the ranking instead of failing. *)
Theorem search_raises_only_embedding_error (svc : Service) (query : str) (top_k : Z)
    (self : t) :
  length (embeddings self) = length (chunks self) ->
  embeddings self <> [] ->
  match generate_query_embedding svc query self with
  | (Raise e, self') => search svc query top_k self = (Raise e, self')
  | (Ok q, self') =>
      exists results,
        search svc query top_k self = (Ok results, self')
        /\ Forall (fun r => fst r ∈ chunks self) results
        /\ (0 <= top_k -> len results = Z.min top_k (size self))
        /\ (top_k < 0 -> len results = Z.max 0 (size self + top_k))
  end.
Proof.
  intros Hlen Hne.
  destruct (generate_query_embedding svc query self) as [[q|e] self'] eqn:Hq.
  - destruct (search_answered svc query top_k self q self' Hlen Hne Hq)
      as (results & Hrun & Hin & Hcount).
    exists results. split; [exact Hrun|]. split; [exact Hin|].
    rewrite Hcount. unfold slice_index.
    destruct (Z.ltb_spec top_k 0); split; intros Hk; lia.
  - unfold search. destruct (embeddings self) as [|e0 es] eqn:HE; [congruence|].
    unfold bind at 1. rewrite Hq. reflexivity.
Qed.

Lemma search_raises_only_embedding_error_witness :
  exists results,
    fst (search Examples.unit_service (lit "what?") (-1) Examples.three_chunks) = Ok results
    /\ len results = 2.
Proof.
  pose proof (search_raises_only_embedding_error Examples.unit_service (lit "what?") (-1)
                Examples.three_chunks eq_refl ltac:(discriminate)) as H.
  cbv beta iota delta [generate_query_embedding generate_embedding Examples.three_chunks
                       Examples.unit_service client embeddings_create set_client
                       embeddings chunks] in H.
  destruct H as (results & Hrun & _ & _ & Hneg).
  exists results. split.
  - exact (f_equal fst Hrun).
  - rewrite Hneg by lia. reflexivity.
Defined.

End SearchErrorFacts.

(** ** [query]: what it leaves untouched, and how many sources it returns *)

Module QueryFacts.
Import Py VectorStore Globals RAGPipeline.
Import SearchErrorFacts RAGPipelineFacts.
Local Open Scope Z_scope.

(** Every source [collect_sources] adds names an item of the store. *)
Lemma collect_sources_items (d : Database.t) rs sources :
  collect_sources d rs ∅ [] = Ok sources ->
  (length sources <= length rs)%nat
  /\ Forall (fun entry => exists item,
               Database.get_item_by_id (item_id entry) d = Some item) sources.
Proof.
  intros Hrun. pose proof (collect_sources_spec d rs ∅ []) as Hspec. rewrite Hrun in Hspec.
  destruct Hspec as (new & picked & -> & Hsub & Hbuilt & _).
  simpl. split.
  - rewrite <- (Forall2_length _ _ _ Hbuilt). apply sublist_length. exact Hsub.
  - clear -Hbuilt. induction Hbuilt as [|r e picked new Hb _ IH]; constructor; [|exact IH].
    destruct Hb as (_ & _ & _ & item & Hitem & _). eauto.
Qed.

Lemma generate_embedding_client (svc : Service) (text : str) (self : VectorStore.t) :
  client (snd (generate_embedding svc text self))
  = match client self with Some n => Some (S n) | None => None end.
Proof.
  unfold generate_embedding. destruct (client self) as [n|] eqn:Hc; [|exact Hc].
  destruct (embeddings_create svc n text); reflexivity.
Qed.

Lemma search_client (svc : Service) (query : str) (top_k : Z) (self : VectorStore.t) :
  client (snd (search svc query top_k self)) = client self
  \/ exists n, client self = Some n
               /\ client (snd (search svc query top_k self)) = Some (S n).
Proof.
  assert (Hcases :
    client (snd (search svc query top_k self)) = client self
    \/ client (snd (search svc query top_k self))
       = match client self with Some n => Some (S n) | None => None end).
  { unfold search. destruct (embeddings self) as [|e0 es]; [auto|]. right.
    unfold bind at 1, generate_query_embedding.
    pose proof (generate_embedding_client svc query self) as Hc.
    destruct (generate_embedding svc query self) as [[q|x] self1]; cbn [snd] in *; [|exact Hc].
    unfold bind at 1, get. unfold bind, lift.
    destruct (similarities q (enumerate (embeddings self1))); exact Hc. }
  destruct Hcases as [H|H]; [auto|].
  destruct (client self) as [n|]; [right; eauto|left; exact H].
Qed.

(** How [query] returns: with the fixed sentence when the search found
    nothing, else with the answer of the completion service and the sources
    collected from the search results. *)
Lemma query_inv (env : Env) (question : str) (max_results : Z) (w : t) answer sources w' :
  query env question max_results w = (Ok (answer, sources), w') ->
  exists rs v1,
    search (service env) question max_results (vector_store w) = (Ok rs, v1)
    /\ ((rs = [] /\ answer = no_information /\ sources = []
         /\ w' = {| db := db w; vector_store := v1; rag_client := rag_client w |})
        \/ (rs <> []
            /\ exists n,
                 rag_client w = Some n
                 /\ chat_completions_create env n question rs = Some answer
                 /\ collect_sources (db w) rs ∅ [] = Ok sources
                 /\ w' = {| db := db w; vector_store := v1; rag_client := Some (S n) |})).
Proof.
  intros Hq. unfold query in Hq. unfold bind at 1 in Hq. unfold on_vector_store in Hq.
  destruct (search (service env) question max_results (vector_store w)) as [[rs|e] v1];
    [|discriminate].
  exists rs, v1. split; [reflexivity|].
  destruct rs as [|r rs].
  - injection Hq as <- <- <-. left. auto.
  - right. split; [discriminate|].
    unfold bind at 1 in Hq. unfold generate_answer in Hq. cbn [rag_client] in Hq.
    destruct (rag_client w) as [n|]; [|discriminate].
    destruct (chat_completions_create env n question (r :: rs)) as [a|] eqn:Hchat;
      [|discriminate].
    unfold bind at 1 in Hq. unfold get in Hq. unfold bind, lift, ret in Hq. cbn [db] in Hq.
    destruct (collect_sources (db w) (r :: rs) ∅ []) as [out|]; [|discriminate].
    injection Hq as <- <- <-. exists n. auto.
Qed.

Lemma metadata_of_item_id (chunk_id item_id chunk_index : Z) :
  metadata_of chunk_id item_id chunk_index !! "item_id"%string = Some item_id.
Proof.
  unfold metadata_of, metadata.
  rewrite lookup_insert_ne by discriminate.
  apply lookup_insert_eq.
Qed.

(** On an index whose lists are equally long and whose records name their
    item, [query] raises only what the two services raise. *)
Lemma query_raises (env : Env) (question : str) (max_results : Z) (w : t) :
  length (embeddings (vector_store w)) = length (chunks (vector_store w)) ->
  keyed (vector_store w) ->
  match fst (query env question max_results w) with
  | Ok _ => True
  | Raise e => e = ValueError "Azure OpenAI client not configured" \/ e = ServiceError
  end.
Proof.
  intros Hlen Hkeyed. unfold query. unfold bind at 1. unfold on_vector_store.
  pose proof (search_outcome (service env) question max_results (vector_store w) Hlen) as Hs.
  destruct (search (service env) question max_results (vector_store w)) as [[rs|e] v1];
    cbn [fst] in *; [|exact Hs].
  destruct rs as [|r rs]; [exact I|].
  unfold bind at 1, generate_answer. cbn [rag_client].
  destruct (rag_client w) as [n|]; [|cbn; auto].
  destruct (chat_completions_create env n question (r :: rs)); [|cbn; auto].
  unfold bind at 1, get. unfold bind, lift, ret. cbn [db].
  pose proof (collect_sources_spec (db w) (r :: rs) ∅ []) as Hspec.
  destruct (collect_sources (db w) (r :: rs) ∅ []) as [out|e]; [exact I|].
  cbn [fst]. destruct Hspec as [_ Hex]. exfalso.
  apply Exists_exists in Hex as (r' & Hin & Hnone).
  rewrite Forall_forall in Hs. specialize (Hs r' Hin).
  unfold keyed in Hkeyed. rewrite Forall_forall in Hkeyed.
  destruct (Hkeyed (fst r') Hs) as [id Hid]. unfold owner in Hnone. congruence.
Qed.

(** X12: [query] only reads. Whatever its outcome, the store and the two
    lists of the index are what they were, and each of the two clients has
    sent at most one request. *)
Theorem query_frame (env : Env) (question : str) (max_results : Z) (w : t) :
  let w' := snd (query env question max_results w) in
  db w' = db w
  /\ embeddings (vector_store w') = embeddings (vector_store w)
  /\ VectorStore.chunks (vector_store w') = VectorStore.chunks (vector_store w)
  /\ (client (vector_store w') = client (vector_store w)
      \/ exists n, client (vector_store w) = Some n
                   /\ client (vector_store w') = Some (S n))
  /\ (rag_client w' = rag_client w
      \/ exists n, rag_client w = Some n /\ rag_client w' = Some (S n)).
Proof.
  cbv zeta. destruct (query env question max_results w) as [res w'] eqn:Hq. cbn [snd].
  unfold query in Hq. unfold bind at 1 in Hq. unfold on_vector_store in Hq.
  pose proof (VectorStoreFacts.search_frame (service env) question max_results (vector_store w))
    as [Hemb Hch].
  pose proof (search_client (service env) question max_results (vector_store w)) as Hclient.
  destruct (search (service env) question max_results (vector_store w)) as [[rs|e] v1];
    cbn [fst snd] in *.
  2:{ injection Hq as <- <-. cbn. auto 10. }
  destruct rs as [|r rs].
  - injection Hq as <- <-. cbn. auto 10.
  - unfold bind at 1 in Hq. unfold generate_answer in Hq. cbn [rag_client] in Hq.
    destruct (rag_client w) as [n|] eqn:Hrag.
    2:{ injection Hq as <- <-. cbn. auto 10. }
    destruct (chat_completions_create env n question (r :: rs)).
    + unfold bind at 1 in Hq. unfold get in Hq. unfold bind, lift, ret in Hq.
      cbn [db] in Hq.
      destruct (collect_sources (db w) (r :: rs) ∅ []); injection Hq as <- <-; cbn; eauto 10.
    + injection Hq as <- <-. cbn. eauto 10.
Qed.

(** The sources of [query] are no more than the results of the search. *)
Lemma query_sources_length (env : Env) (question : str) (max_results : Z) (w : t)
    answer sources w' :
  query env question max_results w = (Ok (answer, sources), w') ->
  (length sources <= length (embeddings (vector_store w)))%nat
  /\ (0 <= max_results -> len sources <= max_results).
Proof.
  intros Hq. apply query_inv in Hq as (rs & v1 & Hsearch & Hcases).
  pose proof (search_length _ _ _ _ _ _ Hsearch) as [Hmax Hk].
  destruct Hcases as [(_ & _ & -> & _)|(_ & n & _ & _ & Hcollect & _)].
  - unfold len. simpl. split; lia.
  - apply collect_sources_items in Hcollect as [Hlen _]. unfold len in *. split; lia.
Qed.

(** X13: when [query] returns, it returns at most one source per embedding
    of the index and, for a [max_results] that is not negative, at most
    [max_results] sources; with [max_results = 0] or an empty index it
    returns the fixed sentence and no source, and the completion service is
    not asked. *)
Theorem query_sources_bounded (env : Env) (question : str) (max_results : Z) (w : t) :
  match query env question max_results w with
  | (Ok (answer, sources), w') =>
      (length sources <= length (embeddings (vector_store w)))%nat
      /\ (0 <= max_results -> len sources <= max_results)
      /\ (max_results = 0 \/ embeddings (vector_store w) = [] ->
          answer = no_information /\ sources = [] /\ rag_client w' = rag_client w)
  | (Raise _, _) => True
  end.
Proof.
  destruct (query env question max_results w) as [[[answer sources]|e] w'] eqn:Hq; [|exact I].
  apply query_inv in Hq as (rs & v1 & Hsearch & Hcases).
  pose proof (search_length _ _ _ _ _ _ Hsearch) as [Hmax Hk].
  destruct Hcases as [(-> & -> & -> & ->)|(Hne & n & Hrag & Hchat & Hcollect & ->)].
  - unfold len. simpl. repeat split; auto; lia.
  - apply collect_sources_items in Hcollect as [Hlen _].
    split; [lia|]. split; [unfold len in *; lia|].
    intros [->|Hempty]; exfalso.
    + specialize (Hk ltac:(lia)). destruct rs; [congruence|]. unfold len in Hk. simpl in Hk. lia.
    + rewrite Hempty in Hmax. destruct rs; [congruence|]. simpl in Hmax. lia.
Qed.

End QueryFacts.

(** ** [reload_from_database] and start-up when a request fails *)

Module ReloadFacts.
Import Py VectorStore.
Import VectorStoreFacts StoreFacts.
Local Open Scope Z_scope.

(** The loop of [reload_from_database] when the service answers the
    requests for the rows [pre] and fails the next one. *)
Lemma reload_loop_fails svc (pre : list Database.joined_row) (row : Database.joined_row)
    (post : list Database.joined_row) (es : list embedding) (self : t) (n : nat) :
  client self = Some n ->
  length es = length pre ->
  (forall i row e, pre !! i = Some row -> es !! i = Some e ->
     embeddings_create svc (n + i) (Database.j_chunk_text row) = Some e) ->
  embeddings_create svc (n + length pre) (Database.j_chunk_text row) = None ->
  for_each (pre ++ row :: post)
    (fun chunk =>
       add_chunk svc (Database.j_chunk_text chunk)
         (metadata_of (Database.j_id chunk) (Database.j_item_id chunk)
                      (Database.j_chunk_index chunk))) self
  = (Raise ServiceError,
     {| embeddings := embeddings self ++ es;
        chunks := chunks self ++ map record_of pre;
        client := Some (n + length pre + 1)%nat |}).
Proof.
  intros Hc Hlen Hsvc Hfail. rewrite for_each_app.
  rewrite (reload_loop_appends svc pre es self n Hc Hlen Hsvc).
  cbn [for_each]. unfold bind at 1. unfold add_chunk, bind, generate_embedding.
  cbn [client]. rewrite Hfail. cbn [set_client embeddings chunks].
  replace (S (n + length pre)) with (n + length pre + 1)%nat by lia. reflexivity.
Qed.

(** X14: a rebuild is not atomic. When the store has chunks and the service
    answers the requests for the rows [pre] and fails the next one,
    [reload_from_database] raises the error of the service and the index
    holds the records of [pre] only: what it held before the call is gone. *)
Theorem reload_from_database_until_failure svc (d : Database.t) (self : t) (n : nat)
    (pre : list Database.joined_row) (row : Database.joined_row)
    (post : list Database.joined_row) (es : list embedding) :
  Database.get_all_chunks d = pre ++ row :: post ->
  client self = Some n ->
  length es = length pre ->
  (forall i row e, pre !! i = Some row -> es !! i = Some e ->
     embeddings_create svc (n + i) (Database.j_chunk_text row) = Some e) ->
  embeddings_create svc (n + length pre) (Database.j_chunk_text row) = None ->
  reload_from_database svc d self
  = (Raise ServiceError,
     {| embeddings := es; chunks := map record_of pre;
        client := Some (n + length pre + 1)%nat |}).
Proof.
  intros Hrows Hc Hlen Hsvc Hfail. unfold reload_from_database. rewrite Hrows.
  destruct (pre ++ row :: post) as [|r0 rows0] eqn:Hall.
  { destruct pre; discriminate. }
  rewrite <- Hall. unfold bind at 1, clear. cbv zeta.
  rewrite (reload_loop_fails svc pre row post es
             {| embeddings := []; chunks := []; client := client self |} n Hc Hlen Hsvc Hfail).
  reflexivity.
Qed.

Lemma reload_from_database_until_failure_witness :
  reload_from_database Examples.down_service Examples.sky_db Examples.three_chunks
  = (Raise ServiceError, {| embeddings := []; chunks := []; client := Some 1%nat |}).
Proof.
  apply (reload_from_database_until_failure Examples.down_service Examples.sky_db
           Examples.three_chunks 0 []
           (Database.joined (Database.Build_chunk_row 1 1 (lit "sky") 0)
                            (Database.Build_item_row 1 (lit "sky") (lit "note") None))
           [] []).
  - reflexivity.
  - reflexivity.
  - reflexivity.
  - intros i row e Hrow. discriminate.
  - reflexivity.
Defined.

Import Globals.

(** X15: start-up does not fail, and leaves the index with the rows before
    the first failing request. When the store has chunks, the client is
    configured and the service answers the requests for the rows [pre],
    [startup_event] leaves the store untouched and the index with the
    embeddings and records of [pre], where [pre] is all of [get_all_chunks]
    or is followed by a row whose request fails; in the first case the index
    holds exactly the records of [get_all_chunks]. *)
Theorem startup_event_index (env : Env) (w : t) (n : nat)
    (pre post : list Database.joined_row) (es : list embedding) :
  Database.get_all_chunks (db w) = pre ++ post ->
  client (vector_store w) = Some n ->
  length es = length pre ->
  (forall i row e, pre !! i = Some row -> es !! i = Some e ->
     embeddings_create (service env) (n + i) (Database.j_chunk_text row) = Some e) ->
  match post with
  | [] => pre <> []
  | row :: _ =>
      embeddings_create (service env) (n + length pre) (Database.j_chunk_text row) = None
  end ->
  Main.startup_event env w
  = {| db := db w;
       vector_store :=
         {| embeddings := es; chunks := map record_of pre;
            client := Some (n + length pre + match post with [] => 0 | _ :: _ => 1 end)%nat |};
       rag_client := rag_client w |}
  /\ (post = [] -> mirrors (Main.startup_event env w)).
Proof.
  intros Hrows Hc Hlen Hsvc Hpost.
  assert (Hrun :
    Main.startup_event env w
    = {| db := db w;
         vector_store :=
           {| embeddings := es; chunks := map record_of pre;
              client := Some (n + length pre + match post with [] => 0 | _ :: _ => 1 end)%nat |};
         rag_client := rag_client w |}).
  { unfold Main.startup_event, on_vector_store. destruct post as [|row post].
    - rewrite app_nil_r in Hrows.
      rewrite (reload_from_database_rebuilds (service env) (db w) (vector_store w) n es);
        rewrite ?Hrows; try assumption.
      rewrite Nat.add_0_r. reflexivity.
    - unfold reload_from_database. rewrite Hrows.
      destruct (pre ++ row :: post) as [|r0 rows0] eqn:Hall; [destruct pre; discriminate|].
      rewrite <- Hall. unfold bind at 1, clear. cbv zeta.
      rewrite (reload_loop_fails (service env) pre row post es
                 {| embeddings := []; chunks := []; client := client (vector_store w) |}
                 n Hc Hlen Hsvc Hpost).
      reflexivity. }
  split; [exact Hrun|].
  intros ->. rewrite app_nil_r in Hrows. unfold mirrors. rewrite Hrun. cbn. rewrite Hrows.
  reflexivity.
Qed.

Lemma startup_event_index_witness :
  Main.startup_event Examples.env Examples.restarted = Examples.after_note
  /\ Globals.mirrors (Main.startup_event Examples.env Examples.restarted).
Proof.
  destruct (startup_event_index Examples.env Examples.restarted 0
              [Database.joined (Database.Build_chunk_row 1 1 (lit "sky") 0)
                               (Database.Build_item_row 1 (lit "sky") (lit "note") None)]
              [] [[1%float]]) as [Hrun Hmirrors].
  - reflexivity.
  - reflexivity.
  - reflexivity.
  - intros i row e _ He. destruct i as [|[|i]]; [|discriminate|discriminate].
    injection He as <-. reflexivity.
  - discriminate.
  - split; [exact Hrun|]. apply Hmirrors. reflexivity.
Defined.

End ReloadFacts.

(** ** The routes *)

Module RoutesFacts.
Import Py Globals Routes.
Import DatabaseFacts QueryFacts.
Local Open Scope Z_scope.

(** X16: [ingest_content] answers every failure with status 500. Its one
    handler also catches the [HTTPException] with status 400 that the body
    raises for a source type other than 'note' and 'url', so that the client
    gets a 500 whose detail is the text of the 400; a note that
    [validate_note] rejects gives a 500 as well, and in both cases the store
    and the index are what they were. When the route returns, the response
    carries the id [process_content] returned. *)
Theorem ingest_content_status (env : Env) (fuel : nat) (content source_type : str) (w : t) :
  match ingest_content env fuel content source_type w with
  | None => Ingestion.process_content env fuel content source_type w = None
  | Some (Returned response, w') =>
      exists item_id,
        Ingestion.process_content env fuel content source_type w = Some (Ok item_id, w')
        /\ response_item_id response = Some item_id
        /\ success response = true
  | Some (Raised e, w') => exists detail, e = HTTPException 500 detail
  end
  /\ (source_type <> lit "note" -> source_type <> lit "url" ->
      ingest_content env fuel content source_type w
      = Some (Raised (HTTPException 500
                        (str_of (HTTPException 400
                                   (Text "source_type must be 'note' or 'url'")))), w))
  /\ (source_type = lit "note" ->
      fst (ContentIngestion.validate_note content) = false ->
      exists msg,
        ingest_content env fuel content source_type w
        = Some (Raised (HTTPException 500 (str_of (Python (ValueError msg)))), w)).
Proof.
  split; [|split].
  - unfold ingest_content.
    destruct (negb _) eqn:Hst; [eauto|].
    apply negb_false_iff in Hst.
    destruct (Ingestion.process_content env fuel content source_type w)
      as [[[item_id|e] w']|]; [|eauto|reflexivity].
    exists item_id. auto.
  - intros Hnote Hurl. unfold ingest_content, Database.str_eqb.
    rewrite !bool_decide_eq_false_2 by assumption. reflexivity.
  - intros -> Hinvalid. unfold ingest_content.
    change (negb _) with false. cbv iota.
    unfold Ingestion.process_content.
    rewrite bool_decide_eq_false_2 by (intros H; vm_compute in H; discriminate).
    destruct (ContentIngestion.validate_note content) as [is_valid error].
    simpl in Hinvalid. subst is_valid. eauto.
Qed.

(** X17: the delete route. For an id the store does not hold it answers 404
    and nothing changes. For an id it holds it returns the success response
    (the branch "Failed to delete item" cannot be taken), the item is gone
    from the store, and the index is exactly what it was: the chunks of the
    deleted item stay searchable until the next rebuild. Even so, no later
    [query] lists the deleted item among its sources. *)
Theorem delete_item_route (foreign_keys : bool) (item_id : Z) (w : t) :
  match Database.get_item_by_id item_id (db w) with
  | None =>
      delete_item foreign_keys item_id w
      = (Raised (HTTPException 404 (ItemNotFound item_id)), w)
  | Some _ =>
      exists w',
        delete_item foreign_keys item_id w
        = (Returned {| deleted_success := true; deleted_item_id := item_id |}, w')
        /\ Database.get_item_by_id item_id (db w') = None
        /\ vector_store w' = vector_store w
        /\ rag_client w' = rag_client w
        /\ forall env question max_results,
             match RAGPipeline.query env question max_results w' with
             | (Ok (_, sources), _) => item_id ∉ map RAGPipeline.item_id sources
             | (Raise _, _) => True
             end
  end.
Proof.
  unfold delete_item.
  destruct (Database.get_item_by_id item_id (db w)) as [item|] eqn:Hitem; [|reflexivity].
  unfold on_db, Database.delete_item. rewrite existsb_find_item.
  unfold Database.get_item_by_id in Hitem. rewrite Hitem.
  eexists. split; [reflexivity|]. cbn [db vector_store rag_client fst snd].
  assert (Hgone :
    Database.get_item_by_id item_id
      {| Database.items := filter (fun i => Database.item_id_ i <> item_id) (Database.items (db w));
         Database.chunks :=
           if foreign_keys
           then filter (fun c => Database.chunk_item_id c <> item_id) (Database.chunks (db w))
           else Database.chunks (db w);
         Database.items_seq := Database.items_seq (db w);
         Database.chunks_seq := Database.chunks_seq (db w) |} = None).
  { unfold Database.get_item_by_id. cbn [Database.items]. apply find_item_deleted. }
  split; [exact Hgone|]. split; [reflexivity|]. split; [reflexivity|].
  intros env question max_results.
  destruct (RAGPipeline.query env question max_results _) as [[[answer sources]|e] w2] eqn:Hq;
    [|exact I].
  apply query_inv in Hq as (rs & v1 & _ & [(_ & _ & -> & _)|(_ & n & _ & _ & Hcollect & _)]).
  - simpl. apply not_elem_of_nil.
  - cbn [db] in Hcollect. apply collect_sources_items in Hcollect as [_ Hitems].
    intros Hin. apply list_elem_of_fmap in Hin as (entry & Hid & Hentry).
    rewrite Forall_forall in Hitems. destruct (Hitems entry Hentry) as [found Hfound].
    rewrite <- Hid in Hfound. congruence.
Qed.

(** X18: the query route. A missing [max_results] and [max_results = 0] are
    both served as 5 ([request.max_results or 5]); the response repeats the
    question and has at most that many sources, or at most [max_results]
    sources for a positive [max_results]; every exception of the pipeline is
    answered with status 500. *)
Theorem query_knowledge_base_default (env : Env) (question : str) (max_results : option Z)
    (w : t) :
  query_knowledge_base env question None w = query_knowledge_base env question (Some 5) w
  /\ query_knowledge_base env question (Some 0) w
     = query_knowledge_base env question (Some 5) w
  /\ match query_knowledge_base env question max_results w with
     | (Returned response, _) =>
         question_ response = question
         /\ (max_results = None \/ max_results = Some 0 -> len (sources response) <= 5)
         /\ (forall k, max_results = Some k -> 0 < k -> len (sources response) <= k)
     | (Raised e, _) => exists x, e = HTTPException 500 (str_of (Python x))
     end.
Proof.
  split; [reflexivity|]. split; [reflexivity|].
  unfold query_knowledge_base.
  destruct (RAGPipeline.query env question (or_5 max_results) w)
    as [[[answer sources]|e] w'] eqn:Hq.
  - cbn [question_ Routes.sources].
    apply query_sources_length in Hq as [_ Hk].
    split; [reflexivity|]. split.
    + intros [->| ->]; apply Hk; simpl; lia.
    + intros k -> Hpos. unfold or_5 in Hk. destruct (Z.eqb_spec k 0); lia.
  - eauto.
Qed.

End RoutesFacts.

(** ** [get_chunks_by_item_id] *)

Module ReadFacts.
Import Py Database.
Import DatabaseFacts.
Local Open Scope Z_scope.

(** X19: [get_chunks_by_item_id] returns exactly the chunks of the table
    with that item id, each once, by ascending [chunk_index]; for an id that
    was never given out it returns nothing, as does [get_item_by_id]. *)
Theorem get_chunks_by_item_id_ordered (item_id : Z) (d : t) :
  StronglySorted (key_le chunk_index_) (get_chunks_by_item_id item_id d)
  /\ get_chunks_by_item_id item_id d
     ≡ₚ filter (fun c => chunk_item_id c = item_id) (chunks d)
  /\ (forall c, c ∈ get_chunks_by_item_id item_id d
                <-> c ∈ chunks d /\ chunk_item_id c = item_id)
  /\ (wf d -> items_seq d < item_id ->
      get_item_by_id item_id d = None /\ get_chunks_by_item_id item_id d = []).
Proof.
  unfold get_chunks_by_item_id.
  destruct (SortFacts.sort_key_sorted chunk_index_
              (filter (fun c => chunk_item_id c = item_id) (chunks d))) as [Hs Hp].
  split; [exact Hs|]. split; [exact Hp|]. split.
  - intros c. change (fun c1 c2 => chunk_index_ c1 <? chunk_index_ c2)
      with (key_lt chunk_index_). rewrite Hp, list_elem_of_filter. tauto.
  - intros (_ & Hib & _ & _ & Hci) Hid.
    split; [apply (find_item_above item_id (items_seq d)); assumption|].
    clear Hs Hp.
    replace (filter (fun c => chunk_item_id c = item_id) (chunks d)) with (@nil chunk_row);
      [reflexivity|].
    symmetry. induction Hci as [|c l Hc Hci IH]; [reflexivity|].
    rewrite filter_cons_False by (simpl; lia). exact IH.
Qed.

End ReadFacts.

(** ** [cosine_similarity] is symmetric *)

Module SymmetryFacts.
Import Py VectorStore.
Local Open Scope Z_scope.

Lemma SFmul_comm prec emax (x y : spec_float) : SFmul prec emax x y = SFmul prec emax y x.
Proof.
  destruct x as [sx|sx| |sx mx ex], y as [sy|sy| |sy my ey]; simpl;
    rewrite ?(xorb_comm sx sy); try reflexivity.
  rewrite (Pos.mul_comm mx my), (Z.add_comm ex ey). reflexivity.
Qed.

Lemma mul_comm (a b : float) : PrimFloat.mul a b = PrimFloat.mul b a.
Proof.
  apply Prim2SF_inj. rewrite !mul_spec. apply SFmul_comm.
Qed.

Lemma dot_product_comm (vec1 vec2 : list float) :
  dot_product vec1 vec2 = dot_product vec2 vec1.
Proof.
  unfold dot_product. f_equal. revert vec2.
  induction vec1 as [|a vec1 IH]; intros [|b vec2]; simpl; try reflexivity.
  rewrite (mul_comm a b), IH. reflexivity.
Qed.

(** X20: [cosine_similarity] is symmetric, bit for bit: for all vectors, of
    the same length or not, [cosine_similarity(a, b)] and
    [cosine_similarity(b, a)] are the same float (or both NaN). *)
Theorem cosine_similarity_symmetric (vec1 vec2 : list float) :
  cosine_similarity vec1 vec2 = cosine_similarity vec2 vec1.
Proof.
  rewrite !CosineFacts.cosine_similarity_unfold.
  rewrite (orb_comm (PrimFloat.eqb (norm vec1) 0)), (dot_product_comm vec1 vec2),
    (mul_comm (norm vec1) (norm vec2)).
  reflexivity.
Qed.

End SymmetryFacts.

(** ** The chunker keeps every word *)

Module WordFacts.
Import Py ContentIngestion.
Import ChunkerFacts.
Local Open Scope Z_scope.

Lemma split_from_words (s : str) :
  forall word, Forall (fun c => isspace c = false) word ->
    Forall is_word (split_from word s).
Proof.
  induction s as [|c s IH]; intros word Hword; simpl.
  - destruct word as [|c0 word]; [constructor|]. constructor; [|constructor].
    split.
    + intros H. apply (f_equal (@length _)) in H. rewrite length_rev in H. discriminate.
    + apply Forall_rev. exact Hword.
  - destruct (isspace c) eqn:Hc.
    + destruct word as [|c0 word]; [apply IH; constructor|].
      constructor; [|apply IH; constructor]. split.
      * intros H. apply (f_equal (@length _)) in H. rewrite length_rev in H. discriminate.
      * apply Forall_rev. exact Hword.
    + apply IH. constructor; assumption.
Qed.

Lemma split_words (s : str) : Forall is_word (split s).
Proof.
  apply split_from_words. constructor.
Qed.

Lemma split_from_word (w : str) :
  Forall (fun c => isspace c = false) w ->
  forall word rest, split_from word (w ++ rest) = split_from (rev w ++ word) rest.
Proof.
  induction 1 as [|c w Hc Hw IH]; intros word rest; simpl; [reflexivity|].
  rewrite Hc, IH, <- app_assoc. reflexivity.
Qed.

Lemma split_join (ws : list str) : Forall is_word ws -> split (join space ws) = ws.
Proof.
  unfold split. induction 1 as [|w ws [Hne Hw] Hws IH]; [reflexivity|].
  destruct ws as [|w' ws].
  - simpl. rewrite <- (app_nil_r w) at 1. rewrite split_from_word by exact Hw.
    simpl. rewrite app_nil_r. destruct (rev w) eqn:Hr.
    + apply (f_equal (@length _)) in Hr. rewrite length_rev in Hr.
      destruct w; [congruence|discriminate].
    + rewrite <- Hr, rev_involutive. reflexivity.
  - change (join space (w :: w' :: ws)) with (w ++ space ++ join space (w' :: ws)).
    rewrite split_from_word by exact Hw. rewrite app_nil_r.
    change (space ++ join space (w' :: ws)) with (32%N :: join space (w' :: ws)).
    cbn [split_from]. change (isspace 32%N) with true. cbv iota.
    rewrite IH. destruct (rev w) eqn:Hr.
    + apply (f_equal (@length _)) in Hr. rewrite length_rev in Hr.
      destruct w; [congruence|discriminate].
    + rewrite <- Hr, rev_involutive. reflexivity.
Qed.

Lemma slice_words (words : list str) (start stop : Z) :
  Forall is_word words -> Forall is_word (slice words start stop).
Proof.
  intros Hw. unfold slice. apply Forall_take, Forall_drop. exact Hw.
Qed.

Lemma split_window (words : list str) (chunk_size start : Z) :
  Forall is_word words ->
  split (window words chunk_size start) = slice words start (start + chunk_size).
Proof.
  intros Hw. apply split_join, slice_words, Hw.
Qed.

(** [l[start:stop]] for bounds inside the list. *)
Lemma slice_drop_take {A} (l : list A) (start stop : Z) :
  0 <= start <= stop ->
  slice l start stop = drop (Z.to_nat start) (take (Z.to_nat stop) l).
Proof.
  intros Hb. unfold slice, slice_index.
  destruct (Z.ltb_spec start 0); [lia|]. destruct (Z.ltb_spec stop 0); [lia|].
  rewrite take_drop_commute.
  destruct (Z.le_gt_cases (len l) start) as [Hout|Hin].
  - rewrite !drop_ge; [reflexivity| |].
    + rewrite length_take. unfold len in Hout. lia.
    + rewrite length_take. unfold len in Hout. lia.
  - rewrite (Z.min_l start) by lia. f_equal.
    destruct (Z.le_gt_cases stop (len l)).
    + rewrite Z.min_l by lia. f_equal. lia.
    + rewrite Z.min_r by lia. rewrite !take_ge; [reflexivity| |]; unfold len in *; lia.
Qed.

Lemma words_of_snoc overlap (chunks : list str) (chunk : str) :
  chunks <> [] ->
  words_of overlap (chunks ++ [chunk])
  = words_of overlap chunks ++ drop (Z.to_nat overlap) (split chunk).
Proof.
  destruct chunks as [|first rest]; [congruence|]. intros _. simpl.
  rewrite map_app, concat_app. simpl. rewrite app_nil_r, app_assoc. reflexivity.
Qed.

Lemma windows_words (words : list str) (chunk_size overlap : Z) :
  Forall is_word words ->
  0 <= overlap < chunk_size ->
  forall j : nat,
    Z.of_nat j * (chunk_size - overlap) < len words ->
    words_of overlap (map (window words chunk_size) (starts (chunk_size - overlap) (S j)))
    = take (Z.to_nat (Z.of_nat j * (chunk_size - overlap) + chunk_size)) words.
Proof.
  intros Hw Hov. induction j as [|j IH]; intros Hj.
  - unfold starts. simpl. rewrite app_nil_r, split_window by exact Hw.
    rewrite slice_drop_take by lia. reflexivity.
  - rewrite starts_snoc, map_app. cbn [map].
    rewrite words_of_snoc by (unfold starts; simpl; discriminate).
    rewrite IH by nia. rewrite split_window by exact Hw.
    rewrite slice_drop_take by nia. rewrite drop_drop.
    set (a := Z.of_nat j * (chunk_size - overlap) + chunk_size).
    set (b := Z.of_nat (S j) * (chunk_size - overlap) + chunk_size).
    replace (Z.to_nat (Z.of_nat (S j) * (chunk_size - overlap)) + Z.to_nat overlap)%nat
      with (Z.to_nat a) by (unfold a; nia).
    assert (Hab : (Z.to_nat a <= Z.to_nat b)%nat) by (unfold a, b; nia).
    rewrite <- (take_drop (Z.to_nat a) (take (Z.to_nat b) words)) at 2.
    rewrite take_take, Nat.min_l by exact Hab. reflexivity.
Qed.

(** X21: chunking loses no word. With [0 <= overlap < chunk_size] and one
    turn of fuel per word, [chunk_text] returns at least one chunk; every
    chunk has at most [chunk_size] words; and the words of the first chunk,
    followed by the words of every later chunk without its first [overlap]
    words, are exactly the words of the text, in order. *)
Theorem chunk_text_keeps_words (text : str) (chunk_size overlap : Z) (fuel : nat) :
  0 <= overlap < chunk_size ->
  (length (split text) <= fuel)%nat ->
  exists first rest,
    chunk_text fuel text chunk_size overlap = Some (first :: rest)
    /\ split first
       ++ concat (map (fun chunk => drop (Z.to_nat overlap) (split chunk)) rest)
       = split text
    /\ Forall (fun chunk => len (split chunk) <= chunk_size) (first :: rest).
Proof.
  intros Hov Hfuel. unfold chunk_text.
  destruct (Z.leb_spec (len (split text)) chunk_size) as [Hshort|Hlong].
  - exists text, []. simpl. rewrite app_nil_r. repeat split. constructor; [exact Hshort|constructor].
  - set (words := split text) in *. set (step := chunk_size - overlap).
    assert (Hstep : 0 < step) by (unfold step; lia).
    assert (Hn : 0 < len words) by lia.
    pose proof (split_words text) as Hw. fold words in Hw.
    pose proof (count_starts_spec (len words) step Hstep Hn) as Hm.
    pose proof (chunk_loop_windows words chunk_size overlap (count_starts (len words) step)
                  Hstep Hm fuel 0%nat) as Hrun.
    change (Z.of_nat 0 * (chunk_size - overlap)) with 0 in Hrun.
    change (map (window words chunk_size) (starts (chunk_size - overlap) 0))
      with (@nil str) in Hrun.
    assert (Hm3 : Z.of_nat (count_starts (len words) step) <= Z.of_nat (length words)).
    { change (Z.of_nat (length words)) with (len words). nia. }
    rewrite Hrun; [|lia|lia].
    destruct (count_starts (len words) step) as [|j] eqn:Hcount; [lia|].
    fold step.
    pose proof (windows_words words chunk_size overlap Hw Hov j ltac:(fold step; lia)) as Hcover.
    fold step in Hcover.
    assert (Hall : Forall (fun chunk => len (split chunk) <= chunk_size)
                     (map (window words chunk_size) (starts step (S j)))).
    { apply Forall_forall. intros chunk Hin.
      apply list_elem_of_fmap in Hin as (s & -> & Hs). unfold starts in Hs.
      apply list_elem_of_fmap in Hs as (k & -> & Hk). apply elem_of_seq in Hk.
      rewrite split_window by exact Hw.
      assert (Z.of_nat k * step < len words) by nia.
      rewrite len_slice by nia. lia. }
    destruct (map (window words chunk_size) (starts step (S j))) as [|first rest] eqn:Hchunks.
    { unfold starts in Hchunks. simpl in Hchunks. discriminate. }
    exists first, rest. split; [reflexivity|]. split; [|exact Hall].
    unfold words_of in Hcover. rewrite Hcover. apply take_ge.
    change (Z.of_nat (length words)) with (len words) in *. unfold len in *. nia.
Qed.

Lemma chunk_text_keeps_words_witness :
  exists first rest,
    chunk_text 5 (lit "a b c d e") 2 1 = Some (first :: rest)
    /\ split first ++ concat (map (fun chunk => drop (Z.to_nat 1) (split chunk)) rest)
       = split (lit "a b c d e")
    /\ Forall (fun chunk => len (split chunk) <= 2) (first :: rest).
Proof.
  apply (chunk_text_keeps_words (lit "a b c d e") 2 1 5); [lia|vm_compute; lia].
Defined.

End WordFacts.

(** ** The index names the item of every record *)

Module KeyedFacts.
Import Py Database VectorStore Globals ContentIngestion Ingestion.
Import ChunkerFacts DatabaseFacts VectorStoreFacts StoreFacts ProcessContentFacts.
Import QueryFacts.
Local Open Scope Z_scope.

Lemma record_of_row_keyed (rows : list chunk_row) :
  Forall (fun c => is_Some (metadata_ c !! "item_id"%string)) (map record_of_row rows).
Proof.
  apply Forall_forall. intros c Hc. apply list_elem_of_fmap in Hc as (row & -> & _).
  unfold record_of_row. cbn [metadata_]. rewrite metadata_of_item_id. eauto.
Qed.

Lemma add_chunk_keyed (svc : Service) (chunk_text : str) (chunk_metadata : metadata)
    (self : VectorStore.t) :
  is_Some (chunk_metadata !! "item_id"%string) ->
  keyed self -> keyed (snd (add_chunk svc chunk_text chunk_metadata self)).
Proof.
  intros Hm Hk. unfold add_chunk, bind.
  pose proof (generate_embedding_frame svc chunk_text self) as [_ Hc].
  destruct (generate_embedding svc chunk_text self) as [[e|x] self1]; cbn [snd] in *.
  - unfold keyed. cbn [VectorStore.chunks]. rewrite Hc. apply Forall_app. split; [exact Hk|].
    constructor; [exact Hm|constructor].
  - unfold keyed. rewrite Hc. exact Hk.
Qed.

Lemma reload_keyed (svc : Service) (d : Database.t) (self : VectorStore.t) :
  keyed self -> keyed (snd (reload_from_database svc d self)).
Proof.
  intros Hk. unfold reload_from_database.
  destruct (get_all_chunks d) as [|r rows]; [exact Hk|].
  unfold bind, clear.
  apply (for_each_preserves keyed).
  - intros x s Hs. apply add_chunk_keyed; [|exact Hs]. rewrite metadata_of_item_id. eauto.
  - constructor.
Qed.

(** X22: on an index built by this code, [query] raises only the errors of
    the two services. Every record of a new index has the key 'item_id', and
    [process_content] (whatever its outcome), [reload_from_database] and
    [startup_event] keep it so; on an index with that property whose two
    lists are equally long, [query] returns, or raises [ValueError] ("Azure
    OpenAI client not configured") or the error of a failing request: never
    [KeyError], [IndexError] or [ZeroDivisionError]. *)
Theorem query_raises_only_service_errors (env : Env) :
  (forall configured, keyed (init configured))
  /\ (forall w, keyed (vector_store w) ->
        (forall fuel content source_type r w',
           process_content env fuel content source_type w = Some (r, w') ->
           keyed (vector_store w'))
        /\ (forall d, keyed (snd (reload_from_database (service env) d (vector_store w))))
        /\ keyed (vector_store (Main.startup_event env w)))
  /\ (forall w question max_results,
        length (embeddings (vector_store w)) = length (VectorStore.chunks (vector_store w)) ->
        keyed (vector_store w) ->
        match fst (RAGPipeline.query env question max_results w) with
        | Ok _ => True
        | Raise e =>
            e = ValueError "Azure OpenAI client not configured" \/ e = ServiceError
        end).
Proof.
  split; [intros configured; constructor|]. split.
  - intros w Hk. split; [|split].
    + intros fuel content source_type r w' Hrun.
      apply process_content_inv in Hrun
        as [[-> _]|(final & url & chunks & r0 & Hacc & Hchunks & Hloop & _)]; [exact Hk|].
      unfold store_chunks, enumerate in Hloop.
      apply store_loop_inv in Hloop as (j & es & _ & _ & Hch & _).
      unfold keyed. rewrite Hch. apply Forall_app. split; [exact Hk|].
      apply record_of_row_keyed.
    + intros d. apply reload_keyed. exact Hk.
    + unfold Main.startup_event, on_vector_store.
      pose proof (reload_keyed (service env) (db w) (vector_store w) Hk) as Hr.
      destruct (reload_from_database (service env) (db w) (vector_store w)). exact Hr.
  - intros w question max_results. apply query_raises.
Qed.

End KeyedFacts.

(** ** [process_and_store_content] *)

Module PipelineStoreFacts.
Import Py Database VectorStore Globals Ingestion RAGPipeline.
Import ChunkerFacts StoreFacts.
Local Open Scope Z_scope.

(** X23: [process_and_store_content] reports a failure instead of raising,
    and keeps what it stored before the failure. For an item of the store,
    when the call returns, the chunks are those the chunker of
    [ingestion.py] returns for the configured size and overlap; no item is
    added; the chunks table has new rows of that item and the index new
    entries for the first of them. When it returns [True] there is one row
    and one entry per chunk, in order; when it returns [False] the store has
    exactly one new row more than the index has new entries. *)
Theorem process_and_store_content_outcome (env : Env) (config : Config.t) (fuel : nat)
    (item_id : Z) (content : str) (w : t) (ok : bool) (w' : t) :
  is_Some (get_item_by_id item_id (db w)) ->
  process_and_store_content env config fuel item_id content w = Some (ok, w') ->
  exists chunks rows es,
    ContentIngestion.chunk_text fuel content (Config.CHUNK_SIZE config)
                                (Config.CHUNK_OVERLAP config) = Some chunks
    /\ items (db w') = items (db w)
    /\ Database.chunks (db w') = Database.chunks (db w) ++ rows
    /\ Forall (fun c => chunk_item_id c = item_id) rows
    /\ embeddings (vector_store w') = embeddings (vector_store w) ++ es
    /\ VectorStore.chunks (vector_store w')
       = VectorStore.chunks (vector_store w) ++ map record_of_row (take (length es) rows)
    /\ if ok
       then map chunk_text_ rows = chunks /\ length es = length chunks
       else length rows = S (length es) /\ (length rows <= length chunks)%nat.
Proof.
  intros _ Hrun. unfold process_and_store_content in Hrun.
  rewrite rag_chunk_text_eq in Hrun.
  destruct (ContentIngestion.chunk_text fuel content (Config.CHUNK_SIZE config)
              (Config.CHUNK_OVERLAP config)) as [chunks|]; [|discriminate].
  destruct (for_each (enumerate chunks) _ w) as [r0 w0] eqn:Hloop.
  unfold enumerate in Hloop.
  apply store_loop_inv in Hloop as (j & es & Hdb & He & Hch & _ & Hres).
  exists chunks, (chunk_rows item_id (chunks_seq (db w)) 0 (take j chunks)), es.
  assert (Hw' : w' = w0 /\ ok = match r0 with Ok _ => true | Raise _ => false end).
  { destruct r0; injection Hrun as <- <-; auto. }
  destruct Hw' as [-> ->]. rewrite Hdb, He, Hch. cbn [items Database.chunks].
  split; [reflexivity|]. split; [reflexivity|]. split; [reflexivity|].
  split; [apply chunk_rows_item|]. split; [reflexivity|].
  split.
  { rewrite take_chunk_rows, take_take. do 3 f_equal.
    destruct r0; destruct Hres; f_equal; lia. }
  destruct r0 as [[]|x]; destruct Hres as [Hj Hes].
  - subst j. rewrite firstn_all, chunk_rows_texts. auto.
  - rewrite length_chunk_rows, length_take. lia.
Qed.

Lemma process_and_store_content_outcome_witness :
  exists rows,
    Database.chunks (db Examples.after_grass)
    = Database.chunks (db Examples.after_note) ++ rows
    /\ map chunk_text_ rows = [lit "grass"].
Proof.
  destruct (process_and_store_content_outcome Examples.env Config.default 1 1 (lit "grass")
              Examples.after_note true Examples.after_grass
              ltac:(eexists; reflexivity) eq_refl)
    as (chunks & rows & es & Hchunks & _ & Hrows & _ & _ & _ & Htexts & _).
  vm_compute in Hchunks. injection Hchunks as <-.
  exists rows. split; [exact Hrows|exact Htexts].
Defined.

End PipelineStoreFacts.

(** ** [process_content] returns *)

Module TerminationFacts.
Import Py Database VectorStore Globals ContentIngestion Ingestion.
Import ChunkerFacts StoreFacts ProcessContentFacts.
Local Open Scope Z_scope.

Lemma length_split_from (s : str) :
  forall word,
    (length (split_from word s) <= length s + match word with [] => 0 | _ => 1 end)%nat.
Proof.
  induction s as [|c s IH]; intros word; simpl.
  - destruct word; simpl; lia.
  - destruct (isspace c).
    + destruct word; [specialize (IH []); simpl in IH; lia|].
      simpl. specialize (IH []). simpl in IH. lia.
    + specialize (IH (c :: word)). simpl in IH. destruct word; lia.
Qed.

Lemma length_split (s : str) : (length (split s) <= length s)%nat.
Proof.
  pose proof (length_split_from s []) as H. simpl in H. unfold split. lia.
Qed.

(** X24: [process_content] always comes to an end. With the sizes 500 and 50
    the chunker loop needs at most one turn per word, so for every input
    some amount of fuel is enough, and with it [process_content] returns or
    raises; for an input that is not a url, 50,000 turns are always enough,
    because a note that [validate_note] accepts has at most 50,000
    characters. *)
Theorem process_content_returns (env : Env) (content source_type : str) (w : t) :
  (exists enough : nat,
     forall fuel, (enough <= fuel)%nat ->
       exists r w', process_content env fuel content source_type w = Some (r, w'))
  /\ (source_type <> lit "url" ->
      forall fuel, 50000 <= Z.of_nat fuel ->
        exists r w', process_content env fuel content source_type w = Some (r, w')).
Proof.
  assert (Hrun : forall final url fuel,
            accepted env content source_type final url ->
            (length (split final) <= fuel)%nat ->
            exists r w', process_content env fuel content source_type w = Some (r, w')).
  { intros final url fuel Hacc Hfuel.
    rewrite (process_content_accepted env fuel content source_type final url w Hacc).
    destruct (chunk_text_returns final 500 50 fuel ltac:(lia) Hfuel) as (c & cs & ->).
    destruct ((store_chunks env (items_seq (db w) + 1) (c :: cs) ;;;
               ret (items_seq (db w) + 1))%py
                {| db := snd (insert_item final source_type url (db w));
                   vector_store := vector_store w; rag_client := rag_client w |})
      as [r w']. eauto. }
  assert (Hnote : source_type <> lit "url" ->
            (exists e, forall fuel,
               process_content env fuel content source_type w = Some (Raise e, w))
            \/ (accepted env content source_type content None /\ len content <= 50000)).
  { intros Hurl. destruct (decide (source_type = lit "note")) as [->|Hnote].
    - destruct (validate_note content) as [is_valid error] eqn:Hv. destruct is_valid.
      + right. split; [left; rewrite Hv; auto|].
        unfold validate_note in Hv. destruct (_ || _); [discriminate|].
        destruct (Z.gtb_spec (len content) 50000); [discriminate|lia].
      + left. eexists. intros fuel. unfold process_content.
        rewrite bool_decide_eq_false_2 by exact Hurl. rewrite Hv. reflexivity.
    - left. destruct (validate_note content) as [is_valid error] eqn:Hv.
      destruct is_valid; eexists; intros fuel; unfold process_content;
        rewrite bool_decide_eq_false_2 by exact Hurl; rewrite Hv; [|reflexivity].
      rewrite insert_item_rejected by assumption. reflexivity. }
  split.
  - destruct (decide (source_type = lit "url")) as [->|Hurl].
    + destruct (extract_url_content env content) as [[success extracted] error] eqn:Hx.
      destruct success.
      * exists (length (split extracted)). intros fuel Hfuel.
        apply (Hrun extracted (Some content)); [|exact Hfuel].
        right. rewrite Hx. auto.
      * exists 0%nat. intros fuel _. unfold process_content.
        rewrite bool_decide_eq_true_2 by reflexivity. rewrite Hx. eauto.
    + destruct (Hnote Hurl) as [[e He]|[Hacc _]].
      * exists 0%nat. intros fuel _. rewrite He. eauto.
      * exists (length (split content)). intros fuel Hfuel. exact (Hrun _ _ _ Hacc Hfuel).
  - intros Hurl fuel Hfuel. destruct (Hnote Hurl) as [[e He]|[Hacc Hlen]].
    + rewrite He. eauto.
    + apply (Hrun content None fuel Hacc).
      pose proof (length_split content). unfold len in Hlen. lia.
Qed.

End TerminationFacts.
